(** * ARES: the BookNLP output-contract builder

    A shallow embedding of [scripts/booknlp_runner.py]: the tabular reader
    [parse_tsv_file], the token indexer [build_token_index], the entity
    resolver [build_characters_and_mentions], the chain builder
    [build_coref_chains], the quote resolver [build_quotes] and the
    assembler [build_contract], followed by the properties of the contract
    they produce.

    Conventions of the embedding.
    - A Python [str] is a [string]; its characters are code points below 256.
    - A Python [int] is a [Z].
    - A [dict] keeps its keys in insertion order, so it is an association
      list without duplicate keys ([dict_get], [dict_set], [dict_upd]).
    - A [try: ... except (ValueError, KeyError, IndexError): continue] body is
      a computation in [option]; [None] is the raised exception.
    - A file is [option string]: [None] when the path does not exist,
      otherwise the text [Path.read_text] returns.  A path that exists
      and cannot be read is the [Unreadable] of [File]; the functions
      that take such paths ([parse_tsv_file_fs] to [build_contract_fs])
      come last, with the exceptions that leave them. *)

From Stdlib Require Import String Ascii List ZArith Lia Bool Arith.
From Stdlib Require Import DecimalString DecimalZ PrimFloat FinFun.
From Stdlib Require Import Sorted Permutation.
Import ListNotations.

Local Open Scope string_scope.
Local Open Scope list_scope.
Local Open Scope Z_scope.

(** ** Python primitives *)

(** [x <- e ;; k]: run [e], leave with [None] when it raised. *)
Notation "x <- e ;; k" :=
  (match e with Some x => k | None => None end)
  (at level 61, e at next level, right associativity).

(** [str.isspace] on one character, for code points below 256. *)
Definition is_space (c : ascii) : bool :=
  let n := nat_of_ascii c in
  ((9 <=? n) && (n <=? 13) || (28 <=? n) && (n <=? 32)
   || (n =? 133) || (n =? 160))%nat.

Fixpoint lstrip_by (space : ascii -> bool) (s : string) : string :=
  match s with
  | "" => ""
  | String c s' => if space c then lstrip_by space s' else s
  end.

Fixpoint rstrip_by (space : ascii -> bool) (s : string) : string :=
  match s with
  | "" => ""
  | String c s' =>
      match rstrip_by space s' with
      | "" => if space c then "" else String c ""
      | r => String c r
      end
  end.

(** [s.strip()] *)
Definition strip (s : string) : string :=
  rstrip_by is_space (lstrip_by is_space s).

(** [s.split(sep)] for a one-character separator: never the empty list. *)
Fixpoint split (sep : ascii) (s : string) : list string :=
  match s with
  | "" => [""]
  | String c s' =>
      if Ascii.eqb c sep then "" :: split sep s'
      else match split sep s' with
           | w :: ws => String c w :: ws
           | [] => [String c ""]
           end
  end.

(** Truthiness of a [str]: [if s:]. *)
Definition truthy (s : string) : bool :=
  match s with "" => false | _ => true end.

(** Truthiness of an [Optional[str]]. *)
Definition truthy_opt (o : option string) : bool :=
  match o with Some s => truthy s | None => false end.

Definition is_digit (c : ascii) : bool :=
  let n := nat_of_ascii c in ((48 <=? n) && (n <=? 57))%nat.

Definition digit_val (c : ascii) : Z := Z.of_nat (nat_of_ascii c) - 48.

(** The digits of an [int] literal in base 10: one underscore is allowed
    between two digits.  [prev] tells whether the previous character was
    a digit; [n] counts the digits read. *)
Fixpoint digits_acc (s : string) (acc : Z) (n : nat) (prev : bool)
  : option (Z * nat) :=
  match s with
  | "" => if prev then Some (acc, n) else None
  | String c s' =>
      if is_digit c then digits_acc s' (10 * acc + digit_val c) (S n) true
      else if Ascii.eqb c "_" && prev then digits_acc s' acc n false
      else None
  end.

(** The default of [sys.get_int_max_str_digits()]. *)
Definition max_str_digits : nat := 4300.

Definition digits_val (s : string) : option Z :=
  r <- digits_acc s 0 0%nat false ;;
  if (snd r <=? max_str_digits)%nat then Some (fst r) else None.

(** The white space [int] skips around a number: of the characters
    below 127 only those of C's [isspace], so not the separators 28 to 31
    that [str.isspace] accepts. *)
Definition is_int_space (c : ascii) : bool :=
  let n := nat_of_ascii c in
  ((9 <=? n) && (n <=? 13) || (n =? 32) || (n =? 133) || (n =? 160))%nat.

(** [int(s)]: surrounding white space, an optional sign, decimal digits.
    [None] is [ValueError]. *)
Definition py_int (s : string) : option Z :=
  match rstrip_by is_int_space (lstrip_by is_int_space s) with
  | String "-" ds => option_map Z.opp (digits_val ds)
  | String "+" ds => digits_val ds
  | ds => digits_val ds
  end.

(** [str(n)] and the [{n}] of an f-string. *)
Definition py_str (n : Z) : string := NilZero.string_of_int (Z.to_int n).

(** ** Insertion-ordered dictionaries *)

Section Dict.
Context {K V : Type}.
Variable eqb : K -> K -> bool.

Definition dict := list (K * V).

(** [d.get(k)] *)
Fixpoint dict_get (d : dict) (k : K) : option V :=
  match d with
  | [] => None
  | (k', v) :: d' => if eqb k k' then Some v else dict_get d' k
  end.

(** [d[k] = f(d[k])], the entry being created from [dflt] when it is
    missing (a [defaultdict]); a new key goes to the end. *)
Fixpoint dict_upd (d : dict) (k : K) (dflt : V) (f : V -> V) : dict :=
  match d with
  | [] => [(k, f dflt)]
  | (k', v) :: d' =>
      if eqb k k' then (k', f v) :: d'
      else (k', v) :: dict_upd d' k dflt f
  end.

(** [d[k] = v] *)
Definition dict_set (d : dict) (k : K) (v : V) : dict :=
  dict_upd d k v (fun _ => v).

(** [d.get(k, dflt)] *)
Definition dict_get_or (d : dict) (k : K) (dflt : V) : V :=
  match dict_get d k with Some v => v | None => dflt end.
End Dict.

Arguments dict : clear implicits.

(** ** 4.1 Tabular reader *)

(** One parsed line: header name to field. *)
Definition Row := dict string string.

(** [row.get(k, dflt)] *)
Definition get (row : Row) (k dflt : string) : string :=
  dict_get_or String.eqb row k dflt.

(** [{headers[i]: parts[i] if i < len(parts) else "" for i in
    range(len(headers))}], from left to right. *)
Fixpoint make_row (headers parts : list string) (acc : Row) : Row :=
  match headers with
  | [] => acc
  | h :: hs =>
      match parts with
      | [] => make_row hs [] (dict_set String.eqb acc h "")
      | p :: ps => make_row hs ps (dict_set String.eqb acc h p)
      end
  end.

Definition tab : ascii := ascii_of_nat 9.
Definition newline : ascii := ascii_of_nat 10.

(** [parse_tsv_file] from the text that [read_text] returned; [None]
    when the path does not exist.  [parse_tsv_file_fs] takes the path. *)
Definition parse_tsv_file (file : option string) : list Row :=
  match file with
  | None => []
  | Some content =>
      match split newline (strip content) with
      | [] => []
      | header :: lines =>
          let headers := split tab header in
          map (fun line => make_row headers (split tab line) []) lines
      end
  end.

(** ** 4.2 Token indexer *)

Module Token.
Record t := mk {
  idx : Z;
  text : string;
  lemma : string;
  pos : string;
  ner : string;
  start_char : Z;
  end_char : Z;
  sentence_idx : Z;
  paragraph_idx : Z
}.
End Token.

(** [len(l)] as a Python [int]. *)
Definition len {A} (l : list A) : Z := Z.of_nat (length l).

(** The body of the [try] in [build_token_index], for the row met when
    [n] tokens have been appended. *)
Definition token_of_row (n : Z) (row : Row) : option Token.t :=
  byte_start <- py_int (get row "byte_onset" "0") ;;
  byte_end <- py_int (get row "byte_offset" "0") ;;
  sentence <- py_int (get row "sentence_id" "0") ;;
  paragraph <- py_int (get row "paragraph_id" "0") ;;
  Some {| Token.idx := n;
          Token.text := get row "word" "";
          Token.lemma := get row "lemma" (get row "word" "");
          Token.pos := get row "POS_tag" (get row "pos" "");
          Token.ner := get row "NER_tag" (get row "ner" "O");
          Token.start_char := byte_start;
          Token.end_char := byte_end;
          Token.sentence_idx := sentence;
          Token.paragraph_idx := paragraph |}.

(** One turn of the loop over the rows. *)
Definition token_step (tokens : list Token.t) (row : Row) : list Token.t :=
  match token_of_row (len tokens) row with
  | Some tok => tokens ++ [tok]
  | None => tokens
  end.

Definition build_token_index (tokens_file : option string) (text : string)
  : list Token.t :=
  fold_left token_step (parse_tsv_file tokens_file) [].

(** ** 4.3 Entity resolver *)


Module Mention.
Record t := mk {
  id : string;
  character_id : option string;
  text : string;
  start_token : Z;
  end_token : Z;
  start_char : Z;
  end_char : Z;
  sentence_idx : Z;
  mention_type : string;
  entity_type : string
}.
End Mention.

(** The entries of [cluster_mentions]: [{"text", "type", "canonical"}]. *)
Module ClusterEntry.
Record t := mk {
  text : string;
  type : string;
  canonical : string
}.
End ClusterEntry.

Module CharacterAlias.
Record t := mk {
  text : string;
  count : Z
}.
End CharacterAlias.

Module Character.
Record t := mk {
  id : string;
  canonical_name : string;
  aliases : list CharacterAlias.t;
  mention_count : Z;
  gender : option string;
  agent_score : float
}.
End Character.

(** [l[i]] on a list, with Python's negative indices; [None] is
    [IndexError]. *)
Definition index {A} (l : list A) (i : Z) : option A :=
  if i <? 0 then
    if 0 <=? len l + i then nth_error l (Z.to_nat (len l + i)) else None
  else nth_error l (Z.to_nat i).

(** [tokens[tok][field] if tok < len(tokens) else 0] *)
Definition token_field (field : Token.t -> Z) (tokens : list Token.t)
    (tok : Z) : option Z :=
  if tok <? len tokens then option_map field (index tokens tok)
  else Some 0.

(** [enumerate(l)] *)
Fixpoint enumerate_from {A} (i : Z) (l : list A) : list (Z * A) :=
  match l with
  | [] => []
  | x :: l' => (i, x) :: enumerate_from (i + 1) l'
  end.

Definition enumerate {A} (l : list A) : list (Z * A) := enumerate_from 0 l.

(** The three accumulators of the loop over the entity rows. *)
Record EntityState := mkEntityState {
  cluster_mentions : dict Z (list ClusterEntry.t);
  mentions_acc : list Mention.t;
  cluster_to_char_id : dict Z string
}.

(** [f"char_{coref_id}"] *)
Definition char_id_of (coref_id : Z) : string := "char_" ++ py_str coref_id.

(** The start of the [try] body, up to the two offset look-ups: it
    raises before anything is written. *)
Definition entity_fields (tokens : list Token.t) (row : Row)
  : option (Z * Z * Z * Z * Z) :=
  coref_id <- py_int (get row "COREF" "-1") ;;
  start_tok <- py_int (get row "start_token" "0") ;;
  end_tok <- py_int (get row "end_token" "0") ;;
  start_char <- token_field Token.start_char tokens start_tok ;;
  end_char <- token_field Token.end_char tokens end_tok ;;
  Some (coref_id, start_tok, end_tok, start_char, end_char).

(** One turn of the loop over [enumerate(rows)]: the state after the
    [try] body, or after the point where it raised. *)
Definition entity_step (tokens : list Token.t) (st : EntityState)
    (ir : Z * Row) : EntityState :=
  let (i, row) := ir in
  match entity_fields tokens row with
  | None => st
  | Some (coref_id, start_tok, end_tok, start_char, end_char) =>
      let mention_type := get row "mention_type" (get row "cat" "PROP") in
      let entity_type := get row "entity_type" (get row "ner" "PER") in
      let text := get row "text" "" in
      let char_id :=
        if 0 <=? coref_id then Some (char_id_of coref_id) else None in
      let c2c :=
        if 0 <=? coref_id
        then dict_set Z.eqb (cluster_to_char_id st) coref_id
               (char_id_of coref_id)
        else cluster_to_char_id st in
      match token_field Token.sentence_idx tokens start_tok with
      | None => mkEntityState (cluster_mentions st) (mentions_acc st) c2c
      | Some sentence =>
          let mention :=
            {| Mention.id := "mention_" ++ py_str i;
               Mention.character_id := char_id;
               Mention.text := text;
               Mention.start_token := start_tok;
               Mention.end_token := end_tok;
               Mention.start_char := start_char;
               Mention.end_char := end_char;
               Mention.sentence_idx := sentence;
               Mention.mention_type := mention_type;
               Mention.entity_type := entity_type |} in
          let cm :=
            if 0 <=? coref_id
            then dict_upd Z.eqb (cluster_mentions st) coref_id []
                   (fun data =>
                      data ++ [{| ClusterEntry.text := text;
                                  ClusterEntry.type := mention_type;
                                  ClusterEntry.canonical :=
                                    get row "name" text |}])
            else cluster_mentions st in
          mkEntityState cm (mentions_acc st ++ [mention]) c2c
      end
  end.

Definition scan_entities (tokens : list Token.t) (rows : list Row)
  : EntityState :=
  fold_left (entity_step tokens) (enumerate rows) (mkEntityState [] [] []).

(** The loop [for m in cluster_data]: the alias counts and the last
    truthy ["canonical"]. *)
Definition cluster_step (acc : dict string Z * string)
    (m : ClusterEntry.t) : dict string Z * string :=
  let (alias_counts, canonical_name) := acc in
  (dict_upd String.eqb alias_counts (ClusterEntry.text m) 0
     (fun n => n + 1),
   if truthy (ClusterEntry.canonical m) then ClusterEntry.canonical m
   else canonical_name).

Definition scan_cluster (cluster_data : list ClusterEntry.t)
  : dict string Z * string :=
  fold_left cluster_step cluster_data ([], "").

(** [max(items, key=lambda x: x[1])]: the first item among those of
    greatest count; [None] is the [ValueError] of an empty sequence. *)
Fixpoint max_from (best : string * Z) (items : list (string * Z))
  : string * Z :=
  match items with
  | [] => best
  | x :: items' => max_from (if snd best <? snd x then x else best) items'
  end.

Definition py_max (items : list (string * Z)) : option (string * Z) :=
  match items with
  | [] => None
  | x :: items' => Some (max_from x items')
  end.

(** [sorted(l, key=key)]: the stable sort, as an insertion sort that
    keeps equal keys in their order. *)
Fixpoint insert_by {A} (key : A -> Z) (x : A) (l : list A) : list A :=
  match l with
  | [] => [x]
  | y :: l' => if key x <=? key y then x :: l else y :: insert_by key x l'
  end.

Definition sorted {A} (key : A -> Z) (l : list A) : list A :=
  fold_right (insert_by key) [] l.

Definition aliases_of (alias_counts : dict string Z)
    (canonical_name : string) : list CharacterAlias.t :=
  map (fun tc => CharacterAlias.mk (fst tc) (snd tc))
    (filter (fun tc => negb (String.eqb (fst tc) canonical_name))
       (sorted (fun x => - snd x) alias_counts)).

(** The body of the loop over [cluster_mentions.items()]; [None] is the
    [ValueError] of [max]. *)
Definition character_of_cluster (item : Z * list ClusterEntry.t)
  : option Character.t :=
  let (cluster_id, cluster_data) := item in
  let (alias_counts, name) := scan_cluster cluster_data in
  canonical_name <-
    (if truthy name then Some name
     else option_map fst (py_max alias_counts)) ;;
  Some {| Character.id := char_id_of cluster_id;
          Character.canonical_name := canonical_name;
          Character.aliases := aliases_of alias_counts canonical_name;
          Character.mention_count := len cluster_data;
          Character.gender := None;
          Character.agent_score := 0%float |}.

(** [for x in l: out.append(f(x))] where [f] may raise. *)
Fixpoint traverse {A B} (f : A -> option B) (l : list A) : option (list B) :=
  match l with
  | [] => Some []
  | x :: l' => y <- f x ;; ys <- traverse f l' ;; Some (y :: ys)
  end.

(** [None] is an exception that leaves the function. *)
Definition build_characters_and_mentions (entities_file : option string)
    (tokens : list Token.t)
  : option (list Character.t * list Mention.t * dict Z string) :=
  let st := scan_entities tokens (parse_tsv_file entities_file) in
  characters <- traverse character_of_cluster (cluster_mentions st) ;;
  Some (characters, mentions_acc st, cluster_to_char_id st).

(** ** 4.4 Chain builder *)

Module CorefChain.
Record t := mk {
  chain_id : string;
  character_id : option string;
  mentions : list string
}.
End CorefChain.

(** [if mention["character_id"]: chains_by_char[...].append(mention["id"])] *)
Definition chain_step (chains_by_char : dict string (list string))
    (mention : Mention.t) : dict string (list string) :=
  match Mention.character_id mention with
  | Some c =>
      if truthy c
      then dict_upd String.eqb chains_by_char c []
             (fun ids => ids ++ [Mention.id mention])
      else chains_by_char
  | None => chains_by_char
  end.

Definition chain_of_item (item : string * list string) : CorefChain.t :=
  {| CorefChain.chain_id := "chain_" ++ fst item;
     CorefChain.character_id := Some (fst item);
     CorefChain.mentions := snd item |}.

Definition build_coref_chains (mentions : list Mention.t)
    (cluster_to_char_id : dict Z string) : list CorefChain.t :=
  map chain_of_item (fold_left chain_step mentions []).

(** ** 4.5 Quote resolver *)

Module Quote.
Record t := mk {
  id : string;
  text : string;
  start_token : Z;
  end_token : Z;
  start_char : Z;
  end_char : Z;
  speaker_id : option string;
  speaker_name : option string;
  addressee_id : option string;
  quote_type : string
}.
End Quote.

(** [{c["id"]: c["canonical_name"] for c in characters}] *)
Definition char_id_to_name (characters : list Character.t)
  : dict string string :=
  fold_left
    (fun d c =>
       dict_set String.eqb d (Character.id c) (Character.canonical_name c))
    characters [].

(** The speaker block: [(speaker_id, speaker_name)].  The inner
    [except ValueError: pass] leaves both at [None]. *)
Definition resolve_speaker (cluster_to_char_id : dict Z string)
    (names : dict string string) (speaker_cluster : string)
  : option string * option string :=
  if truthy speaker_cluster && negb (speaker_cluster =? "_")%string
     && negb (speaker_cluster =? "-1")%string
  then
    match py_int speaker_cluster with
    | None => (None, None)
    | Some cluster_int =>
        let speaker_id := dict_get Z.eqb cluster_to_char_id cluster_int in
        match speaker_id with
        | Some sid =>
            if truthy sid
            then (speaker_id, dict_get String.eqb names sid)
            else (speaker_id, None)
        | None => (None, None)
        end
    end
  else (None, None).

(** A bound of a slice [l[lo:hi]]. *)
Definition slice_bound (n i : Z) : Z :=
  if i <? 0 then Z.max 0 (n + i) else Z.min i n.

(** [l[lo:hi]] *)
Definition slice {A} (l : list A) (lo hi : Z) : list A :=
  let a := slice_bound (len l) lo in
  let b := slice_bound (len l) hi in
  firstn (Z.to_nat (b - a)) (skipn (Z.to_nat a) l).

(** The start of the [try] body of [build_quotes]: all that can raise. *)
Definition quote_fields (tokens : list Token.t) (row : Row)
  : option (Z * Z * Z * Z) :=
  start_tok <- py_int (get row "quote_start" (get row "start" "0")) ;;
  end_tok <- py_int (get row "quote_end" (get row "end" "0")) ;;
  start_char <- token_field Token.start_char tokens start_tok ;;
  end_char <- token_field Token.end_char tokens end_tok ;;
  Some (start_tok, end_tok, start_char, end_char).

(** [row.get("char_id", row.get("speaker", ""))] *)
Definition speaker_field (row : Row) : string :=
  get row "char_id" (get row "speaker" "").

Definition quote_of_row (tokens : list Token.t)
    (cluster_to_char_id : dict Z string) (names : dict string string)
    (ir : Z * Row) : option Quote.t :=
  let (i, row) := ir in
  match quote_fields tokens row with
  | None => None
  | Some (start_tok, end_tok, start_char, end_char) =>
      let speaker :=
        resolve_speaker cluster_to_char_id names (speaker_field row) in
      let quote_text := get row "quote" "" in
      let quote_text :=
        if negb (truthy quote_text) && (start_tok <? len tokens)
           && (end_tok <? len tokens)
        then String.concat " "
               (map Token.text (slice tokens start_tok (end_tok + 1)))
        else quote_text in
      Some {| Quote.id := "quote_" ++ py_str i;
              Quote.text := quote_text;
              Quote.start_token := start_tok;
              Quote.end_token := end_tok;
              Quote.start_char := start_char;
              Quote.end_char := end_char;
              Quote.speaker_id := fst speaker;
              Quote.speaker_name := snd speaker;
              Quote.addressee_id := None;
              Quote.quote_type := get row "type" "explicit" |}
  end.

Definition quote_step (tokens : list Token.t)
    (cluster_to_char_id : dict Z string) (names : dict string string)
    (quotes : list Quote.t) (ir : Z * Row) : list Quote.t :=
  match quote_of_row tokens cluster_to_char_id names ir with
  | Some q => quotes ++ [q]
  | None => quotes
  end.

Definition build_quotes (quotes_file : option string)
    (tokens : list Token.t) (cluster_to_char_id : dict Z string)
    (characters : list Character.t) : list Quote.t :=
  fold_left
    (quote_step tokens cluster_to_char_id (char_id_to_name characters))
    (enumerate (parse_tsv_file quotes_file)) [].

(** ** 4.6 Contract assembler *)

Definition SCHEMA_VERSION : string := "1.0".

Module Metadata.
Record t := mk {
  booknlp_version : string;
  text_length : Z;
  text_hash : string;
  processing_time_seconds : float;
  token_count : Z;
  sentence_count : Z;
  character_count : Z;
  mention_count : Z;
  quote_count : Z
}.
End Metadata.

Module BookNLPContract.
Record t := mk {
  schema_version : string;
  document_id : string;
  metadata : Metadata.t;
  characters : list Character.t;
  mentions : list Mention.t;
  coref_chains : list CorefChain.t;
  quotes : list Quote.t;
  tokens : list Token.t
}.
End BookNLPContract.

(** The output directory: the names of its files, in the order the
    file system lists them, with their text. *)
Definition Dir := dict string string.

(** [path.exists()] and [path.read_text()] for [output_dir / name]. *)
Definition read_file (output_dir : Dir) (name : string) : option string :=
  dict_get String.eqb output_dir name.

Definition ends_with (suffix s : string) : bool :=
  let n := String.length s in
  let m := String.length suffix in
  (m <=? n)%nat && (substring (n - m) m s =? suffix)%string.

(** [output_dir.glob("*.tokens")] *)
Definition glob_tokens (output_dir : Dir) : list string :=
  filter (ends_with ".tokens") (map fst output_dir).

(** [name.rfind(c)], scanning from position [i]. *)
Fixpoint rfind_from (c : ascii) (s : string) (i : nat) (last : option nat)
  : option nat :=
  match s with
  | "" => last
  | String a s' =>
      rfind_from c s' (S i) (if Ascii.eqb a c then Some i else last)
  end.

(** [Path(name).stem]: the name without its last suffix. *)
Definition stem (name : string) : string :=
  match rfind_from "." name 0 None with
  | Some i =>
      if ((0 <? i) && (i <? String.length name - 1))%nat
      then substring 0 i name
      else name
  | None => name
  end.

(** [max((t["sentence_idx"] for t in tokens), default=0) + 1 if tokens
    else 0] *)
Definition sentence_count_of (tokens : list Token.t) : Z :=
  match tokens with
  | [] => 0
  | t :: ts =>
      fold_left Z.max (map Token.sentence_idx ts) (Token.sentence_idx t) + 1
  end.

Section Assembler.
(** [hashlib.sha256(s.encode("utf-8")).hexdigest()] *)
Variable sha256_hexdigest : string -> string.
(** [round(x, 3)] *)
Variable round3 : float -> float.

(** [None] is an exception that leaves [build_contract]. *)
Definition build_contract (output_dir : Dir)
    (document_id original_text : string) (duration_seconds : float)
    (booknlp_version : string) : option BookNLPContract.t :=
  match glob_tokens output_dir with
  | [] => None
  | first :: _ =>
      let prefix := stem first in
      let tokens_file := read_file output_dir (prefix ++ ".tokens") in
      let entities_file := read_file output_dir (prefix ++ ".entities") in
      let quotes_file := read_file output_dir (prefix ++ ".quotes") in
      let tokens := build_token_index tokens_file original_text in
      cmc <- build_characters_and_mentions entities_file tokens ;;
      let '(characters, mentions, cluster_to_char_id) := cmc in
      let coref_chains := build_coref_chains mentions cluster_to_char_id in
      let quotes :=
        build_quotes quotes_file tokens cluster_to_char_id characters in
      let text_hash := substring 0 16 (sha256_hexdigest original_text) in
      Some {|
        BookNLPContract.schema_version := SCHEMA_VERSION;
        BookNLPContract.document_id := document_id;
        BookNLPContract.metadata := {|
          Metadata.booknlp_version := booknlp_version;
          Metadata.text_length := Z.of_nat (String.length original_text);
          Metadata.text_hash := text_hash;
          Metadata.processing_time_seconds := round3 duration_seconds;
          Metadata.token_count := len tokens;
          Metadata.sentence_count := sentence_count_of tokens;
          Metadata.character_count := len characters;
          Metadata.mention_count := len mentions;
          Metadata.quote_count := len quotes |};
        BookNLPContract.characters := characters;
        BookNLPContract.mentions := mentions;
        BookNLPContract.coref_chains := coref_chains;
        BookNLPContract.quotes := quotes;
        BookNLPContract.tokens := tokens |}
  end.
End Assembler.

(** * Properties *)

(** ** Decimal representation *)

Lemma to_int_not_nil (n : Z) :
  Z.to_int n <> Decimal.Pos Decimal.Nil /\
  Z.to_int n <> Decimal.Neg Decimal.Nil.
Proof.
  destruct n as [|p|p]; simpl; split; try discriminate;
    intros [= H]; now apply (DecimalPos.Unsigned.to_uint_nonnil p).
Qed.

Lemma py_str_inj (a b : Z) : py_str a = py_str b -> a = b.
Proof.
  unfold py_str. intros H.
  apply DecimalZ.to_int_inj.
  destruct (to_int_not_nil a) as [Ha1 Ha2].
  destruct (to_int_not_nil b) as [Hb1 Hb2].
  pose proof (NilZero.isi _ Ha1 Ha2) as Ia.
  pose proof (NilZero.isi _ Hb1 Hb2) as Ib.
  rewrite H in Ia. congruence.
Qed.

Lemma append_inj_l (p a b : string) : (p ++ a = p ++ b -> a = b)%string.
Proof.
  induction p as [|c p IH]; simpl; [easy|].
  intros [= H]. now apply IH.
Qed.

Lemma char_id_of_inj (a b : Z) : char_id_of a = char_id_of b -> a = b.
Proof.
  unfold char_id_of. intros H. apply py_str_inj.
  now apply append_inj_l in H.
Qed.

Lemma char_id_of_truthy (k : Z) : truthy (char_id_of k) = true.
Proof. reflexivity. Qed.

(** ** Loops *)

(** An invariant of a [for] loop: it holds of the items met so far and
    of the accumulator. *)
Lemma fold_left_inv {A S} (step : S -> A -> S) (P : list A -> S -> Prop)
    (l : list A) (s0 : S) :
  P [] s0 ->
  (forall pre x s, P pre s -> P (pre ++ [x]) (step s x)) ->
  P l (fold_left step l s0).
Proof.
  intros H0 Hstep.
  induction l as [|x l IH] using rev_ind; simpl; [exact H0|].
  rewrite fold_left_app. simpl. now apply Hstep.
Qed.

Lemma len_app {A} (l l' : list A) : len (l ++ l') = len l + len l'.
Proof. unfold len. rewrite length_app. lia. Qed.

Lemma len_nonneg {A} (l : list A) : 0 <= len l.
Proof. unfold len. lia. Qed.

(** ** Dictionaries *)

Section DictFacts.
Context {K V : Type}.
Variable eqb : K -> K -> bool.
Hypothesis eqb_eq : forall a b, eqb a b = true <-> a = b.

Definition keys (d : dict K V) : list K := map fst d.

Lemma eqb_refl' (a : K) : eqb a a = true.
Proof. now apply eqb_eq. Qed.

Lemma eqb_neq (a b : K) : eqb a b = false <-> a <> b.
Proof.
  split.
  - intros H E. apply eqb_eq in E. congruence.
  - intros H. destruct (eqb a b) eqn:E; [|reflexivity].
    apply eqb_eq in E. contradiction.
Qed.

Lemma dict_get_upd (d : dict K V) (k k' : K) (dflt : V) (f : V -> V) :
  dict_get eqb (dict_upd eqb d k dflt f) k' =
  if eqb k' k then Some (f (dict_get_or eqb d k dflt))
  else dict_get eqb d k'.
Proof.
  unfold dict_get_or.
  induction d as [|[k0 v0] d IH]; simpl.
  - destruct (eqb k' k); reflexivity.
  - destruct (eqb k k0) eqn:E0; simpl.
    + apply eqb_eq in E0. subst k0.
      destruct (eqb k' k); reflexivity.
    + destruct (eqb k' k0) eqn:E1.
      * apply eqb_eq in E1. subst k0.
        destruct (eqb k' k) eqn:E2; [|reflexivity].
        apply eqb_eq in E2. subst k'. rewrite eqb_refl' in E0.
        discriminate.
      * exact IH.
Qed.

Lemma dict_get_In (d : dict K V) (k : K) (v : V) :
  dict_get eqb d k = Some v -> In (k, v) d.
Proof.
  induction d as [|[k0 v0] d IH]; simpl; [discriminate|].
  destruct (eqb k k0) eqn:E.
  - apply eqb_eq in E. subst. intros [= ->]. now left.
  - intros H. right. now apply IH.
Qed.

Lemma dict_get_None (d : dict K V) (k : K) :
  dict_get eqb d k = None <-> ~ In k (keys d).
Proof.
  induction d as [|[k0 v0] d IH]; simpl; [tauto|].
  destruct (eqb k k0) eqn:E.
  - apply eqb_eq in E. subst. split; [discriminate|]. intros H.
    exfalso. apply H. now left.
  - apply eqb_neq in E. rewrite IH. split.
    + intros H [H1|H1]; [congruence|contradiction].
    + intros H H1. apply H. now right.
Qed.

Lemma In_dict_get (d : dict K V) (k : K) (v : V) :
  NoDup (keys d) -> In (k, v) d -> dict_get eqb d k = Some v.
Proof.
  induction d as [|[k0 v0] d IH]; simpl; [easy|].
  intros Hnd [H|H].
  - injection H as -> ->. now rewrite eqb_refl'.
  - inversion Hnd as [|? ? Hnotin Hnd']; subst.
    destruct (eqb k k0) eqn:E.
    + apply eqb_eq in E. subst k0. exfalso. apply Hnotin.
      change k with (fst (k, v)). now apply in_map.
    + now apply IH.
Qed.

Lemma keys_upd (d : dict K V) (k : K) (dflt : V) (f : V -> V) :
  keys (dict_upd eqb d k dflt f) =
  match dict_get eqb d k with
  | Some _ => keys d
  | None => keys d ++ [k]
  end.
Proof.
  induction d as [|[k0 v0] d IH]; simpl; [reflexivity|].
  destruct (eqb k k0) eqn:E; simpl; [reflexivity|].
  rewrite IH. now destruct (dict_get eqb d k).
Qed.

Lemma NoDup_keys_upd (d : dict K V) (k : K) (dflt : V) (f : V -> V) :
  NoDup (keys d) -> NoDup (keys (dict_upd eqb d k dflt f)).
Proof.
  intros Hnd. rewrite keys_upd.
  destruct (dict_get eqb d k) eqn:E; [exact Hnd|].
  apply dict_get_None in E.
  apply NoDup_rev in Hnd.
  rewrite <- (rev_involutive (keys d ++ [k])). apply NoDup_rev.
  rewrite rev_app_distr. simpl. constructor; [|exact Hnd].
  now rewrite <- in_rev.
Qed.

Lemma In_keys_upd (d : dict K V) (k k' : K) (dflt : V) (f : V -> V) :
  In k' (keys (dict_upd eqb d k dflt f)) <-> k' = k \/ In k' (keys d).
Proof.
  rewrite keys_upd. destruct (dict_get eqb d k) eqn:E.
  - split; [tauto|]. intros [->|H]; [|exact H].
    apply dict_get_In in E. change k with (fst (k, v)).
    now apply in_map.
  - rewrite in_app_iff. simpl. intuition congruence.
Qed.

Lemma dict_upd_not_nil (d : dict K V) (k : K) (dflt : V) (f : V -> V) :
  dict_upd eqb d k dflt f <> [].
Proof.
  destruct d as [|[k0 v0] d]; simpl; [discriminate|].
  destruct (eqb k k0); discriminate.
Qed.
End DictFacts.

Lemma Zeqb_eq (a b : Z) : Z.eqb a b = true <-> a = b.
Proof. apply Z.eqb_eq. Qed.

Lemma Seqb_eq (a b : string) : String.eqb a b = true <-> a = b.
Proof. apply String.eqb_eq. Qed.

(** ** Grouping into a dictionary of lists *)

Section GroupBy.
Context {X W : Type}.
Variable key : X -> option string.
Variable val : X -> W.

Definition group_step (d : dict string (list W)) (x : X)
  : dict string (list W) :=
  match key x with
  | Some k => dict_upd String.eqb d k [] (fun vs => vs ++ [val x])
  | None => d
  end.

Definition has_key (k : string) (x : X) : bool :=
  match key x with Some k' => String.eqb k' k | None => false end.

(** What the group of [k] holds once the items [l] have been met. *)
Definition members (k : string) (l : list X) : list W :=
  map val (filter (has_key k) l).

Definition group_of (k : string) (l : list X) : option (list W) :=
  match members k l with [] => None | vs => Some vs end.

Lemma members_snoc (k : string) (l : list X) (x : X) :
  members k (l ++ [x]) =
  members k l ++ (if has_key k x then [val x] else []).
Proof.
  unfold members. rewrite filter_app, map_app. simpl.
  now destruct (has_key k x).
Qed.

Lemma group_spec (l : list X) :
  NoDup (keys (fold_left group_step l [])) /\
  forall k, dict_get String.eqb (fold_left group_step l []) k
            = group_of k l.
Proof.
  apply (fold_left_inv group_step
           (fun pre d => NoDup (keys d) /\
              forall k, dict_get String.eqb d k = group_of k pre)).
  - split; [constructor|reflexivity].
  - intros pre x d [Hnd Hget]. unfold group_step.
    destruct (key x) as [kx|] eqn:Ekx.
    + split; [now apply NoDup_keys_upd; [apply Seqb_eq|]|].
      intros k. rewrite (dict_get_upd _ Seqb_eq).
      unfold group_of. rewrite members_snoc.
      unfold has_key. rewrite Ekx.
      destruct (String.eqb k kx) eqn:E.
      * apply String.eqb_eq in E. subst kx.
        rewrite String.eqb_refl.
        unfold dict_get_or. rewrite Hget. unfold group_of.
        destruct (members k pre); reflexivity.
      * rewrite String.eqb_sym, E, app_nil_r. apply Hget.
    + split; [exact Hnd|]. intros k.
      unfold group_of. rewrite members_snoc. unfold has_key.
      rewrite Ekx, app_nil_r. apply Hget.
Qed.

Lemma members_not_nil (k : string) (l : list X) :
  members k l <> [] <-> exists x, In x l /\ key x = Some k.
Proof.
  unfold members. split.
  - intros H. destruct (filter (has_key k) l) as [|x f] eqn:E;
      [now destruct H|].
    assert (Hin : In x (filter (has_key k) l)) by (rewrite E; now left).
    apply filter_In in Hin. destruct Hin as [Hin Hk].
    exists x. split; [exact Hin|]. unfold has_key in Hk.
    destruct (key x); [|discriminate].
    apply String.eqb_eq in Hk. now subst.
  - intros (x & Hin & Hk) H.
    apply map_eq_nil in H.
    assert (Hx : In x (filter (has_key k) l)).
    { apply filter_In. split; [exact Hin|]. unfold has_key.
      rewrite Hk. apply String.eqb_refl. }
    rewrite H in Hx. contradiction.
Qed.

Lemma group_In (l : list X) (k : string) (vs : list W) :
  In (k, vs) (fold_left group_step l []) <->
  vs = members k l /\ exists x, In x l /\ key x = Some k.
Proof.
  destruct (group_spec l) as [Hnd Hget]. split.
  - intros H. apply (In_dict_get _ Seqb_eq _ _ _ Hnd) in H.
    rewrite Hget in H. unfold group_of in H.
    destruct (members k l) eqn:E; [discriminate|].
    injection H as <-. split; [reflexivity|].
    apply members_not_nil. rewrite E. discriminate.
  - intros [-> H]. apply members_not_nil in H.
    apply (dict_get_In String.eqb Seqb_eq). rewrite Hget.
    unfold group_of. now destruct (members k l).
Qed.
End GroupBy.

(** ** 4.4 Chain builder: properties *)

(** The key under which [build_coref_chains] files a mention: its
    [character_id] when that is truthy. *)
Definition chain_key (m : Mention.t) : option string :=
  match Mention.character_id m with
  | Some c => if truthy c then Some c else None
  | None => None
  end.

(** The mentions of the list that carry the character id [s]. *)
Definition has_character (s : string) (m : Mention.t) : bool :=
  match Mention.character_id m with
  | Some c => String.eqb c s
  | None => false
  end.

Lemma chain_step_group (d : dict string (list string)) (m : Mention.t) :
  chain_step d m = group_step chain_key Mention.id d m.
Proof.
  unfold chain_step, group_step, chain_key.
  destruct (Mention.character_id m) as [c|]; [|reflexivity].
  now destruct (truthy c).
Qed.

Lemma chains_by_char_group (mentions : list Mention.t) :
  fold_left chain_step mentions [] =
  fold_left (group_step chain_key Mention.id) mentions [].
Proof.
  generalize (@nil (string * list string)).
  induction mentions as [|m ms IH]; simpl; [reflexivity|].
  intros d. rewrite chain_step_group. apply IH.
Qed.

Lemma has_key_chain (s : string) (m : Mention.t) :
  truthy s = true ->
  has_key chain_key s m = has_character s m.
Proof.
  intros Hs. unfold has_key, chain_key, has_character.
  destruct (Mention.character_id m) as [c|]; [|reflexivity].
  destruct (truthy c) eqn:Ec; [reflexivity|].
  destruct c; [|discriminate]. destruct s; [discriminate|reflexivity].
Qed.

Lemma chain_key_Some (m : Mention.t) (s : string) :
  chain_key m = Some s <->
  Mention.character_id m = Some s /\ truthy s = true.
Proof.
  unfold chain_key. destruct (Mention.character_id m) as [c|].
  - destruct (truthy c) eqn:E; split.
    + intros [= ->]. now split.
    + now intros [H _].
    + discriminate.
    + intros [[= ->] H]. congruence.
  - split; [discriminate|]. now intros [H _].
Qed.

Lemma chain_members (s : string) (mentions : list Mention.t) :
  truthy s = true ->
  members chain_key Mention.id s mentions =
  map Mention.id (filter (has_character s) mentions).
Proof.
  intros Hs. unfold members. f_equal.
  apply filter_ext. intros m. now apply has_key_chain.
Qed.

(** The chains are exactly the groups of the mention list. *)
Lemma In_build_coref_chains (mentions : list Mention.t)
    (c2c : dict Z string) (ch : CorefChain.t) :
  In ch (build_coref_chains mentions c2c) <->
  exists s,
    truthy s = true /\
    (exists m, In m mentions /\ Mention.character_id m = Some s) /\
    ch = {| CorefChain.chain_id := "chain_" ++ s;
            CorefChain.character_id := Some s;
            CorefChain.mentions :=
              map Mention.id (filter (has_character s) mentions) |}.
Proof.
  unfold build_coref_chains. rewrite chains_by_char_group, in_map_iff.
  split.
  - intros ([s ids] & <- & Hin). apply group_In in Hin.
    destruct Hin as [-> (m & Hm & Hk)].
    apply chain_key_Some in Hk. destruct Hk as [Hc Hs].
    exists s. split; [exact Hs|]. split; [now exists m|].
    unfold chain_of_item. simpl. now rewrite chain_members.
  - intros (s & Hs & (m & Hm & Hc) & ->).
    exists (s, members chain_key Mention.id s mentions). split.
    + unfold chain_of_item. simpl. now rewrite chain_members.
    + apply group_In. split; [reflexivity|]. exists m.
      split; [exact Hm|]. now apply chain_key_Some.
Qed.

Lemma build_coref_chains_ids (mentions : list Mention.t)
    (c2c : dict Z string) :
  map CorefChain.character_id (build_coref_chains mentions c2c) =
  map Some (keys (fold_left chain_step mentions [])).
Proof.
  unfold build_coref_chains, keys. rewrite !map_map. reflexivity.
Qed.

Lemma NoDup_chain_ids (mentions : list Mention.t) (c2c : dict Z string) :
  NoDup (map CorefChain.character_id (build_coref_chains mentions c2c)).
Proof.
  rewrite build_coref_chains_ids, chains_by_char_group.
  apply Injective_map_NoDup; [now intros a b [= ->]|].
  apply group_spec.
Qed.

(** C3, as stated, fails on a mention whose [character_id] is the empty
    string: it is not null, yet [if mention["character_id"]] is false for
    it and no chain is emitted. *)
Lemma build_coref_chains_empty_id_no_chain :
  let m := {| Mention.id := "mention_0";
              Mention.character_id := Some "";
              Mention.text := "Tom";
              Mention.start_token := 0;
              Mention.end_token := 0;
              Mention.start_char := 0;
              Mention.end_char := 3;
              Mention.sentence_idx := 0;
              Mention.mention_type := "PROP";
              Mention.entity_type := "PER" |} in
  Mention.character_id m <> None /\
  ~ exists ch, In ch (build_coref_chains [m] []) /\
               CorefChain.character_id ch = Mention.character_id m.
Proof.
  simpl. split; [discriminate|]. intros (ch & [] & _).
Qed.

(** C3 (amended): for every Mention list, [build_coref_chains] emits
    exactly one chain per distinct character id that is neither null nor
    the empty string, and none for the others; the chain of [s] lists, in
    the order of the Mention list, exactly the ids of the mentions whose
    [character_id] is [s]; its [chain_id] is ["chain_" ++ s]. *)
Theorem build_coref_chains_correct (mentions : list Mention.t)
    (c2c : dict Z string) :
  let chains := build_coref_chains mentions c2c in
  NoDup (map CorefChain.character_id chains) /\
  ~ In None (map CorefChain.character_id chains) /\
  (forall s, In (Some s) (map CorefChain.character_id chains) <->
             truthy s = true /\
             exists m, In m mentions /\ Mention.character_id m = Some s) /\
  (forall ch, In ch chains ->
     exists s, CorefChain.character_id ch = Some s /\
               CorefChain.mentions ch =
                 map Mention.id (filter (has_character s) mentions) /\
               CorefChain.chain_id ch = ("chain_" ++ s)%string).
Proof.
  intros chains. subst chains.
  split; [apply NoDup_chain_ids|].
  split; [|split].
  - rewrite in_map_iff. intros (ch & Hnone & Hin).
    apply In_build_coref_chains in Hin.
    destruct Hin as (s & _ & _ & ->). discriminate.
  - intros s. rewrite in_map_iff. split.
    + intros (ch & Hid & Hin). apply In_build_coref_chains in Hin.
      destruct Hin as (s' & Hs & Hm & ->). simpl in Hid.
      injection Hid as ->. now split.
    + intros [Hs Hm]. eexists. split; [|apply In_build_coref_chains].
      2:{ exists s. split; [exact Hs|]. split; [exact Hm|reflexivity]. }
      reflexivity.
  - intros ch Hin. apply In_build_coref_chains in Hin.
    destruct Hin as (s & _ & _ & ->). exists s. simpl. auto.
Qed.

(** ** 4.2 Token indexer: properties *)

(** The rows that parse, in row order, as tokens yet to be numbered. *)
Definition parsed_tokens (rows : list Row) : list Token.t :=
  flat_map
    (fun row => match token_of_row 0 row with Some t => [t] | None => [] end)
    rows.

Definition with_idx (i : Z) (t : Token.t) : Token.t :=
  {| Token.idx := i;
     Token.text := Token.text t;
     Token.lemma := Token.lemma t;
     Token.pos := Token.pos t;
     Token.ner := Token.ner t;
     Token.start_char := Token.start_char t;
     Token.end_char := Token.end_char t;
     Token.sentence_idx := Token.sentence_idx t;
     Token.paragraph_idx := Token.paragraph_idx t |}.

(** Each item takes its position as its index. *)
Definition number (l : list Token.t) : list Token.t :=
  map (fun it => with_idx (fst it) (snd it)) (enumerate l).

Lemma token_of_row_idx (n : Z) (row : Row) :
  token_of_row n row = option_map (with_idx n) (token_of_row 0 row).
Proof.
  unfold token_of_row.
  destruct (py_int (get row "byte_onset" "0")); [|reflexivity].
  destruct (py_int (get row "byte_offset" "0")); [|reflexivity].
  destruct (py_int (get row "sentence_id" "0")); [|reflexivity].
  destruct (py_int (get row "paragraph_id" "0")); reflexivity.
Qed.

(** A row is dropped exactly when one of its numeric fields raises. *)
Lemma token_of_row_None (n : Z) (row : Row) :
  token_of_row n row = None <->
  py_int (get row "byte_onset" "0") = None \/
  py_int (get row "byte_offset" "0") = None \/
  py_int (get row "sentence_id" "0") = None \/
  py_int (get row "paragraph_id" "0") = None.
Proof.
  unfold token_of_row.
  destruct (py_int (get row "byte_onset" "0")); [|tauto].
  destruct (py_int (get row "byte_offset" "0")); [|tauto].
  destruct (py_int (get row "sentence_id" "0")); [|tauto].
  destruct (py_int (get row "paragraph_id" "0")); [|tauto].
  split; [discriminate|]. now intros [H|[H|[H|H]]].
Qed.

Lemma enumerate_from_snoc {A} (l : list A) (x : A) (i : Z) :
  enumerate_from i (l ++ [x]) = enumerate_from i l ++ [(i + len l, x)].
Proof.
  revert i. induction l as [|y l IH]; intros i; simpl.
  - unfold len. simpl. now rewrite Z.add_0_r.
  - rewrite IH. replace (i + 1 + len l) with (i + len (y :: l));
      [reflexivity|]. unfold len. simpl length. lia.
Qed.

Lemma enumerate_from_length {A} (l : list A) (i : Z) :
  length (enumerate_from i l) = length l.
Proof.
  revert i. induction l as [|y l IH]; intros i; simpl; [|rewrite IH];
    reflexivity.
Qed.

Lemma enumerate_from_nth {A} (l : list A) (i : Z) (n : nat) (p : Z * A) :
  nth_error (enumerate_from i l) n = Some p ->
  fst p = i + Z.of_nat n /\ nth_error l n = Some (snd p).
Proof.
  revert i n. induction l as [|y l IH]; intros i [|n]; simpl;
    try discriminate.
  - intros [= <-]. simpl. split; [lia|reflexivity].
  - intros H. apply IH in H. destruct H as [H1 H2]. split; [lia|exact H2].
Qed.

Lemma number_length (l : list Token.t) : length (number l) = length l.
Proof. unfold number, enumerate. now rewrite length_map, enumerate_from_length. Qed.

Lemma number_snoc (l : list Token.t) (t : Token.t) :
  number (l ++ [t]) = number l ++ [with_idx (len l) t].
Proof.
  unfold number, enumerate. rewrite enumerate_from_snoc, map_app.
  reflexivity.
Qed.

Lemma number_nth (l : list Token.t) (n : nat) (t : Token.t) :
  nth_error (number l) n = Some t -> Token.idx t = Z.of_nat n.
Proof.
  unfold number, enumerate. rewrite nth_error_map.
  destruct (nth_error (enumerate_from 0 l) n) as [p|] eqn:E;
    [|discriminate].
  intros [= <-]. apply enumerate_from_nth in E. simpl. lia.
Qed.

Lemma fold_token_step (rows : list Row) :
  fold_left token_step rows [] = number (parsed_tokens rows).
Proof.
  apply (fold_left_inv token_step
           (fun pre tokens => tokens = number (parsed_tokens pre))).
  - reflexivity.
  - intros pre row tokens ->. unfold token_step, parsed_tokens.
    rewrite flat_map_app. simpl. rewrite token_of_row_idx.
    destruct (token_of_row 0 row) as [t|]; simpl.
    + rewrite number_snoc. unfold len. now rewrite number_length.
    + now rewrite !app_nil_r.
Qed.

Lemma In_number (l : list Token.t) (t : Token.t) :
  In t (number l) -> exists i t0, In t0 l /\ t = with_idx i t0.
Proof.
  unfold number. rewrite in_map_iff. intros ([i t0] & <- & Hin).
  exists i, t0. split; [|reflexivity].
  apply In_nth_error in Hin. destruct Hin as [n Hn].
  apply enumerate_from_nth in Hn. destruct Hn as [_ Hn].
  now apply nth_error_In in Hn.
Qed.

(** Every token carries the offsets parsed from some row of the table. *)
Lemma token_offsets_from_row (tokens_file : option string) (text : string)
    (t : Token.t) :
  In t (build_token_index tokens_file text) ->
  exists row, In row (parse_tsv_file tokens_file) /\
    py_int (get row "byte_onset" "0") = Some (Token.start_char t) /\
    py_int (get row "byte_offset" "0") = Some (Token.end_char t).
Proof.
  unfold build_token_index. rewrite fold_token_step. intros H.
  apply In_number in H. destruct H as (i & t0 & H0 & ->).
  unfold parsed_tokens in H0. apply in_flat_map in H0.
  destruct H0 as (row & Hrow & Ht0). exists row. split; [exact Hrow|].
  unfold token_of_row in Ht0.
  destruct (py_int (get row "byte_onset" "0")); [|contradiction].
  destruct (py_int (get row "byte_offset" "0")); [|contradiction].
  destruct (py_int (get row "sentence_id" "0")); [|contradiction].
  destruct (py_int (get row "paragraph_id" "0")); [|contradiction].
  destruct Ht0 as [<-|[]]. simpl. auto.
Qed.

(** C9: the tokens are the rows that parse, in row order, a row being
    dropped when one of its numeric fields does not parse; the [idx] of
    each token is its position in the resulting sequence, so the indices
    are strictly increasing, without duplicates, and owe nothing to the
    fields of the row. *)
Theorem build_token_index_positional (tokens_file : option string)
    (text : string) :
  let tokens := build_token_index tokens_file text in
  tokens = number (parsed_tokens (parse_tsv_file tokens_file)) /\
  (forall row,
     token_of_row 0 row = None <->
     py_int (get row "byte_onset" "0") = None \/
     py_int (get row "byte_offset" "0") = None \/
     py_int (get row "sentence_id" "0") = None \/
     py_int (get row "paragraph_id" "0") = None) /\
  (forall i t, nth_error tokens i = Some t -> Token.idx t = Z.of_nat i) /\
  (forall i j ti tj,
     (i < j)%nat ->
     nth_error tokens i = Some ti -> nth_error tokens j = Some tj ->
     Token.idx ti < Token.idx tj) /\
  NoDup (map Token.idx tokens).
Proof.
  intros tokens.
  assert (E : tokens = number (parsed_tokens (parse_tsv_file tokens_file)))
    by apply fold_token_step.
  assert (Hnth : forall i t, nth_error tokens i = Some t ->
                             Token.idx t = Z.of_nat i).
  { rewrite E. apply number_nth. }
  split; [exact E|]. split; [intros row; apply token_of_row_None|].
  split; [exact Hnth|]. split.
  - intros i j ti tj Hij Hi Hj.
    rewrite (Hnth _ _ Hi), (Hnth _ _ Hj). lia.
  - apply NoDup_nth_error. intros i j Hi Heq.
    rewrite length_map in Hi. rewrite !nth_error_map in Heq.
    destruct (nth_error tokens i) as [ti|] eqn:Ei.
    2:{ apply nth_error_None in Ei. lia. }
    destruct (nth_error tokens j) as [tj|] eqn:Ej; [|discriminate].
    simpl in Heq. injection Heq as Heq.
    rewrite (Hnth _ _ Ei), (Hnth _ _ Ej) in Heq. lia.
Qed.

(** Tab-separated text, for writing tables down. *)
Definition tsv (table : list (list string)) : string :=
  String.concat (String newline "")
    (map (String.concat (String tab "")) table).

(** A token table whose second row ends before it starts. *)
Definition tokens_reversed_offsets : string :=
  tsv [ ["word"; "byte_onset"; "byte_offset"];
        ["Tom"; "0"; "3"];
        ["ran"; "7"; "4"] ].

(** C5, as stated, fails: the indexer copies the offsets it parses and
    checks neither their sign nor their order. *)
Lemma build_token_index_end_before_start :
  exists t,
    In t (build_token_index (Some tokens_reversed_offsets) "Tom ran") /\
    ~ (0 <= Token.start_char t /\ 0 <= Token.end_char t /\
       Token.start_char t <= Token.end_char t).
Proof.
  eexists. split.
  - vm_compute. right. left. reflexivity.
  - simpl. lia.
Qed.

(** The rows of the table that the indexer keeps. *)
Definition kept_token_rows (rows : list Row) : list Row :=
  filter
    (fun row => match token_of_row 0 row with Some _ => true | None => false end)
    rows.

Lemma parsed_tokens_nth (rows : list Row) (j : nat) (t0 : Token.t) :
  nth_error (parsed_tokens rows) j = Some t0 ->
  exists row,
    nth_error (kept_token_rows rows) j = Some row /\
    token_of_row 0 row = Some t0.
Proof.
  unfold parsed_tokens, kept_token_rows. revert j.
  induction rows as [|row rows IH]; intros j; simpl.
  - now destruct j.
  - destruct (token_of_row 0 row) as [t1|] eqn:E; simpl; [|apply IH].
    destruct j as [|j]; simpl.
    + intros [= <-]. now exists row.
    + apply IH.
Qed.

Lemma number_nth_inv (l : list Token.t) (j : nat) (t : Token.t) :
  nth_error (number l) j = Some t ->
  exists t0, nth_error l j = Some t0 /\ t = with_idx (Z.of_nat j) t0.
Proof.
  unfold number, enumerate. rewrite nth_error_map.
  destruct (nth_error (enumerate_from 0 l) j) as [[k t0]|] eqn:E;
    [|discriminate].
  intros [= <-]. apply enumerate_from_nth in E. simpl in E.
  destruct E as [-> E]. now exists t0.
Qed.

(** C5 (amended): the j-th token carries the offsets of the j-th row
    that the indexer keeps: [start_char] and [end_char] are the integers
    parsed from the [byte_onset] and [byte_offset] fields of that row, 0
    for a missing column, and nothing checks them; so they are
    non-negative with [end_char >= start_char] exactly when the parsed
    values of that row are. *)
Theorem token_offsets_ordered (tokens_file : option string) (text : string)
    (j : nat) (t : Token.t) :
  nth_error (build_token_index tokens_file text) j = Some t ->
  exists row,
    nth_error (kept_token_rows (parse_tsv_file tokens_file)) j = Some row /\
    py_int (get row "byte_onset" "0") = Some (Token.start_char t) /\
    py_int (get row "byte_offset" "0") = Some (Token.end_char t) /\
    (dict_get String.eqb row "byte_onset" = None -> Token.start_char t = 0)
    /\
    (dict_get String.eqb row "byte_offset" = None -> Token.end_char t = 0)
    /\
    (0 <= Token.start_char t /\ 0 <= Token.end_char t /\
     Token.start_char t <= Token.end_char t <->
     exists s e,
       py_int (get row "byte_onset" "0") = Some s /\
       py_int (get row "byte_offset" "0") = Some e /\
       0 <= s <= e).
Proof.
  unfold build_token_index. rewrite fold_token_step. intros Ht.
  apply number_nth_inv in Ht. destruct Ht as (t0 & Ht0 & ->).
  apply parsed_tokens_nth in Ht0. destruct Ht0 as (row & Hrow & Ht0).
  exists row. split; [exact Hrow|].
  unfold token_of_row in Ht0.
  destruct (py_int (get row "byte_onset" "0")) as [s|] eqn:Es;
    [|discriminate].
  destruct (py_int (get row "byte_offset" "0")) as [e|] eqn:Ee;
    [|discriminate].
  destruct (py_int (get row "sentence_id" "0")); [|discriminate].
  destruct (py_int (get row "paragraph_id" "0")); [|discriminate].
  injection Ht0 as <-. simpl.
  split; [reflexivity|]. split; [reflexivity|].
  split; [|split].
  - intros Hnone. unfold get, dict_get_or in Es. rewrite Hnone in Es.
    vm_compute in Es. congruence.
  - intros Hnone. unfold get, dict_get_or in Ee. rewrite Hnone in Ee.
    vm_compute in Ee. congruence.
  - split.
    + intros H. exists s, e. repeat split; lia.
    + intros (s' & e' & [= <-] & [= <-] & H). lia.
Qed.

Definition tokens_two_rows : string :=
  tsv [ ["word"; "byte_onset"; "byte_offset"; "sentence_id"];
        ["Tom"; "0"; "3"; "0"];
        ["ran"; "4"; "7"; "0"] ].

Lemma token_offsets_ordered_witness :
  exists t,
    nth_error (build_token_index (Some tokens_two_rows) "Tom ran") 1
    = Some t /\
    exists row,
      nth_error (kept_token_rows (parse_tsv_file (Some tokens_two_rows))) 1
      = Some row /\
      py_int (get row "byte_onset" "0") = Some (Token.start_char t) /\
      py_int (get row "byte_offset" "0") = Some (Token.end_char t) /\
      (dict_get String.eqb row "byte_onset" = None ->
       Token.start_char t = 0) /\
      (dict_get String.eqb row "byte_offset" = None ->
       Token.end_char t = 0) /\
      (0 <= Token.start_char t /\ 0 <= Token.end_char t /\
       Token.start_char t <= Token.end_char t <->
       exists s e,
         py_int (get row "byte_onset" "0") = Some s /\
         py_int (get row "byte_offset" "0") = Some e /\
         0 <= s <= e).
Proof.
  eexists. split; [vm_compute; reflexivity|].
  apply (token_offsets_ordered (Some tokens_two_rows) "Tom ran" 1).
  vm_compute. reflexivity.
Defined.

(** ** 4.3 Entity resolver: properties *)

(** Whether a look-up raises depends on the index alone. *)
Lemma token_field_total (f g : Token.t -> Z) (tokens : list Token.t)
    (tok v : Z) :
  token_field f tokens tok = Some v ->
  exists w, token_field g tokens tok = Some w.
Proof.
  unfold token_field. destruct (tok <? len tokens); [|now exists 0].
  destruct (index tokens tok) as [t|]; [|discriminate].
  intros _. now exists (g t).
Qed.

(** The look-up of the sentence index comes after a look-up at the same
    index succeeded: the [try] body cannot raise once it has written
    [cluster_to_char_id]. *)
Lemma entity_fields_sentence (tokens : list Token.t) (row : Row)
    (coref_id start_tok end_tok start_char end_char : Z) :
  entity_fields tokens row
  = Some (coref_id, start_tok, end_tok, start_char, end_char) ->
  exists s, token_field Token.sentence_idx tokens start_tok = Some s.
Proof.
  unfold entity_fields.
  destruct (py_int (get row "COREF" "-1")); [|discriminate].
  destruct (py_int (get row "start_token" "0")) as [st|]; [|discriminate].
  destruct (py_int (get row "end_token" "0")); [|discriminate].
  destruct (token_field Token.start_char tokens st) eqn:E; [|discriminate].
  destruct (token_field Token.end_char tokens z0); [|discriminate].
  intros [= _ <- _ _ _]. eapply token_field_total. exact E.
Qed.

(** What ties the clusters to the mentions at every turn of the loop. *)
Record entity_inv (st : EntityState) : Prop := {
  inv_nodup : NoDup (keys (cluster_mentions st));
  inv_count : forall k,
    length (dict_get_or Z.eqb (cluster_mentions st) k [])
    = length (filter (has_character (char_id_of k)) (mentions_acc st));
  inv_data : forall k data,
    In (k, data) (cluster_mentions st) -> data <> [] /\ 0 <= k;
  inv_ids : forall m s,
    In m (mentions_acc st) -> Mention.character_id m = Some s ->
    exists k, s = char_id_of k /\ In k (keys (cluster_mentions st))
}.

Lemma has_character_char_id (k k' : Z) (m : Mention.t) :
  Mention.character_id m = Some (char_id_of k') ->
  has_character (char_id_of k) m = Z.eqb k k'.
Proof.
  intros H. unfold has_character. rewrite H.
  destruct (Z.eqb_spec k k') as [->|Hne]; [apply String.eqb_refl|].
  apply String.eqb_neq. intros E. apply char_id_of_inj in E. congruence.
Qed.

Lemma entity_step_inv (tokens : list Token.t) (st : EntityState)
    (ir : Z * Row) :
  entity_inv st -> entity_inv (entity_step tokens st ir).
Proof.
  intros [Hnd Hcount Hdata Hids]. destruct ir as [i row].
  unfold entity_step.
  destruct (entity_fields tokens row) as [[[[[coref st_tok] en_tok] sc] ec]|];
    [|now constructor].
  destruct (token_field Token.sentence_idx tokens st_tok) as [sent|];
    [|now constructor].
  set (text := get row "text" "").
  set (mtype := get row "mention_type" (get row "cat" "PROP")).
  set (entry := ClusterEntry.mk text mtype (get row "name" text)).
  destruct (Z.leb_spec 0 coref) as [Hpos|Hneg].
  - set (m := Mention.mk _ _ _ _ _ _ _ _ _ _).
    assert (Hm : Mention.character_id m = Some (char_id_of coref))
      by reflexivity.
    constructor; simpl.
    + now apply NoDup_keys_upd; [apply Zeqb_eq|].
    + intros k. unfold dict_get_or at 1.
      rewrite (dict_get_upd _ Zeqb_eq), filter_app, length_app. simpl.
      rewrite (has_character_char_id k coref m Hm).
      destruct (Z.eqb_spec k coref) as [->|Hne].
      * rewrite length_app, Hcount. reflexivity.
      * fold (dict_get_or Z.eqb (cluster_mentions st) k []).
        rewrite Hcount. simpl. lia.
    + intros k data Hin.
      apply (In_dict_get _ Zeqb_eq) in Hin;
        [|now apply NoDup_keys_upd; [apply Zeqb_eq|]].
      rewrite (dict_get_upd _ Zeqb_eq) in Hin.
      destruct (Z.eqb_spec k coref) as [->|Hne].
      * injection Hin as <-. split; [|exact Hpos].
        intros E. now apply app_eq_nil in E.
      * apply (dict_get_In _ Zeqb_eq) in Hin. now apply Hdata.
    + intros m' s Hin Hs. apply in_app_or in Hin.
      destruct Hin as [Hin|[<-|[]]].
      * destruct (Hids _ _ Hin Hs) as (k & -> & Hk). exists k.
        split; [reflexivity|]. apply (In_keys_upd _ Zeqb_eq). now right.
      * rewrite Hm in Hs. injection Hs as <-. exists coref.
        split; [reflexivity|]. apply (In_keys_upd _ Zeqb_eq). now left.
  - set (m := Mention.mk _ _ _ _ _ _ _ _ _ _).
    assert (Hm : Mention.character_id m = None) by reflexivity.
    constructor; simpl.
    + exact Hnd.
    + intros k. rewrite filter_app, length_app, Hcount.
      change (filter (has_character (char_id_of k)) [m])
        with (@nil Mention.t). simpl. lia.
    + exact Hdata.
    + intros m' s Hin Hs. apply in_app_or in Hin.
      destruct Hin as [Hin|[<-|[]]]; [now apply (Hids m')|].
      rewrite Hm in Hs. discriminate.
Qed.

Lemma scan_entities_inv (tokens : list Token.t) (rows : list Row) :
  entity_inv (scan_entities tokens rows).
Proof.
  unfold scan_entities.
  apply (fold_left_inv (entity_step tokens) (fun _ st => entity_inv st)).
  - constructor; simpl; try easy. constructor.
  - intros _ x s. apply entity_step_inv.
Qed.

Lemma traverse_Forall2 {A B} (f : A -> option B) (l : list A)
    (ys : list B) :
  traverse f l = Some ys <-> Forall2 (fun x y => f x = Some y) l ys.
Proof.
  revert ys. induction l as [|x l IH]; intros ys; simpl.
  - split; [intros [= <-]; constructor|]. intros H. now inversion H.
  - destruct (f x) as [y|] eqn:Ex.
    + destruct (traverse f l) as [ys'|]; split.
      * intros [= <-]. constructor; [exact Ex|]. now apply IH.
      * intros H. inversion H as [|? y' ? ys'' Hy Hys]; subst.
        apply IH in Hys. congruence.
      * discriminate.
      * intros H. inversion H as [|? y' ? ys'' Hy Hys]; subst.
        apply IH in Hys. discriminate.
    + split; [discriminate|]. intros H. inversion H; congruence.
Qed.

Lemma traverse_total {A B} (f : A -> option B) (l : list A) :
  (forall x, In x l -> exists y, f x = Some y) ->
  exists ys, traverse f l = Some ys.
Proof.
  induction l as [|x l IH]; simpl; intros H; [now exists []|].
  destruct (H x (or_introl eq_refl)) as [y ->].
  destruct IH as [ys ->]; [intros x' Hx'; apply H; now right|].
  now exists (y :: ys).
Qed.

Lemma scan_cluster_not_nil (cluster_data : list ClusterEntry.t) :
  cluster_data <> [] -> fst (scan_cluster cluster_data) <> [].
Proof.
  unfold scan_cluster.
  apply (fold_left_inv cluster_step
           (fun pre acc => pre <> [] -> fst acc <> [])).
  - intros H. now destruct H.
  - intros pre m [alias_counts name] _ _. simpl.
    apply dict_upd_not_nil.
Qed.

(** [max] is reached with at least one alias: it does not raise. *)
Lemma character_of_cluster_total (cluster_id : Z)
    (cluster_data : list ClusterEntry.t) :
  cluster_data <> [] ->
  exists c, character_of_cluster (cluster_id, cluster_data) = Some c.
Proof.
  intros H. apply scan_cluster_not_nil in H. unfold character_of_cluster.
  destruct (scan_cluster cluster_data) as [alias_counts name]. simpl in H.
  destruct (truthy name); [eexists; reflexivity|].
  destruct alias_counts as [|x items]; [now destruct H|].
  simpl. eexists; reflexivity.
Qed.

Lemma character_of_cluster_fields (cluster_id : Z)
    (cluster_data : list ClusterEntry.t) (c : Character.t) :
  character_of_cluster (cluster_id, cluster_data) = Some c ->
  Character.id c = char_id_of cluster_id /\
  Character.mention_count c = len cluster_data.
Proof.
  unfold character_of_cluster.
  destruct (scan_cluster cluster_data) as [alias_counts name].
  destruct (if truthy name then Some name
            else option_map fst (py_max alias_counts)); [|discriminate].
  intros [= <-]. now split.
Qed.

Lemma Forall2_character_ids (cm : dict Z (list ClusterEntry.t))
    (characters : list Character.t) :
  Forall2 (fun item c => character_of_cluster item = Some c) cm characters ->
  map Character.id characters = map char_id_of (keys cm).
Proof.
  induction 1 as [|[k data] c cm' cs Hc _ IH]; simpl; [reflexivity|].
  apply character_of_cluster_fields in Hc. destruct Hc as [-> _].
  now rewrite IH.
Qed.

Lemma Forall2_In_r {A B} (R : A -> B -> Prop) (l : list A) (l' : list B)
    (y : B) :
  Forall2 R l l' -> In y l' -> exists x, In x l /\ R x y.
Proof.
  induction 1 as [|x y' l l' HR _ IH]; simpl; [easy|].
  intros [->|Hin].
  - exists x. now split; [left|].
  - destruct (IH Hin) as (x' & Hx' & HR'). exists x'.
    now split; [right|].
Qed.

(** The resolver always returns, and its three results agree. *)
Lemma build_characters_and_mentions_total (entities_file : option string)
    (tokens : list Token.t) :
  exists characters mentions c2c,
    build_characters_and_mentions entities_file tokens
    = Some (characters, mentions, c2c).
Proof.
  unfold build_characters_and_mentions.
  set (st := scan_entities tokens (parse_tsv_file entities_file)).
  destruct (traverse_total character_of_cluster (cluster_mentions st))
    as [cs ->].
  - intros [k data] Hin. apply character_of_cluster_total.
    now apply (inv_data st (scan_entities_inv tokens _) k).
  - now exists cs, (mentions_acc st), (cluster_to_char_id st).
Qed.

Lemma build_characters_and_mentions_inv (entities_file : option string)
    (tokens : list Token.t) (characters : list Character.t)
    (mentions : list Mention.t) (c2c : dict Z string) :
  build_characters_and_mentions entities_file tokens
  = Some (characters, mentions, c2c) ->
  NoDup (map Character.id characters) /\
  (forall m s, In m mentions -> Mention.character_id m = Some s ->
               In s (map Character.id characters) /\ truthy s = true) /\
  (forall c, In c characters ->
     Character.mention_count c
     = len (filter (has_character (Character.id c)) mentions) /\
     1 <= Character.mention_count c /\
     truthy (Character.id c) = true).
Proof.
  unfold build_characters_and_mentions.
  set (st := scan_entities tokens (parse_tsv_file entities_file)).
  pose proof (scan_entities_inv tokens (parse_tsv_file entities_file))
    as [Hnd Hcount Hdata Hids]. fold st in Hnd, Hcount, Hdata, Hids.
  destruct (traverse character_of_cluster (cluster_mentions st))
    as [cs|] eqn:Et; [|discriminate].
  intros [= <- <- <-]. apply traverse_Forall2 in Et.
  pose proof (Forall2_character_ids _ _ Et) as Eids.
  split; [|split].
  - rewrite Eids. apply Injective_map_NoDup; [|exact Hnd].
    intros a b. apply char_id_of_inj.
  - intros m s Hm Hs. destruct (Hids _ _ Hm Hs) as (k & -> & Hk).
    split; [|reflexivity]. rewrite Eids. now apply in_map.
  - intros c Hc. destruct (Forall2_In_r _ _ _ _ Et Hc) as ([k data] & Hin & Hc').
    apply character_of_cluster_fields in Hc'. destruct Hc' as [Hid Hn].
    rewrite Hid, Hn. specialize (Hcount k).
    unfold dict_get_or in Hcount.
    rewrite (In_dict_get _ Zeqb_eq _ _ _ Hnd Hin) in Hcount.
    destruct (Hdata _ _ Hin) as [Hne _].
    unfold len. rewrite <- Hcount. split; [reflexivity|].
    split; [|reflexivity]. destruct data; [now destruct Hne|].
    simpl length. lia.
Qed.

Lemma filter_one {A} (f : A -> string) (l : list A) (s : string) :
  NoDup (map f l) -> In s (map f l) ->
  length (filter (fun x => String.eqb (f x) s) l) = 1%nat.
Proof.
  induction l as [|x l IH]; simpl; [easy|].
  intros Hnd Hin. inversion Hnd as [|? ? Hnotin Hnd']; subst.
  destruct (String.eqb_spec (f x) s) as [E|E].
  - subst s. simpl. f_equal.
    destruct (filter (fun y => String.eqb (f y) (f x)) l) as [|y r] eqn:Ef;
      [reflexivity|].
    assert (Hy : In y (filter (fun y => String.eqb (f y) (f x)) l))
      by (rewrite Ef; now left).
    apply filter_In in Hy. destruct Hy as [Hy Hyx].
    apply String.eqb_eq in Hyx. exfalso. apply Hnotin.
    rewrite <- Hyx. now apply in_map.
  - destruct Hin as [Hin|Hin]; [contradiction|]. now apply IH.
Qed.

(** ** 4.6 The contract: properties *)

(** The contract with [processing_time_seconds] set to [x]. *)
Definition with_time (x : float) (c : BookNLPContract.t)
  : BookNLPContract.t :=
  let md := BookNLPContract.metadata c in
  {| BookNLPContract.schema_version := BookNLPContract.schema_version c;
     BookNLPContract.document_id := BookNLPContract.document_id c;
     BookNLPContract.metadata := {|
       Metadata.booknlp_version := Metadata.booknlp_version md;
       Metadata.text_length := Metadata.text_length md;
       Metadata.text_hash := Metadata.text_hash md;
       Metadata.processing_time_seconds := x;
       Metadata.token_count := Metadata.token_count md;
       Metadata.sentence_count := Metadata.sentence_count md;
       Metadata.character_count := Metadata.character_count md;
       Metadata.mention_count := Metadata.mention_count md;
       Metadata.quote_count := Metadata.quote_count md |};
     BookNLPContract.characters := BookNLPContract.characters c;
     BookNLPContract.mentions := BookNLPContract.mentions c;
     BookNLPContract.coref_chains := BookNLPContract.coref_chains c;
     BookNLPContract.quotes := BookNLPContract.quotes c;
     BookNLPContract.tokens := BookNLPContract.tokens c |}.

(** Two output directories hold the same input files: every name reads
    the same in both, and the same [*.tokens] file is listed first. *)
Definition same_files (d1 d2 : Dir) : Prop :=
  (forall name, read_file d1 name = read_file d2 name) /\
  hd_error (glob_tokens d1) = hd_error (glob_tokens d2).

Section Contract.
Variable sha256_hexdigest : string -> string.
Variable round3 : float -> float.

(** What a returned contract is made of. *)
Lemma build_contract_Some (output_dir : Dir)
    (document_id original_text : string) (duration_seconds : float)
    (booknlp_version : string) (c : BookNLPContract.t) :
  build_contract sha256_hexdigest round3 output_dir document_id
    original_text duration_seconds booknlp_version = Some c ->
  exists first rest c2c,
    glob_tokens output_dir = first :: rest /\
    BookNLPContract.tokens c =
      build_token_index (read_file output_dir (stem first ++ ".tokens"))
        original_text /\
    build_characters_and_mentions
      (read_file output_dir (stem first ++ ".entities"))
      (BookNLPContract.tokens c)
    = Some (BookNLPContract.characters c, BookNLPContract.mentions c, c2c)
    /\
    BookNLPContract.coref_chains c =
      build_coref_chains (BookNLPContract.mentions c) c2c /\
    BookNLPContract.quotes c =
      build_quotes (read_file output_dir (stem first ++ ".quotes"))
        (BookNLPContract.tokens c) c2c (BookNLPContract.characters c).
Proof.
  unfold build_contract.
  destruct (glob_tokens output_dir) as [|first rest]; [discriminate|].
  destruct (build_characters_and_mentions _ _)
    as [[[characters mentions] c2c]|] eqn:E; [|discriminate].
  intros [= <-]. simpl. exists first, rest, c2c. auto.
Qed.

(** The build raises only for want of a [*.tokens] file. *)
Lemma build_contract_None (output_dir : Dir)
    (document_id original_text : string) (duration_seconds : float)
    (booknlp_version : string) :
  build_contract sha256_hexdigest round3 output_dir document_id
    original_text duration_seconds booknlp_version = None <->
  glob_tokens output_dir = [].
Proof.
  unfold build_contract.
  destruct (glob_tokens output_dir) as [|first rest]; [tauto|].
  destruct (build_characters_and_mentions_total
              (read_file output_dir (stem first ++ ".entities"))
              (build_token_index
                 (read_file output_dir (stem first ++ ".tokens"))
                 original_text))
    as (characters & mentions & c2c & ->).
  split; discriminate.
Qed.

(** C2: in a contract that [build_contract] returns, a mention with a
    non-null [character_id] has exactly one Character of that id in
    the [characters] list. *)
Theorem mention_character_exactly_one (output_dir : Dir)
    (document_id original_text : string) (duration_seconds : float)
    (booknlp_version : string) (c : BookNLPContract.t)
    (m : Mention.t) (s : string) :
  build_contract sha256_hexdigest round3 output_dir document_id
    original_text duration_seconds booknlp_version = Some c ->
  In m (BookNLPContract.mentions c) ->
  Mention.character_id m = Some s ->
  length
    (filter (fun ch => String.eqb (Character.id ch) s)
       (BookNLPContract.characters c)) = 1%nat.
Proof.
  intros Hc Hm Hs. apply build_contract_Some in Hc.
  destruct Hc as (first & rest & c2c & _ & _ & Hr & _).
  apply build_characters_and_mentions_inv in Hr.
  destruct Hr as (Hnd & Hids & _).
  apply filter_one; [exact Hnd|]. now apply (Hids m).
Qed.

(** C10: in a contract that [build_contract] returns, the
    [mention_count] of a Character is the number of mentions that carry
    its id, and the one chain of that Character lists as many mention
    ids. *)
Theorem mention_count_consistent (output_dir : Dir)
    (document_id original_text : string) (duration_seconds : float)
    (booknlp_version : string) (c : BookNLPContract.t)
    (ch : Character.t) :
  build_contract sha256_hexdigest round3 output_dir document_id
    original_text duration_seconds booknlp_version = Some c ->
  In ch (BookNLPContract.characters c) ->
  Character.mention_count ch
  = len (filter (has_character (Character.id ch))
           (BookNLPContract.mentions c)) /\
  exists chain,
    In chain (BookNLPContract.coref_chains c) /\
    CorefChain.character_id chain = Some (Character.id ch) /\
    len (CorefChain.mentions chain) = Character.mention_count ch /\
    forall chain',
      In chain' (BookNLPContract.coref_chains c) ->
      CorefChain.character_id chain' = Some (Character.id ch) ->
      chain' = chain.
Proof.
  intros Hc Hch. apply build_contract_Some in Hc.
  destruct Hc as (first & rest & c2c & _ & _ & Hr & Hchains & _).
  apply build_characters_and_mentions_inv in Hr.
  destruct Hr as (_ & _ & Hcount).
  destruct (Hcount ch Hch) as (Hn & Hpos & Htruthy).
  split; [exact Hn|]. rewrite Hchains.
  set (s := Character.id ch) in *.
  set (ms := BookNLPContract.mentions c) in *.
  assert (Hex : exists m, In m ms /\ Mention.character_id m = Some s).
  { destruct (filter (has_character s) ms) as [|m r] eqn:Ef.
    - unfold len in Hn. simpl in Hn. lia.
    - assert (Hm : In m (filter (has_character s) ms))
        by (rewrite Ef; now left).
      apply filter_In in Hm. destruct Hm as [Hm Hb]. exists m.
      split; [exact Hm|]. unfold has_character in Hb.
      destruct (Mention.character_id m); [|discriminate].
      apply String.eqb_eq in Hb. now subst. }
  eexists. split; [|split; [|split]].
  - apply In_build_coref_chains. exists s. split; [exact Htruthy|].
    split; [exact Hex|reflexivity].
  - reflexivity.
  - simpl. unfold len. rewrite length_map. exact (eq_sym Hn).
  - intros chain' Hin Hid. apply In_build_coref_chains in Hin.
    destruct Hin as (s' & _ & _ & ->). simpl in Hid.
    now injection Hid as ->.
Qed.
End Contract.

Section ContractBuild.
Variable sha256_hexdigest : string -> string.
Variable round3 : float -> float.

(** On a directory whose files are all readable text, [build_contract]
    raises exactly when [glob] finds no [*.tokens] file; otherwise it
    returns a contract, in which a source file that does not exist
    leaves its collections empty. *)
Lemma build_contract_text_outcome (output_dir : Dir)
    (document_id original_text : string) (duration_seconds : float)
    (booknlp_version : string) :
  (build_contract sha256_hexdigest round3 output_dir document_id
     original_text duration_seconds booknlp_version = None <->
   glob_tokens output_dir = []) /\
  (forall first rest,
     glob_tokens output_dir = first :: rest ->
     exists c,
       build_contract sha256_hexdigest round3 output_dir document_id
         original_text duration_seconds booknlp_version = Some c /\
       (read_file output_dir (stem first ++ ".quotes") = None ->
        BookNLPContract.quotes c = []) /\
       (read_file output_dir (stem first ++ ".entities") = None ->
        BookNLPContract.characters c = [] /\
        BookNLPContract.mentions c = [] /\
        BookNLPContract.coref_chains c = []) /\
       (read_file output_dir (stem first ++ ".tokens") = None ->
        BookNLPContract.tokens c = [])).
Proof.
  split; [apply build_contract_None|].
  intros first rest Hglob.
  destruct (build_contract sha256_hexdigest round3 output_dir document_id
              original_text duration_seconds booknlp_version)
    as [c|] eqn:Ec.
  2:{ apply build_contract_None in Ec. congruence. }
  exists c. split; [reflexivity|].
  apply build_contract_Some in Ec.
  destruct Ec as (first' & rest' & c2c & Hg & Htok & Hr & Hch & Hq).
  rewrite Hglob in Hg. injection Hg as <- <-.
  split; [|split].
  - intros Hnone. rewrite Hq, Hnone. reflexivity.
  - intros Hnone. rewrite Hnone in Hr. injection Hr as Hcs Hms _.
    rewrite Hch, <- Hcs, <- Hms. auto.
  - intros Hnone. rewrite Htok, Hnone. reflexivity.
Qed.

(** C4: two builds over the same input files, with the same document id
    and the same text, return contracts that differ at most in
    [processing_time_seconds] (or both raise). *)
Theorem build_contract_deterministic (d1 d2 : Dir)
    (document_id original_text : string) (t1 t2 : float)
    (booknlp_version : string) :
  same_files d1 d2 ->
  option_map (with_time 0)
    (build_contract sha256_hexdigest round3 d1 document_id original_text t1
       booknlp_version)
  = option_map (with_time 0)
      (build_contract sha256_hexdigest round3 d2 document_id original_text
         t2 booknlp_version).
Proof.
  intros [Hread Hhd]. unfold build_contract.
  destruct (glob_tokens d1) as [|f1 r1], (glob_tokens d2) as [|f2 r2];
    try discriminate; [reflexivity|].
  injection Hhd as <-. rewrite <- !Hread.
  destruct (build_characters_and_mentions _ _) as [[[cs ms] c2c]|];
    reflexivity.
Qed.
End ContractBuild.

(** ** A worked document *)

Definition example_text : string := "Tom ran. Tom hid. Tom saw Mr. Sawyer".

(** Its ten tokens, with the columns of a BookNLP [.tokens] file. *)
Definition example_tokens : string :=
  tsv [ ["paragraph_id"; "sentence_id"; "token_id_within_sentence";
         "word"; "lemma"; "byte_onset"; "byte_offset"; "POS_tag"];
        ["0"; "0"; "0"; "Tom"; "Tom"; "0"; "3"; "NNP"];
        ["0"; "0"; "1"; "ran"; "run"; "4"; "7"; "VBD"];
        ["0"; "0"; "2"; "."; "."; "7"; "8"; "."];
        ["0"; "1"; "0"; "Tom"; "Tom"; "9"; "12"; "NNP"];
        ["0"; "1"; "1"; "hid"; "hide"; "13"; "16"; "VBD"];
        ["0"; "1"; "2"; "."; "."; "16"; "17"; "."];
        ["0"; "2"; "0"; "Tom"; "Tom"; "18"; "21"; "NNP"];
        ["0"; "2"; "1"; "saw"; "see"; "22"; "25"; "VBD"];
        ["0"; "2"; "2"; "Mr."; "Mr."; "26"; "29"; "NNP"];
        ["0"; "2"; "3"; "Sawyer"; "Sawyer"; "30"; "36"; "NNP"] ].

(** Cluster 5, "Tom" three times and "Mr. Sawyer" once, in a table
    that has no [name] column. *)
Definition example_entities : string :=
  tsv [ ["COREF"; "start_token"; "end_token"; "prop"; "cat"; "text"];
        ["5"; "0"; "0"; "PROP"; "PER"; "Tom"];
        ["5"; "3"; "3"; "PROP"; "PER"; "Tom"];
        ["5"; "6"; "6"; "PROP"; "PER"; "Tom"];
        ["5"; "8"; "9"; "PROP"; "PER"; "Mr. Sawyer"] ].

(** The same cluster in a table whose [name] column is there and empty. *)
Definition example_entities_empty_name : string :=
  tsv [ ["COREF"; "start_token"; "end_token"; "prop"; "cat"; "text"; "name"];
        ["5"; "0"; "0"; "PROP"; "PER"; "Tom"; ""];
        ["5"; "3"; "3"; "PROP"; "PER"; "Tom"; ""];
        ["5"; "6"; "6"; "PROP"; "PER"; "Tom"; ""];
        ["5"; "8"; "9"; "PROP"; "PER"; "Mr. Sawyer"; ""] ].

Definition example_quotes : string :=
  tsv [ ["quote_start"; "quote_end"; "char_id"; "quote"];
        ["0"; "1"; "_"; "Tom ran"];
        ["3"; "4"; "5"; "Tom hid"];
        ["6"; "7"; "77"; ""] ].

Definition example_dir : Dir :=
  [ ("doc.txt", example_text);
    ("doc.tokens", example_tokens);
    ("doc.entities", example_entities);
    ("doc.quotes", example_quotes) ].

(** The same files, listed in another order. *)
Definition example_dir_reordered : Dir :=
  [ ("doc.quotes", example_quotes);
    ("doc.entities", example_entities);
    ("doc.tokens", example_tokens);
    ("doc.txt", example_text) ].

(** Stand-ins for the digest and for [round], which the properties do
    not depend on. *)
Definition example_digest (s : string) : string :=
  "9f86d081884c7d659a2feaa0c55ad015a3bf4f1b2b0b822cd15d6c15b0f00a08".

Definition example_round (x : float) : float := x.

Lemma mention_character_exactly_one_witness :
  exists c,
    build_contract example_digest example_round example_dir "doc"
      example_text 1.5%float "1.0.8" = Some c /\
    length
      (filter (fun ch => String.eqb (Character.id ch) "char_5")
         (BookNLPContract.characters c)) = 1%nat.
Proof.
  eexists. split; [vm_compute; reflexivity|].
  eapply (mention_character_exactly_one example_digest example_round
            example_dir "doc" example_text 1.5%float "1.0.8").
  - vm_compute. reflexivity.
  - simpl. left. reflexivity.
  - reflexivity.
Defined.

Lemma mention_count_consistent_witness :
  exists c,
    build_contract example_digest example_round example_dir "doc"
      example_text 1.5%float "1.0.8" = Some c /\
    Forall
      (fun ch =>
         Character.mention_count ch
         = len (filter (has_character (Character.id ch))
                  (BookNLPContract.mentions c)) /\
         exists chain,
           In chain (BookNLPContract.coref_chains c) /\
           CorefChain.character_id chain = Some (Character.id ch) /\
           len (CorefChain.mentions chain) = Character.mention_count ch /\
           forall chain',
             In chain' (BookNLPContract.coref_chains c) ->
             CorefChain.character_id chain' = Some (Character.id ch) ->
             chain' = chain)
      (BookNLPContract.characters c).
Proof.
  eexists. split; [vm_compute; reflexivity|].
  apply Forall_forall. intros ch Hch.
  eapply (mention_count_consistent example_digest example_round
            example_dir "doc" example_text 1.5%float "1.0.8");
    [vm_compute; reflexivity|exact Hch].
Defined.

Lemma example_same_files : same_files example_dir example_dir_reordered.
Proof.
  split; [|reflexivity].
  intros name. unfold read_file, example_dir, example_dir_reordered.
  simpl.
  destruct (String.eqb_spec name "doc.txt") as [->|]; [reflexivity|].
  destruct (String.eqb_spec name "doc.tokens") as [->|]; [reflexivity|].
  destruct (String.eqb_spec name "doc.entities") as [->|]; [reflexivity|].
  destruct (String.eqb_spec name "doc.quotes") as [->|]; reflexivity.
Defined.

Lemma build_contract_deterministic_witness :
  option_map (with_time 0)
    (build_contract example_digest example_round example_dir "doc"
       example_text 1.5%float "1.0.8")
  = option_map (with_time 0)
      (build_contract example_digest example_round example_dir_reordered
         "doc" example_text 2.25%float "1.0.8").
Proof.
  apply (build_contract_deterministic example_digest example_round
           example_dir example_dir_reordered "doc" example_text
           1.5%float 2.25%float "1.0.8").
  exact example_same_files.
Defined.

(** ** 4.3 Canonical name and offsets on the worked document *)

Definition character_summary (c : Character.t)
  : string * string * list (string * Z) * Z :=
  (Character.id c, Character.canonical_name c,
   map (fun a => (CharacterAlias.text a, CharacterAlias.count a))
     (Character.aliases c),
   Character.mention_count c).

Definition characters_of (entities : string) (tokens : list Token.t)
  : option (list (string * string * list (string * Z) * Z)) :=
  option_map (fun r => map character_summary (fst (fst r)))
    (build_characters_and_mentions (Some entities) tokens).

(** C1: with "Tom" three times, then "Mr. Sawyer" once, and no [name]
    column, every entry has its own text as ["canonical"]
    ([row.get("name", text)]), the last one wins and the fall-back to the
    most frequent text is never reached: [canonical_name] is
    "Mr. Sawyer", not "Tom". *)
Theorem canonical_name_without_name_column :
  characters_of example_entities
    (build_token_index (Some example_tokens) example_text)
  = Some [("char_5", "Mr. Sawyer", [("Tom", 3)], 4)].
Proof. vm_compute. reflexivity. Qed.

(** With a [name] column that is empty on every row the fall-back is
    reached, and picks the most frequent text. *)
Lemma canonical_name_empty_name_column :
  characters_of example_entities_empty_name
    (build_token_index (Some example_tokens) example_text)
  = Some [("char_5", "Tom", [("Mr. Sawyer", 1)], 4)].
Proof. vm_compute. reflexivity. Qed.

(** The entry a row files under its cluster takes the text of the row as
    ["canonical"] when the table has no [name] column. *)
Lemma canonical_defaults_to_text (row : Row) (text : string) :
  dict_get String.eqb row "name" = None -> get row "name" text = text.
Proof. unfold get, dict_get_or. now intros ->. Qed.

(** The last truthy ["canonical"] of a cluster is its name. *)
Lemma scan_cluster_last_wins (pre post : list ClusterEntry.t)
    (e : ClusterEntry.t) :
  truthy (ClusterEntry.canonical e) = true ->
  Forall (fun e' => truthy (ClusterEntry.canonical e') = false) post ->
  snd (scan_cluster (pre ++ e :: post)) = ClusterEntry.canonical e.
Proof.
  intros He Hpost. unfold scan_cluster. rewrite fold_left_app. simpl.
  generalize (fold_left cluster_step pre ([], "")). intros [ac name].
  unfold cluster_step at 2. rewrite He.
  generalize (dict_upd String.eqb ac (ClusterEntry.text e) 0
                (fun n => n + 1)).
  induction Hpost as [|e' post He' _ IH]; intros ac'; simpl; [reflexivity|].
  rewrite He'. apply IH.
Qed.

(** The three cases of a look-up [tokens[tok][f] if tok < len(tokens)
    else 0]. *)
Lemma token_field_above (f : Token.t -> Z) (tokens : list Token.t)
    (tok : Z) :
  len tokens <= tok -> token_field f tokens tok = Some 0.
Proof.
  intros H. unfold token_field.
  destruct (Z.ltb_spec tok (len tokens)); [lia|reflexivity].
Qed.

Lemma token_field_negative (f : Token.t -> Z) (tokens : list Token.t)
    (tok : Z) :
  - len tokens <= tok < 0 ->
  token_field f tokens tok
  = option_map f (nth_error tokens (Z.to_nat (len tokens + tok))).
Proof.
  intros H. unfold token_field, index. pose proof (len_nonneg tokens).
  destruct (Z.ltb_spec tok (len tokens)); [|lia].
  destruct (Z.ltb_spec tok 0); [|lia].
  destruct (Z.leb_spec 0 (len tokens + tok)); [reflexivity|lia].
Qed.

Lemma token_field_below (f : Token.t -> Z) (tokens : list Token.t)
    (tok : Z) :
  tok < - len tokens -> token_field f tokens tok = None.
Proof.
  intros H. unfold token_field, index. pose proof (len_nonneg tokens).
  destruct (Z.ltb_spec tok (len tokens)); [|lia].
  destruct (Z.ltb_spec tok 0); [|lia].
  destruct (Z.leb_spec 0 (len tokens + tok)); [lia|reflexivity].
Qed.

(** A row whose token indices are too large passes the start of the
    [try] body with both offsets at 0. *)
Lemma entity_fields_too_large (tokens : list Token.t) (row : Row)
    (coref_id start_tok end_tok : Z) :
  py_int (get row "COREF" "-1") = Some coref_id ->
  py_int (get row "start_token" "0") = Some start_tok ->
  py_int (get row "end_token" "0") = Some end_tok ->
  len tokens <= start_tok -> len tokens <= end_tok ->
  entity_fields tokens row = Some (coref_id, start_tok, end_tok, 0, 0).
Proof.
  intros Hc Hs He Hls Hle. unfold entity_fields.
  rewrite Hc, Hs, He.
  rewrite (token_field_above _ _ _ Hls), (token_field_above _ _ _ Hle).
  reflexivity.
Qed.

(** Three mentions against the ten tokens: one index too large, one
    negative within the sequence, one negative beyond it. *)
Definition example_entities_out_of_range : string :=
  tsv [ ["COREF"; "start_token"; "end_token"; "prop"; "cat"; "text"];
        ["5"; "999"; "999"; "PROP"; "PER"; "Tom"];
        ["5"; "-1"; "-1"; "PROP"; "PER"; "Tom"];
        ["5"; "-999"; "0"; "PROP"; "PER"; "Tom"] ].

Definition mention_summary (m : Mention.t) : string * Z * Z * Z * Z :=
  (Mention.id m, Mention.start_token m, Mention.end_token m,
   Mention.start_char m, Mention.end_char m).

(** C6: index 999 falls back to offset 0 and the mention is kept; index
    -1 is taken from the end of the sequence and gets the offsets of the
    last token, not 0; index -999 raises [IndexError] and the mention is
    dropped. *)
Theorem out_of_range_token_indices :
  let tokens := build_token_index (Some example_tokens) example_text in
  len tokens = 10 /\
  option_map (fun r => map mention_summary (snd (fst r)))
    (build_characters_and_mentions (Some example_entities_out_of_range)
       tokens)
  = Some [ ("mention_0", 999, 999, 0, 0);
           ("mention_1", -1, -1, 30, 36) ].
Proof. vm_compute. split; reflexivity. Qed.

(** ** 4.5 Quote resolver: properties *)

(** A loop that appends what [g] returns and skips where it raises. *)
Lemma fold_left_filter_map {A B} (g : A -> option B) (l : list A)
    (init : list B) :
  fold_left
    (fun acc x => match g x with Some y => acc ++ [y] | None => acc end)
    l init
  = init ++ flat_map
              (fun x => match g x with Some y => [y] | None => [] end) l.
Proof.
  revert init. induction l as [|x l IH]; intros init; simpl.
  - now rewrite app_nil_r.
  - rewrite IH. destruct (g x); [|reflexivity].
    now rewrite <- app_assoc.
Qed.


(** The quotes are the rows whose [try] body did not raise. *)
Lemma In_build_quotes (quotes_file : option string)
    (tokens : list Token.t) (c2c : dict Z string)
    (characters : list Character.t) (q : Quote.t) :
  In q (build_quotes quotes_file tokens c2c characters) <->
  exists ir,
    In ir (enumerate (parse_tsv_file quotes_file)) /\
    quote_of_row tokens c2c (char_id_to_name characters) ir = Some q.
Proof.
  unfold build_quotes.
  change (quote_step tokens c2c (char_id_to_name characters))
    with (fun acc x =>
            match quote_of_row tokens c2c (char_id_to_name characters) x
            with Some y => acc ++ [y] | None => acc end).
  rewrite fold_left_filter_map. simpl. rewrite in_flat_map.
  split; intros (ir & Hin & H); exists ir; (split; [exact Hin|]).
  - destruct (quote_of_row _ _ _ ir); [|contradiction].
    destruct H as [->|[]]. reflexivity.
  - rewrite H. now left.
Qed.






(** * Further properties of the builder *)

(** ** The Mention list, row by row *)

(** What one turn of the entity loop appends to [mentions]. *)
Definition mention_of_row (tokens : list Token.t) (ir : Z * Row)
  : option Mention.t :=
  let (i, row) := ir in
  match entity_fields tokens row with
  | None => None
  | Some (coref_id, start_tok, end_tok, start_char, end_char) =>
      match token_field Token.sentence_idx tokens start_tok with
      | None => None
      | Some sentence =>
          Some {| Mention.id := "mention_" ++ py_str i;
                  Mention.character_id :=
                    if 0 <=? coref_id then Some (char_id_of coref_id)
                    else None;
                  Mention.text := get row "text" "";
                  Mention.start_token := start_tok;
                  Mention.end_token := end_tok;
                  Mention.start_char := start_char;
                  Mention.end_char := end_char;
                  Mention.sentence_idx := sentence;
                  Mention.mention_type :=
                    get row "mention_type" (get row "cat" "PROP");
                  Mention.entity_type :=
                    get row "entity_type" (get row "ner" "PER") |}
      end
  end.

(** The items a loop appends for [x]: one when [g] returns, none when it
    raises. *)
Definition opt_list {A B} (g : A -> option B) (x : A) : list B :=
  match g x with Some y => [y] | None => [] end.

Lemma mentions_acc_step (tokens : list Token.t) (st : EntityState)
    (ir : Z * Row) :
  mentions_acc (entity_step tokens st ir)
  = mentions_acc st ++ opt_list (mention_of_row tokens) ir.
Proof.
  destruct ir as [i row]. unfold entity_step, opt_list, mention_of_row.
  destruct (entity_fields tokens row) as [[[[[c s] e] sc] ec]|];
    [|now rewrite app_nil_r].
  destruct (token_field Token.sentence_idx tokens s);
    simpl; [reflexivity|now rewrite app_nil_r].
Qed.

Lemma mentions_acc_fold (tokens : list Token.t) (l : list (Z * Row))
    (st : EntityState) :
  mentions_acc (fold_left (entity_step tokens) l st)
  = mentions_acc st ++ flat_map (opt_list (mention_of_row tokens)) l.
Proof.
  revert st. induction l as [|ir l IH]; intros st; simpl.
  - now rewrite app_nil_r.
  - rewrite IH, mentions_acc_step. now rewrite <- app_assoc.
Qed.

Lemma mentions_acc_scan (tokens : list Token.t) (rows : list Row) :
  mentions_acc (scan_entities tokens rows)
  = flat_map (opt_list (mention_of_row tokens)) (enumerate rows).
Proof. unfold scan_entities. now rewrite mentions_acc_fold. Qed.

Lemma build_quotes_flat_map (quotes_file : option string)
    (tokens : list Token.t) (c2c : dict Z string)
    (characters : list Character.t) :
  build_quotes quotes_file tokens c2c characters
  = flat_map
      (opt_list (quote_of_row tokens c2c (char_id_to_name characters)))
      (enumerate (parse_tsv_file quotes_file)).
Proof.
  unfold build_quotes.
  change (quote_step tokens c2c (char_id_to_name characters))
    with (fun acc x =>
            match quote_of_row tokens c2c (char_id_to_name characters) x
            with Some y => acc ++ [y] | None => acc end).
  now rewrite fold_left_filter_map.
Qed.

Lemma enumerate_from_fst_ge {A} (l : list A) (k : Z) (ir : Z * A) :
  In ir (enumerate_from k l) -> k <= fst ir.
Proof.
  revert k. induction l as [|x l IH]; intros k; simpl; [easy|].
  intros [<-|H]; simpl; [lia|]. apply IH in H. lia.
Qed.

Lemma enumerate_from_In_inv {A} (l : list A) (k : Z) (ir : Z * A) :
  In ir (enumerate_from k l) ->
  exists n, fst ir = k + Z.of_nat n /\ nth_error l n = Some (snd ir).
Proof.
  intros H. apply In_nth_error in H. destruct H as [n Hn].
  exists n. now apply enumerate_from_nth.
Qed.

(** Items numbered by their row carry pairwise distinct ids. *)
Lemma NoDup_numbered_ids {A B} (g : Z * A -> option B) (idf : B -> string)
    (prefix : string) :
  (forall i x b, g (i, x) = Some b -> idf b = (prefix ++ py_str i)%string) ->
  forall l k,
    NoDup (map idf (flat_map (opt_list g) (enumerate_from k l))).
Proof.
  intros Hid. induction l as [|x l IH]; intros k; simpl; [constructor|].
  rewrite map_app. unfold opt_list at 1.
  destruct (g (k, x)) as [b|] eqn:Eb; simpl; [|apply IH].
  constructor; [|apply IH].
  rewrite in_map_iff. intros (b' & Hb' & Hin).
  apply in_flat_map in Hin. destruct Hin as ([i x'] & Hix & Hg).
  unfold opt_list in Hg. destruct (g (i, x')) as [b''|] eqn:Eb'';
    [|contradiction].
  destruct Hg as [->|[]].
  apply enumerate_from_fst_ge in Hix. simpl in Hix.
  rewrite (Hid _ _ _ Eb), (Hid _ _ _ Eb'') in Hb'.
  apply append_inj_l, py_str_inj in Hb'. lia.
Qed.

Lemma mention_of_row_id (tokens : list Token.t) (i : Z) (row : Row)
    (m : Mention.t) :
  mention_of_row tokens (i, row) = Some m ->
  Mention.id m = ("mention_" ++ py_str i)%string.
Proof.
  unfold mention_of_row.
  destruct (entity_fields tokens row) as [[[[[c s] e] sc] ec]|];
    [|discriminate].
  destruct (token_field Token.sentence_idx tokens s); [|discriminate].
  now intros [= <-].
Qed.

Lemma quote_of_row_id (tokens : list Token.t) (c2c : dict Z string)
    (names : dict string string) (i : Z) (row : Row) (q : Quote.t) :
  quote_of_row tokens c2c names (i, row) = Some q ->
  Quote.id q = ("quote_" ++ py_str i)%string.
Proof.
  unfold quote_of_row.
  destruct (quote_fields tokens row) as [[[[s e] sc] ec]|]; [|discriminate].
  now intros [= <-].
Qed.

(** The first four characters of an id tell its kind. *)
Definition kind_tag (id : string) : string := substring 0 4 id.

Lemma In_map_tag {A} (idf : A -> string) (tag : string) (l : list A)
    (s : string) :
  (forall x, In x l -> kind_tag (idf x) = tag) ->
  In s (map idf l) -> kind_tag s = tag.
Proof.
  intros H Hin. apply in_map_iff in Hin. destruct Hin as (x & <- & Hx).
  now apply H.
Qed.

Lemma NoDup_chain_chain_ids (mentions : list Mention.t)
    (c2c : dict Z string) :
  NoDup (map CorefChain.chain_id (build_coref_chains mentions c2c)).
Proof.
  unfold build_coref_chains.
  assert (E : forall g : dict string (list string),
            map CorefChain.chain_id (map chain_of_item g)
            = map (fun s => "chain_" ++ s)%string (map fst g))
    by (intros g; rewrite !map_map; reflexivity).
  rewrite E. apply Injective_map_NoDup.
  - intros a b H. now apply append_inj_l in H.
  - rewrite chains_by_char_group. apply group_spec.
Qed.

Lemma build_characters_and_mentions_parts (entities_file : option string)
    (tokens : list Token.t) (characters : list Character.t)
    (mentions : list Mention.t) (c2c : dict Z string) :
  build_characters_and_mentions entities_file tokens
  = Some (characters, mentions, c2c) ->
  traverse character_of_cluster
    (cluster_mentions (scan_entities tokens (parse_tsv_file entities_file)))
  = Some characters /\
  mentions = flat_map (opt_list (mention_of_row tokens))
               (enumerate (parse_tsv_file entities_file)) /\
  c2c = cluster_to_char_id
          (scan_entities tokens (parse_tsv_file entities_file)).
Proof.
  unfold build_characters_and_mentions. intros H.
  destruct (traverse character_of_cluster _); [|discriminate].
  injection H as <- <- <-. split; [reflexivity|].
  split; [apply mentions_acc_scan|reflexivity].
Qed.

Lemma character_tag (entities_file : option string) (tokens : list Token.t)
    (characters : list Character.t) (mentions : list Mention.t)
    (c2c : dict Z string) (s : string) :
  build_characters_and_mentions entities_file tokens
  = Some (characters, mentions, c2c) ->
  In s (map Character.id characters) -> kind_tag s = "char".
Proof.
  intros H. apply build_characters_and_mentions_parts in H.
  destruct H as (Ht & _ & _). apply traverse_Forall2 in Ht.
  apply In_map_tag. intros ch Hch.
  destruct (Forall2_In_r _ _ _ _ Ht Hch) as ([k data] & _ & Hc).
  apply character_of_cluster_fields in Hc. destruct Hc as [-> _].
  reflexivity.
Qed.

Lemma mention_tag (tokens : list Token.t) (l : list (Z * Row)) (s : string) :
  In s (map Mention.id (flat_map (opt_list (mention_of_row tokens)) l)) ->
  kind_tag s = "ment".
Proof.
  apply In_map_tag. intros m Hm. apply in_flat_map in Hm.
  destruct Hm as ([i row] & _ & Hm). unfold opt_list in Hm.
  destruct (mention_of_row tokens (i, row)) eqn:E; [|contradiction].
  destruct Hm as [<-|[]]. apply mention_of_row_id in E. now rewrite E.
Qed.

Lemma chain_tag (mentions : list Mention.t) (c2c : dict Z string)
    (s : string) :
  In s (map CorefChain.chain_id (build_coref_chains mentions c2c)) ->
  kind_tag s = "chai".
Proof.
  apply In_map_tag. intros ch Hch. apply In_build_coref_chains in Hch.
  destruct Hch as (s' & _ & _ & ->). reflexivity.
Qed.

Lemma quote_tag (quotes_file : option string) (tokens : list Token.t)
    (c2c : dict Z string) (characters : list Character.t) (s : string) :
  In s (map Quote.id (build_quotes quotes_file tokens c2c characters)) ->
  kind_tag s = "quot".
Proof.
  apply In_map_tag. intros q Hq. apply In_build_quotes in Hq.
  destruct Hq as ([i row] & _ & Hq). apply quote_of_row_id in Hq.
  now rewrite Hq.
Qed.

Section ContractIds.
Variable sha256_hexdigest : string -> string.
Variable round3 : float -> float.

(** X1: the ids of a contract are unique within the document, across the
    four kinds: no two of its characters, mentions, chains and quotes
    share an id. *)
Theorem contract_ids_unique (output_dir : Dir)
    (document_id original_text : string) (duration_seconds : float)
    (booknlp_version : string) (c : BookNLPContract.t) :
  build_contract sha256_hexdigest round3 output_dir document_id
    original_text duration_seconds booknlp_version = Some c ->
  NoDup (map Character.id (BookNLPContract.characters c)
         ++ map Mention.id (BookNLPContract.mentions c)
         ++ map CorefChain.chain_id (BookNLPContract.coref_chains c)
         ++ map Quote.id (BookNLPContract.quotes c)).
Proof.
  intros Hc. apply build_contract_Some in Hc.
  destruct Hc as (first & rest & c2c & _ & _ & Hr & Hch & Hq).
  assert (Tc : forall s, In s (map Character.id (BookNLPContract.characters c))
                         -> kind_tag s = "char")
    by (intros s; exact (character_tag _ _ _ _ _ s Hr)).
  pose proof (build_characters_and_mentions_inv _ _ _ _ _ Hr) as (Nc & _).
  apply build_characters_and_mentions_parts in Hr.
  destruct Hr as (_ & Hm & _).
  assert (Tm : forall s, In s (map Mention.id (BookNLPContract.mentions c))
                         -> kind_tag s = "ment")
    by (rewrite Hm; intros s; apply mention_tag).
  assert (Nm : NoDup (map Mention.id (BookNLPContract.mentions c))).
  { rewrite Hm. apply (NoDup_numbered_ids _ _ "mention_").
    intros i x b. apply mention_of_row_id. }
  assert (Tch : forall s,
            In s (map CorefChain.chain_id (BookNLPContract.coref_chains c))
            -> kind_tag s = "chai")
    by (rewrite Hch; intros s; apply chain_tag).
  assert (Nch : NoDup (map CorefChain.chain_id
                         (BookNLPContract.coref_chains c)))
    by (rewrite Hch; apply NoDup_chain_chain_ids).
  assert (Tq : forall s, In s (map Quote.id (BookNLPContract.quotes c))
                         -> kind_tag s = "quot")
    by (rewrite Hq; intros s; apply quote_tag).
  assert (Nq : NoDup (map Quote.id (BookNLPContract.quotes c))).
  { rewrite Hq, build_quotes_flat_map.
    apply (NoDup_numbered_ids _ _ "quote_").
    intros i x b. apply quote_of_row_id. }
  clear Hm Hch Hq.
  apply NoDup_app; [exact Nc| |].
  - apply NoDup_app; [exact Nm| |].
    + apply NoDup_app; [exact Nch|exact Nq|].
      intros s H1 H2. apply Tch in H1. apply Tq in H2. congruence.
    + intros s H1 H2. apply Tm in H1. apply in_app_or in H2.
      destruct H2 as [H2|H2]; [apply Tch in H2|apply Tq in H2]; congruence.
  - intros s H1 H2. apply Tc in H1. apply in_app_or in H2.
    destruct H2 as [H2|H2]; [apply Tm in H2; congruence|].
    apply in_app_or in H2.
    destruct H2 as [H2|H2]; [apply Tch in H2|apply Tq in H2]; congruence.
Qed.
End ContractIds.

Lemma contract_ids_unique_witness :
  exists c,
    build_contract example_digest example_round example_dir "doc"
      example_text 1.5%float "1.0.8" = Some c /\
    NoDup (map Character.id (BookNLPContract.characters c)
           ++ map Mention.id (BookNLPContract.mentions c)
           ++ map CorefChain.chain_id (BookNLPContract.coref_chains c)
           ++ map Quote.id (BookNLPContract.quotes c)).
Proof.
  eexists. split; [vm_compute; reflexivity|].
  apply (contract_ids_unique example_digest example_round example_dir
           "doc" example_text 1.5%float "1.0.8").
  vm_compute. reflexivity.
Defined.

(** ** Which rows are dropped *)

(** A look-up raises exactly for an index below [-len(tokens)]. *)
Lemma token_field_None (f : Token.t -> Z) (tokens : list Token.t) (tok : Z) :
  token_field f tokens tok = None <-> tok < - len tokens.
Proof.
  split; [|apply token_field_below].
  unfold token_field, index. pose proof (len_nonneg tokens) as Hlen.
  destruct (Z.ltb_spec tok (len tokens)); [|discriminate].
  destruct (Z.ltb_spec tok 0).
  - destruct (Z.leb_spec 0 (len tokens + tok)); [|lia].
    destruct (nth_error tokens (Z.to_nat (len tokens + tok))) eqn:E;
      [discriminate|].
    apply nth_error_None in E. unfold len in *. lia.
  - destruct (nth_error tokens (Z.to_nat tok)) eqn:E; [discriminate|].
    apply nth_error_None in E. unfold len in *. lia.
Qed.

(** The two conditions under which a pair of token indices, read from
    the fields [a] and [b], makes a [try] body raise. *)
Definition indices_raise (tokens : list Token.t) (a b : string) : Prop :=
  py_int a = None \/ py_int b = None \/
  (exists s, py_int a = Some s /\ s < - len tokens) \/
  (exists e, py_int b = Some e /\ e < - len tokens).

Lemma entity_fields_None (tokens : list Token.t) (row : Row) :
  entity_fields tokens row = None <->
  py_int (get row "COREF" "-1") = None \/
  indices_raise tokens (get row "start_token" "0") (get row "end_token" "0").
Proof.
  unfold entity_fields, indices_raise.
  destruct (py_int (get row "COREF" "-1")); [|tauto].
  destruct (py_int (get row "start_token" "0")) as [s|]; [|tauto].
  destruct (py_int (get row "end_token" "0")) as [e|]; [|tauto].
  destruct (token_field Token.start_char tokens s) eqn:Es.
  - destruct (token_field Token.end_char tokens e) eqn:Ee.
    + split; [discriminate|].
      intros [H|[H|[H|[(s' & [= <-] & H)|(e' & [= <-] & H)]]]];
        try discriminate.
      * apply (token_field_None Token.start_char) in H. congruence.
      * apply (token_field_None Token.end_char) in H. congruence.
    + apply token_field_None in Ee. split; [|reflexivity].
      intros _. right. right. right. right. now exists e.
  - apply token_field_None in Es. split; [|reflexivity].
    intros _. right. right. right. left. now exists s.
Qed.

Lemma mention_of_row_None (tokens : list Token.t) (i : Z) (row : Row) :
  mention_of_row tokens (i, row) = None <->
  entity_fields tokens row = None.
Proof.
  unfold mention_of_row.
  destruct (entity_fields tokens row) as [[[[[c s] e] sc] ec]|] eqn:E;
    [|tauto].
  destruct (entity_fields_sentence _ _ _ _ _ _ _ E) as [sent ->].
  split; discriminate.
Qed.

Lemma quote_fields_None (tokens : list Token.t) (row : Row) :
  quote_fields tokens row = None <->
  indices_raise tokens (get row "quote_start" (get row "start" "0"))
    (get row "quote_end" (get row "end" "0")).
Proof.
  unfold quote_fields, indices_raise.
  destruct (py_int (get row "quote_start" (get row "start" "0"))) as [s|];
    [|tauto].
  destruct (py_int (get row "quote_end" (get row "end" "0"))) as [e|];
    [|tauto].
  destruct (token_field Token.start_char tokens s) eqn:Es.
  - destruct (token_field Token.end_char tokens e) eqn:Ee.
    + split; [discriminate|].
      intros [H|[H|[(s' & [= <-] & H)|(e' & [= <-] & H)]]];
        try discriminate.
      * apply (token_field_None Token.start_char) in H. congruence.
      * apply (token_field_None Token.end_char) in H. congruence.
    + apply token_field_None in Ee. split; [|reflexivity].
      intros _. right. right. right. now exists e.
  - apply token_field_None in Es. split; [|reflexivity].
    intros _. right. right. left. now exists s.
Qed.

(** X3: the Quote list holds, in row order, one quote for each row of
    the quote table that is not dropped, with the id [quote_i] of the
    row's index; a row is dropped exactly when its start or end index
    (quote_start or start, quote_end or end) is not an integer or is
    below [-len(tokens)]; the speaker, text and type fields never drop
    a row. *)
Theorem quotes_follow_rows (quotes_file : option string)
    (tokens : list Token.t) (c2c : dict Z string)
    (characters : list Character.t) :
  let names := char_id_to_name characters in
  build_quotes quotes_file tokens c2c characters
  = flat_map (opt_list (quote_of_row tokens c2c names))
      (enumerate (parse_tsv_file quotes_file)) /\
  (forall i row,
     quote_of_row tokens c2c names (i, row) = None <->
     indices_raise tokens (get row "quote_start" (get row "start" "0"))
       (get row "quote_end" (get row "end" "0"))) /\
  (forall i row q,
     quote_of_row tokens c2c names (i, row) = Some q ->
     Quote.id q = ("quote_" ++ py_str i)%string /\
     Quote.addressee_id q = None /\
     Quote.quote_type q = get row "type" "explicit").
Proof.
  intros names. split; [apply build_quotes_flat_map|]. split.
  - intros i row. rewrite <- quote_fields_None. unfold quote_of_row.
    destruct (quote_fields tokens row) as [[[[s e] sc] ec]|];
      [split; discriminate|tauto].
  - intros i row q Hq. unfold quote_of_row in Hq.
    destruct (quote_fields tokens row) as [[[[s e] sc] ec]|];
      [|discriminate].
    injection Hq as <-. simpl. auto.
Qed.

(** ** The cluster look-up and the speakers *)

(** The two ways a turn of the entity loop ends. *)
Lemma entity_step_cases (tokens : list Token.t) (st : EntityState)
    (i : Z) (row : Row) :
  (mention_of_row tokens (i, row) = None /\
   entity_step tokens st (i, row) = st) \/
  (exists m entry,
     mention_of_row tokens (i, row) = Some m /\
     ClusterEntry.text entry = Mention.text m /\
     ClusterEntry.canonical entry = get row "name" (Mention.text m) /\
     ((exists k, 0 <= k /\
         Mention.character_id m = Some (char_id_of k) /\
         entity_step tokens st (i, row)
         = mkEntityState
             (dict_upd Z.eqb (cluster_mentions st) k []
                (fun data => data ++ [entry]))
             (mentions_acc st ++ [m])
             (dict_set Z.eqb (cluster_to_char_id st) k (char_id_of k))) \/
      (Mention.character_id m = None /\
       entity_step tokens st (i, row)
       = mkEntityState (cluster_mentions st) (mentions_acc st ++ [m])
           (cluster_to_char_id st)))).
Proof.
  unfold entity_step, mention_of_row.
  destruct (entity_fields tokens row) as [[[[[c s] e] sc] ec]|] eqn:E;
    [|now left].
  destruct (entity_fields_sentence _ _ _ _ _ _ _ E) as [sent ->].
  right. eexists. eexists (ClusterEntry.mk _ _ _).
  split; [reflexivity|]. split; [reflexivity|]. split; [reflexivity|].
  destruct (Z.leb_spec 0 c).
  - left. exists c. split; [assumption|]. split; reflexivity.
  - right. split; reflexivity.
Qed.

Lemma dict_set_keyed {V W} (g : Z -> W) (d : dict Z V) (k : Z) (dflt : V)
    (f : V -> V) :
  dict_set Z.eqb (map (fun k => (k, g k)) (keys d)) k (g k)
  = map (fun k => (k, g k)) (keys (dict_upd Z.eqb d k dflt f)).
Proof.
  unfold dict_set. induction d as [|[k0 v0] d IH]; simpl; [reflexivity|].
  destruct (Z.eqb_spec k k0) as [->|_]; simpl; [reflexivity|].
  now rewrite IH.
Qed.

Lemma dict_get_keyed {W} (g : Z -> W) (ks : list Z) (n : Z) (w : W) :
  dict_get Z.eqb (map (fun k => (k, g k)) ks) n = Some w ->
  w = g n /\ In n ks.
Proof.
  induction ks as [|k ks IH]; simpl; [discriminate|].
  destruct (Z.eqb_spec n k) as [->|Hne].
  - intros [= <-]. split; [reflexivity|now left].
  - intros H. apply IH in H. destruct H as [-> H]. split;
      [reflexivity|now right].
Qed.

(** What ties the look-up, the chains and the surface texts to the
    clusters at every turn of the loop. *)
Record entity_links (st : EntityState) : Prop := {
  link_c2c :
    cluster_to_char_id st
    = map (fun k => (k, char_id_of k)) (keys (cluster_mentions st));
  link_chains :
    map char_id_of (keys (cluster_mentions st))
    = keys (fold_left chain_step (mentions_acc st) []);
  link_texts : forall k,
    map ClusterEntry.text (dict_get_or Z.eqb (cluster_mentions st) k [])
    = map Mention.text
        (filter (has_character (char_id_of k)) (mentions_acc st))
}.

Lemma entity_step_links (tokens : list Token.t) (st : EntityState)
    (ir : Z * Row) :
  entity_links st -> entity_links (entity_step tokens st ir).
Proof.
  intros [Hc2c Hchains Htexts]. destruct ir as [i row].
  destruct (entity_step_cases tokens st i row)
    as [[_ ->]|(m & entry & _ & Htext & _ &
                [(k & Hk & Hm & ->)|[Hm ->]])];
    [now constructor| |].
  - constructor; simpl.
    + rewrite Hc2c. apply dict_set_keyed.
    + rewrite fold_left_app. simpl. unfold chain_step at 1.
      rewrite Hm, char_id_of_truthy.
      rewrite !keys_upd.
      destruct (dict_get Z.eqb (cluster_mentions st) k) eqn:E1;
        destruct (dict_get String.eqb
                    (fold_left chain_step (mentions_acc st) [])
                    (char_id_of k)) eqn:E2.
      * exact Hchains.
      * exfalso. apply (dict_get_None _ Seqb_eq) in E2. apply E2.
        rewrite <- Hchains. apply in_map.
        apply (dict_get_In _ Zeqb_eq) in E1.
        change k with (fst (k, l)). now apply in_map.
      * exfalso. apply (dict_get_None _ Zeqb_eq) in E1. apply E1.
        apply (dict_get_In _ Seqb_eq) in E2.
        apply (in_map fst) in E2. simpl in E2.
        fold (keys (fold_left chain_step (mentions_acc st) [])) in E2.
        rewrite <- Hchains in E2. apply in_map_iff in E2.
        destruct E2 as (k' & Hk' & Hin). apply char_id_of_inj in Hk'.
        now subst.
      * rewrite map_app, Hchains. reflexivity.
    + intros k'. unfold dict_get_or at 1.
      rewrite (dict_get_upd _ Zeqb_eq), filter_app, map_app. simpl.
      rewrite (has_character_char_id k' k m Hm).
      destruct (Z.eqb_spec k' k) as [->|Hne].
      * rewrite map_app, Htexts. simpl. now rewrite Htext.
      * fold (dict_get_or Z.eqb (cluster_mentions st) k' []).
        rewrite Htexts. simpl. now rewrite app_nil_r.
  - constructor; simpl.
    + exact Hc2c.
    + rewrite fold_left_app. simpl. unfold chain_step at 1.
      now rewrite Hm.
    + intros k'. rewrite filter_app, map_app, Htexts.
      assert (Hf : has_character (char_id_of k') m = false)
        by (unfold has_character; now rewrite Hm).
      replace (filter (has_character (char_id_of k')) [m])
        with (@nil Mention.t) by (simpl; now rewrite Hf).
      simpl. now rewrite app_nil_r.
Qed.

Lemma scan_entities_links (tokens : list Token.t) (rows : list Row) :
  entity_links (scan_entities tokens rows).
Proof.
  unfold scan_entities.
  apply (fold_left_inv (entity_step tokens) (fun _ st => entity_links st)).
  - constructor; reflexivity.
  - intros _ x s. apply entity_step_links.
Qed.

Lemma char_id_to_name_get (characters : list Character.t)
    (ch : Character.t) :
  NoDup (map Character.id characters) -> In ch characters ->
  dict_get String.eqb (char_id_to_name characters) (Character.id ch)
  = Some (Character.canonical_name ch).
Proof.
  unfold char_id_to_name. revert ch.
  apply (fold_left_inv
           (fun d c => dict_set String.eqb d (Character.id c)
                         (Character.canonical_name c))
           (fun pre d => forall ch,
              NoDup (map Character.id pre) -> In ch pre ->
              dict_get String.eqb d (Character.id ch)
              = Some (Character.canonical_name ch))).
  - intros ch _ [].
  - intros pre x d IH ch Hnd Hin. unfold dict_set.
    rewrite (dict_get_upd _ Seqb_eq).
    rewrite map_app in Hnd. simpl in Hnd.
    apply in_app_or in Hin. destruct Hin as [Hin|[<-|[]]].
    + destruct (String.eqb_spec (Character.id ch) (Character.id x))
        as [E|_].
      * exfalso. apply NoDup_remove_2 in Hnd. apply Hnd.
        rewrite app_nil_r, <- E. now apply in_map.
      * apply IH; [|exact Hin]. now apply NoDup_app_remove_r in Hnd.
    + now rewrite String.eqb_refl.
Qed.

Lemma resolve_speaker_cases (c2c : dict Z string)
    (names : dict string string) (speaker : string) :
  resolve_speaker c2c names speaker = (None, None) \/
  exists n s,
    py_int speaker = Some n /\ dict_get Z.eqb c2c n = Some s /\
    resolve_speaker c2c names speaker
    = (Some s, if truthy s then dict_get String.eqb names s else None).
Proof.
  unfold resolve_speaker.
  destruct (_ && _); [|now left].
  destruct (py_int speaker) as [n|]; [|now left].
  destruct (dict_get Z.eqb c2c n) as [s|] eqn:E; [|now left].
  right. exists n, s. split; [reflexivity|]. split; [exact E|].
  now destruct (truthy s).
Qed.

Lemma quote_of_row_speaker (tokens : list Token.t) (c2c : dict Z string)
    (names : dict string string) (ir : Z * Row) (q : Quote.t) :
  quote_of_row tokens c2c names ir = Some q ->
  (Quote.speaker_id q, Quote.speaker_name q)
  = resolve_speaker c2c names (speaker_field (snd ir)).
Proof.
  destruct ir as [i row]. unfold quote_of_row.
  destruct (quote_fields tokens row) as [[[[s e] sc] ec]|]; [|discriminate].
  intros [= <-]. simpl. now destruct (resolve_speaker _ _ _).
Qed.

(** The look-up holds the clusters of the characters, and nothing else. *)
Lemma cluster_lookup_characters (entities_file : option string)
    (tokens : list Token.t) (characters : list Character.t)
    (mentions : list Mention.t) (c2c : dict Z string) :
  build_characters_and_mentions entities_file tokens
  = Some (characters, mentions, c2c) ->
  map snd c2c = map Character.id characters /\
  map (fun ch => Some (Character.id ch)) characters
  = map CorefChain.character_id (build_coref_chains mentions c2c) /\
  forall k s, dict_get Z.eqb c2c k = Some s <->
              s = char_id_of k /\ In s (map Character.id characters).
Proof.
  intros H. pose proof (build_characters_and_mentions_parts _ _ _ _ _ H)
    as (Ht & Hm & Hc).
  pose proof (scan_entities_links tokens (parse_tsv_file entities_file))
    as [Lc Lch _].
  pose proof (scan_entities_inv tokens (parse_tsv_file entities_file))
    as [Hnd _ _ _].
  rewrite <- Hc in Lc. rewrite mentions_acc_scan, <- Hm in Lch.
  apply traverse_Forall2 in Ht. apply Forall2_character_ids in Ht.
  set (cm := cluster_mentions
               (scan_entities tokens (parse_tsv_file entities_file))) in *.
  split; [|split].
  - rewrite Ht, Lc, map_map. simpl. reflexivity.
  - rewrite build_coref_chains_ids, <- Lch, <- Ht, map_map. reflexivity.
  - intros k s. rewrite Ht, Lc. split.
    + intros Hg. apply dict_get_keyed in Hg. destruct Hg as [-> Hin].
      split; [reflexivity|]. now apply in_map.
    + intros [-> Hin]. apply in_map_iff in Hin.
      destruct Hin as (k' & Hk' & Hin). apply char_id_of_inj in Hk'.
      subst k'. clear - Hin. induction (keys cm) as [|k0 ks IH];
        [contradiction|]. simpl.
      destruct (Z.eqb_spec k k0) as [->|Hne]; [reflexivity|].
      destruct Hin as [->|Hin]; [contradiction|]. now apply IH.
Qed.

Lemma chain_ids_of_character_ids (mentions : list Mention.t)
    (c2c : dict Z string) :
  map CorefChain.chain_id (build_coref_chains mentions c2c)
  = map (fun o => match o with
                  | Some s => ("chain_" ++ s)%string
                  | None => ""
                  end)
      (map CorefChain.character_id (build_coref_chains mentions c2c)).
Proof. unfold build_coref_chains. now rewrite !map_map. Qed.

Section ContractLinks.
Variable sha256_hexdigest : string -> string.
Variable round3 : float -> float.

(** The header and the metadata of a returned contract. *)
Lemma build_contract_metadata (output_dir : Dir)
    (document_id original_text : string) (duration_seconds : float)
    (booknlp_version : string) (c : BookNLPContract.t) :
  build_contract sha256_hexdigest round3 output_dir document_id
    original_text duration_seconds booknlp_version = Some c ->
  let md := BookNLPContract.metadata c in
  BookNLPContract.schema_version c = SCHEMA_VERSION /\
  BookNLPContract.document_id c = document_id /\
  Metadata.booknlp_version md = booknlp_version /\
  Metadata.text_length md = Z.of_nat (String.length original_text) /\
  Metadata.text_hash md = substring 0 16 (sha256_hexdigest original_text) /\
  Metadata.token_count md = len (BookNLPContract.tokens c) /\
  Metadata.sentence_count md = sentence_count_of (BookNLPContract.tokens c)
  /\
  Metadata.character_count md = len (BookNLPContract.characters c) /\
  Metadata.mention_count md = len (BookNLPContract.mentions c) /\
  Metadata.quote_count md = len (BookNLPContract.quotes c).
Proof.
  unfold build_contract.
  destruct (glob_tokens output_dir); [discriminate|].
  destruct (build_characters_and_mentions _ _) as [[[cs ms] c2c]|];
    [|discriminate].
  intros [= <-]. simpl. repeat split.
Qed.

(** X4: in a contract, a quote with a non-null [speaker_id] names a
    Character of the contract, and its [speaker_name] is that
    Character's [canonical_name]; a quote with a null [speaker_id] has a
    null [speaker_name]. *)
Theorem quote_speaker_resolves (output_dir : Dir)
    (document_id original_text : string) (duration_seconds : float)
    (booknlp_version : string) (c : BookNLPContract.t) (q : Quote.t) :
  build_contract sha256_hexdigest round3 output_dir document_id
    original_text duration_seconds booknlp_version = Some c ->
  In q (BookNLPContract.quotes c) ->
  match Quote.speaker_id q with
  | Some s =>
      exists ch, In ch (BookNLPContract.characters c) /\
                 Character.id ch = s /\
                 Quote.speaker_name q = Some (Character.canonical_name ch)
  | None => Quote.speaker_name q = None
  end.
Proof.
  intros Hc Hq. apply build_contract_Some in Hc.
  destruct Hc as (first & rest & c2c & _ & _ & Hr & _ & Hquotes).
  rewrite Hquotes in Hq. apply In_build_quotes in Hq.
  destruct Hq as (ir & _ & Hq). apply quote_of_row_speaker in Hq.
  pose proof (build_characters_and_mentions_inv _ _ _ _ _ Hr) as (Hnd & _).
  pose proof (cluster_lookup_characters _ _ _ _ _ Hr) as (_ & _ & Hget).
  destruct (resolve_speaker_cases c2c
              (char_id_to_name (BookNLPContract.characters c))
              (speaker_field (snd ir)))
    as [E|(n & s & _ & Hn & E)]; rewrite E in Hq; injection Hq as -> ->;
    [reflexivity|].
  apply Hget in Hn. destruct Hn as [-> Hin].
  apply in_map_iff in Hin. destruct Hin as (ch & Hid & Hch).
  exists ch. split; [exact Hch|]. split; [exact Hid|].
  rewrite char_id_of_truthy, <- Hid. now apply char_id_to_name_get.
Qed.

(** X5: in a contract, the chains follow the characters one for one and
    in the same order: the i-th chain is the chain of the i-th
    Character, so there are as many chains as characters. *)
Theorem chains_follow_characters (output_dir : Dir)
    (document_id original_text : string) (duration_seconds : float)
    (booknlp_version : string) (c : BookNLPContract.t) :
  build_contract sha256_hexdigest round3 output_dir document_id
    original_text duration_seconds booknlp_version = Some c ->
  map CorefChain.character_id (BookNLPContract.coref_chains c)
  = map (fun ch => Some (Character.id ch)) (BookNLPContract.characters c)
  /\
  map CorefChain.chain_id (BookNLPContract.coref_chains c)
  = map (fun ch => "chain_" ++ Character.id ch)%string
      (BookNLPContract.characters c) /\
  len (BookNLPContract.coref_chains c)
  = Metadata.character_count (BookNLPContract.metadata c).
Proof.
  intros Hc. pose proof Hc as Hc'. apply build_contract_Some in Hc.
  destruct Hc as (first & rest & c2c & _ & _ & Hr & Hch & _).
  pose proof (cluster_lookup_characters _ _ _ _ _ Hr) as (_ & Hal & _).
  rewrite <- Hch in Hal.
  assert (Hids : map CorefChain.chain_id (BookNLPContract.coref_chains c)
                 = map (fun ch => "chain_" ++ Character.id ch)%string
                     (BookNLPContract.characters c)).
  { rewrite Hch at 1. rewrite chain_ids_of_character_ids, <- Hch, <- Hal.
    now rewrite map_map. }
  split; [now symmetry|]. split; [exact Hids|].
  apply build_contract_metadata in Hc'.
  destruct Hc' as (_ & _ & _ & _ & _ & _ & _ & -> & _).
  unfold len. rewrite <- (length_map CorefChain.character_id), <- Hal.
  now rewrite length_map.
Qed.
End ContractLinks.

(** X6: the cluster look-up the resolver returns maps exactly the
    clusters of its characters: its values are the character ids in the
    order of the Character list, cluster [k] is mapped (to [char_k]) when
    and only when the Character [char_k] exists, and no negative cluster
    is mapped. *)
Theorem cluster_lookup_exact (entities_file : option string)
    (tokens : list Token.t) (characters : list Character.t)
    (mentions : list Mention.t) (c2c : dict Z string) :
  build_characters_and_mentions entities_file tokens
  = Some (characters, mentions, c2c) ->
  map snd c2c = map Character.id characters /\
  (forall k s, dict_get Z.eqb c2c k = Some s <->
               s = char_id_of k /\ In s (map Character.id characters)) /\
  (forall k, k < 0 -> dict_get Z.eqb c2c k = None).
Proof.
  intros H.
  pose proof (cluster_lookup_characters _ _ _ _ _ H) as (H1 & _ & H2).
  split; [exact H1|]. split; [exact H2|].
  intros k Hk. destruct (dict_get Z.eqb c2c k) as [s|] eqn:E;
    [exfalso|reflexivity].
  apply build_characters_and_mentions_parts in H. destruct H as (_ & _ & ->).
  pose proof (scan_entities_links tokens (parse_tsv_file entities_file))
    as [Lc _ _].
  pose proof (scan_entities_inv tokens (parse_tsv_file entities_file))
    as [_ _ Hdata _].
  rewrite Lc in E. apply dict_get_keyed in E. destruct E as [_ Hin].
  apply in_map_iff in Hin. destruct Hin as ([k' data] & Hk' & Hin).
  simpl in Hk'. subst k'. apply Hdata in Hin. lia.
Qed.

Lemma cluster_lookup_exact_witness :
  exists characters mentions c2c,
    build_characters_and_mentions (Some example_entities)
      (build_token_index (Some example_tokens) example_text)
    = Some (characters, mentions, c2c) /\
    map snd c2c = map Character.id characters /\
    (forall k s, dict_get Z.eqb c2c k = Some s <->
                 s = char_id_of k /\ In s (map Character.id characters)) /\
    (forall k, k < 0 -> dict_get Z.eqb c2c k = None).
Proof.
  do 3 eexists. split; [vm_compute; reflexivity|].
  eapply (cluster_lookup_exact (Some example_entities)
            (build_token_index (Some example_tokens) example_text)).
  vm_compute. reflexivity.
Defined.

Lemma quote_speaker_resolves_witness :
  exists c,
    build_contract example_digest example_round example_dir "doc"
      example_text 1.5%float "1.0.8" = Some c /\
    Forall
      (fun q =>
         match Quote.speaker_id q with
         | Some s =>
             exists ch, In ch (BookNLPContract.characters c) /\
                        Character.id ch = s /\
                        Quote.speaker_name q
                        = Some (Character.canonical_name ch)
         | None => Quote.speaker_name q = None
         end)
      (BookNLPContract.quotes c).
Proof.
  eexists. split; [vm_compute; reflexivity|].
  apply Forall_forall. intros q Hq.
  apply (quote_speaker_resolves example_digest example_round example_dir
           "doc" example_text 1.5%float "1.0.8");
    [vm_compute; reflexivity|exact Hq].
Defined.

Lemma chains_follow_characters_witness :
  exists c,
    build_contract example_digest example_round example_dir "doc"
      example_text 1.5%float "1.0.8" = Some c /\
    map CorefChain.character_id (BookNLPContract.coref_chains c)
    = map (fun ch => Some (Character.id ch)) (BookNLPContract.characters c)
    /\
    map CorefChain.chain_id (BookNLPContract.coref_chains c)
    = map (fun ch => "chain_" ++ Character.id ch)%string
        (BookNLPContract.characters c) /\
    len (BookNLPContract.coref_chains c)
    = Metadata.character_count (BookNLPContract.metadata c).
Proof.
  eexists. split; [vm_compute; reflexivity|].
  apply (chains_follow_characters example_digest example_round example_dir
           "doc" example_text 1.5%float "1.0.8").
  vm_compute. reflexivity.
Defined.

(** ** Aliases *)

(** How many entries of a cluster carry the surface text [t]. *)
Definition count_text (t : string) (texts : list string) : Z :=
  len (filter (String.eqb t) texts).

Lemma count_text_snoc (t u : string) (texts : list string) :
  count_text t (texts ++ [u])
  = count_text t texts + (if String.eqb t u then 1 else 0).
Proof.
  unfold count_text. rewrite filter_app, len_app. simpl.
  now destruct (String.eqb t u).
Qed.

Lemma count_text_nonneg (t : string) (texts : list string) :
  0 <= count_text t texts.
Proof. apply len_nonneg. Qed.

Lemma count_text_pos (t : string) (texts : list string) :
  0 < count_text t texts <-> In t texts.
Proof.
  unfold count_text, len. split.
  - destruct (filter (String.eqb t) texts) as [|u r] eqn:E;
      [simpl; lia|]. intros _.
    assert (Hu : In u (filter (String.eqb t) texts)) by (rewrite E; now left).
    apply filter_In in Hu. destruct Hu as [Hu Ht].
    apply String.eqb_eq in Ht. now subst.
  - intros Hin.
    assert (Ht : In t (filter (String.eqb t) texts))
      by (apply filter_In; split; [exact Hin|apply String.eqb_refl]).
    destruct (filter (String.eqb t) texts); [contradiction|].
    simpl length. lia.
Qed.

(** The alias counts of a cluster: each text met so far, with the number
    of times it was met. *)
Lemma scan_cluster_counts (cluster_data : list ClusterEntry.t) :
  let texts := map ClusterEntry.text cluster_data in
  NoDup (keys (fst (scan_cluster cluster_data))) /\
  forall t,
    dict_get String.eqb (fst (scan_cluster cluster_data)) t
    = if count_text t texts =? 0 then None else Some (count_text t texts).
Proof.
  unfold scan_cluster.
  apply (fold_left_inv cluster_step
           (fun pre acc =>
              NoDup (keys (fst acc)) /\
              forall t,
                dict_get String.eqb (fst acc) t
                = if count_text t (map ClusterEntry.text pre) =? 0
                  then None
                  else Some (count_text t (map ClusterEntry.text pre)))).
  - split; [constructor|reflexivity].
  - intros pre m [ac name] [Hnd Hget]. simpl in *. split.
    + now apply NoDup_keys_upd; [apply Seqb_eq|].
    + intros t. rewrite (dict_get_upd _ Seqb_eq), map_app. simpl.
      rewrite count_text_snoc.
      pose proof (count_text_nonneg t (map ClusterEntry.text pre)).
      destruct (String.eqb_spec t (ClusterEntry.text m)) as [->|Hne].
      * unfold dict_get_or. rewrite Hget.
        destruct (Z.eqb_spec
                    (count_text (ClusterEntry.text m)
                       (map ClusterEntry.text pre)) 0) as [->|Hz].
        -- reflexivity.
        -- destruct (Z.eqb_spec
                       (count_text (ClusterEntry.text m)
                          (map ClusterEntry.text pre) + 1) 0); [lia|].
           reflexivity.
      * rewrite Z.add_0_r. apply Hget.
Qed.

Lemma insert_by_perm {A} (key : A -> Z) (x : A) (l : list A) :
  Permutation (insert_by key x l) (x :: l).
Proof.
  induction l as [|y l IH]; simpl; [reflexivity|].
  destruct (key x <=? key y); [reflexivity|].
  rewrite IH. apply perm_swap.
Qed.

Lemma sorted_perm {A} (key : A -> Z) (l : list A) :
  Permutation (sorted key l) l.
Proof.
  induction l as [|x l IH]; simpl; [reflexivity|].
  rewrite insert_by_perm. now constructor.
Qed.

Lemma insert_by_sorted {A} (key : A -> Z) (x : A) (l : list A) :
  StronglySorted (fun a b => key a <= key b) l ->
  StronglySorted (fun a b => key a <= key b) (insert_by key x l).
Proof.
  induction 1 as [|y l Hs IH Hall]; simpl.
  - repeat constructor.
  - destruct (Z.leb_spec (key x) (key y)).
    + constructor; [now constructor|]. constructor; [assumption|].
      eapply Forall_impl; [|exact Hall]. simpl. intros; lia.
    + constructor; [exact IH|].
      eapply Permutation_Forall; [symmetry; apply insert_by_perm|].
      constructor; [lia|exact Hall].
Qed.

Lemma sorted_sorted {A} (key : A -> Z) (l : list A) :
  StronglySorted (fun a b => key a <= key b) (sorted key l).
Proof.
  induction l as [|x l IH]; simpl; [constructor|].
  now apply insert_by_sorted.
Qed.

Lemma StronglySorted_filter {A} (R : A -> A -> Prop) (p : A -> bool)
    (l : list A) :
  StronglySorted R l -> StronglySorted R (filter p l).
Proof.
  induction 1 as [|x l Hs IH Hall]; simpl; [constructor|].
  destruct (p x); [|exact IH]. constructor; [exact IH|].
  apply Forall_forall. intros y Hy. apply filter_In in Hy.
  rewrite Forall_forall in Hall. now apply Hall.
Qed.

Lemma StronglySorted_map {A B} (R : B -> B -> Prop) (f : A -> B)
    (l : list A) :
  StronglySorted (fun a b => R (f a) (f b)) l -> StronglySorted R (map f l).
Proof.
  induction 1 as [|x l Hs IH Hall]; simpl; constructor; [exact IH|].
  apply Forall_forall. intros y Hy. apply in_map_iff in Hy.
  destruct Hy as (z & <- & Hz). rewrite Forall_forall in Hall.
  now apply Hall.
Qed.

Lemma StronglySorted_impl {A} (R R' : A -> A -> Prop) (l : list A) :
  (forall a b, R a b -> R' a b) ->
  StronglySorted R l -> StronglySorted R' l.
Proof.
  intros Himp. induction 1 as [|x l Hs IH Hall]; constructor; [exact IH|].
  eapply Forall_impl; [|exact Hall]. apply Himp.
Qed.

Lemma NoDup_filter {A} (p : A -> bool) (l : list A) :
  NoDup l -> NoDup (filter p l).
Proof.
  induction 1 as [|x l Hx Hnd IH]; simpl; [constructor|].
  destruct (p x); [|exact IH]. constructor; [|exact IH].
  intros H. apply filter_In in H. now destruct H.
Qed.

Lemma NoDup_keys_In {V} (d : dict string V) (k : string) (v w : V) :
  NoDup (keys d) -> In (k, v) d -> In (k, w) d -> v = w.
Proof.
  intros Hnd Hv Hw. apply (In_dict_get _ Seqb_eq _ _ _ Hnd) in Hv.
  apply (In_dict_get _ Seqb_eq _ _ _ Hnd) in Hw. congruence.
Qed.

(** The aliases of a Character, against its canonical name and the
    alias counts. *)
Lemma aliases_of_spec (ac : dict string Z) (name : string) :
  NoDup (keys ac) ->
  (forall a, In a (aliases_of ac name) <->
             In (CharacterAlias.text a, CharacterAlias.count a) ac /\
             CharacterAlias.text a <> name) /\
  NoDup (map CharacterAlias.text (aliases_of ac name)) /\
  StronglySorted
    (fun a b => CharacterAlias.count b <= CharacterAlias.count a)
    (aliases_of ac name).
Proof.
  intros Hnd. unfold aliases_of.
  set (srt := sorted (fun x : string * Z => - snd x) ac).
  assert (Hperm : Permutation srt ac) by apply sorted_perm.
  split; [|split].
  - intros [t n]. rewrite in_map_iff. simpl. split.
    + intros ([t' n'] & [= <- <-] & Hin). apply filter_In in Hin.
      destruct Hin as [Hin Hne]. simpl in Hne. split.
      * eapply Permutation_in; [exact Hperm|exact Hin].
      * apply negb_true_iff, String.eqb_neq in Hne. exact Hne.
    + intros [Hin Hne]. exists (t, n). split; [reflexivity|].
      apply filter_In. split.
      * eapply Permutation_in; [symmetry; exact Hperm|exact Hin].
      * simpl. now apply negb_true_iff, String.eqb_neq.
  - rewrite map_map. simpl.
    rewrite <- (map_map fst (fun t : string => t)), map_id.
    assert (Hnd' : NoDup (map fst srt)).
    { eapply Permutation_NoDup; [|exact Hnd].
      apply Permutation_map. now symmetry. }
    clearbody srt. clear Hperm.
    induction srt as [|[t n] srt IH]; simpl; [constructor|].
    inversion Hnd' as [|? ? Hnotin Hnd'']; subst.
    destruct (negb (String.eqb t name)); simpl; [|now apply IH].
    constructor; [|now apply IH].
    intros Hin. apply Hnotin. apply in_map_iff in Hin.
    destruct Hin as (x & <- & Hx). apply filter_In in Hx.
    apply in_map. now destruct Hx.
  - apply StronglySorted_map. simpl. apply StronglySorted_filter.
    apply (StronglySorted_impl (fun a b : string * Z => - snd a <= - snd b));
      [intros a b; lia|apply sorted_sorted].
Qed.

Lemma character_of_cluster_aliases (cluster_id : Z)
    (cluster_data : list ClusterEntry.t) (ch : Character.t) :
  character_of_cluster (cluster_id, cluster_data) = Some ch ->
  Character.aliases ch
  = aliases_of (fst (scan_cluster cluster_data))
      (Character.canonical_name ch).
Proof.
  unfold character_of_cluster.
  destruct (scan_cluster cluster_data) as [alias_counts name].
  destruct (if truthy name then Some name
            else option_map fst (py_max alias_counts)); [|discriminate].
  now intros [= <-].
Qed.

(** The cluster a Character was built from, and the surface texts of its
    entries: those of the Character's mentions, in order. *)
Lemma character_cluster (entities_file : option string)
    (tokens : list Token.t) (characters : list Character.t)
    (mentions : list Mention.t) (c2c : dict Z string) (ch : Character.t) :
  build_characters_and_mentions entities_file tokens
  = Some (characters, mentions, c2c) ->
  In ch characters ->
  exists k data,
    character_of_cluster (k, data) = Some ch /\
    data <> [] /\
    map ClusterEntry.text data
    = map Mention.text (filter (has_character (Character.id ch)) mentions).
Proof.
  intros H Hch. apply build_characters_and_mentions_parts in H.
  destruct H as (Ht & -> & _). apply traverse_Forall2 in Ht.
  destruct (Forall2_In_r _ _ _ _ Ht Hch) as ([k data] & Hin & Hc).
  exists k, data. split; [exact Hc|].
  pose proof (scan_entities_inv tokens (parse_tsv_file entities_file))
    as [Hnd _ Hdata _].
  pose proof (scan_entities_links tokens (parse_tsv_file entities_file))
    as [_ _ Htexts].
  split; [now apply (Hdata k)|].
  apply character_of_cluster_fields in Hc. destruct Hc as [-> _].
  rewrite <- mentions_acc_scan, <- Htexts. unfold dict_get_or.
  now rewrite (In_dict_get _ Zeqb_eq _ _ _ Hnd Hin).
Qed.

Lemma filter_filter_andb {A} (p q : A -> bool) (l : list A) :
  filter q (filter p l) = filter (fun x => p x && q x) l.
Proof.
  induction l as [|x l IH]; simpl; [reflexivity|].
  destruct (p x); simpl; [|exact IH]. destruct (q x); now rewrite IH.
Qed.

Lemma filter_map_comm {A B} (p : B -> bool) (f : A -> B) (l : list A) :
  filter p (map f l) = map f (filter (fun x => p (f x)) l).
Proof.
  induction l as [|x l IH]; simpl; [reflexivity|].
  destruct (p (f x)); simpl; now rewrite IH.
Qed.

Section ContractAliases.
Variable sha256_hexdigest : string -> string.
Variable round3 : float -> float.

(** X7: in a contract, the aliases of a Character never include its
    canonical name, carry pairwise distinct texts, and come in order of
    descending count. *)
Theorem aliases_well_formed (output_dir : Dir)
    (document_id original_text : string) (duration_seconds : float)
    (booknlp_version : string) (c : BookNLPContract.t) (ch : Character.t) :
  build_contract sha256_hexdigest round3 output_dir document_id
    original_text duration_seconds booknlp_version = Some c ->
  In ch (BookNLPContract.characters c) ->
  ~ In (Character.canonical_name ch)
      (map CharacterAlias.text (Character.aliases ch)) /\
  NoDup (map CharacterAlias.text (Character.aliases ch)) /\
  StronglySorted
    (fun a b => CharacterAlias.count b <= CharacterAlias.count a)
    (Character.aliases ch).
Proof.
  intros Hc Hch. apply build_contract_Some in Hc.
  destruct Hc as (first & rest & c2c & _ & _ & Hr & _).
  destruct (character_cluster _ _ _ _ _ _ Hr Hch) as (k & data & Hcl & _).
  rewrite (character_of_cluster_aliases _ _ _ Hcl).
  destruct (scan_cluster_counts data) as [Hnd _].
  destruct (aliases_of_spec _ (Character.canonical_name ch) Hnd)
    as (Hin & Hnd' & Hs).
  split; [|split; assumption].
  intros H. apply in_map_iff in H. destruct H as (a & Ha & Hina).
  apply Hin in Hina. now destruct Hina.
Qed.

(** X8: in a contract, the count of an alias of a Character is the
    number of that Character's mentions whose surface text is the alias
    text, and is at least 1; and every mention of the Character has for
    text either the canonical name or one of the aliases. *)
Theorem alias_counts_match_mentions (output_dir : Dir)
    (document_id original_text : string) (duration_seconds : float)
    (booknlp_version : string) (c : BookNLPContract.t) (ch : Character.t) :
  build_contract sha256_hexdigest round3 output_dir document_id
    original_text duration_seconds booknlp_version = Some c ->
  In ch (BookNLPContract.characters c) ->
  (forall a, In a (Character.aliases ch) ->
     1 <= CharacterAlias.count a /\
     CharacterAlias.count a
     = len (filter
              (fun m => has_character (Character.id ch) m
                        && String.eqb (CharacterAlias.text a)
                             (Mention.text m))
              (BookNLPContract.mentions c))) /\
  (forall m, In m (BookNLPContract.mentions c) ->
     Mention.character_id m = Some (Character.id ch) ->
     Mention.text m = Character.canonical_name ch \/
     In (Mention.text m) (map CharacterAlias.text (Character.aliases ch))).
Proof.
  intros Hc Hch. apply build_contract_Some in Hc.
  destruct Hc as (first & rest & c2c & _ & _ & Hr & _).
  destruct (character_cluster _ _ _ _ _ _ Hr Hch)
    as (k & data & Hcl & _ & Htexts).
  rewrite (character_of_cluster_aliases _ _ _ Hcl).
  destruct (scan_cluster_counts data) as [Hnd Hget]. simpl in Hget.
  destruct (aliases_of_spec _ (Character.canonical_name ch) Hnd)
    as (Hin & _ & _).
  assert (Hcount : forall t,
            count_text t (map ClusterEntry.text data)
            = len (filter
                     (fun m => has_character (Character.id ch) m
                               && String.eqb t (Mention.text m))
                     (BookNLPContract.mentions c))).
  { intros t. unfold count_text, len. rewrite Htexts, filter_map_comm.
    now rewrite length_map, filter_filter_andb. }
  split.
  - intros a Ha. apply Hin in Ha. destruct Ha as [Ha _].
    apply (In_dict_get _ Seqb_eq _ _ _ Hnd) in Ha. rewrite Hget in Ha.
    pose proof (count_text_nonneg (CharacterAlias.text a)
                  (map ClusterEntry.text data)).
    destruct (Z.eqb_spec
                (count_text (CharacterAlias.text a)
                   (map ClusterEntry.text data)) 0); [discriminate|].
    injection Ha as Ha. rewrite <- Hcount. lia.
  - intros m Hm Hid.
    destruct (String.eqb_spec (Mention.text m)
                (Character.canonical_name ch)) as [E|Hne]; [now left|].
    right. apply in_map_iff.
    exists (CharacterAlias.mk (Mention.text m)
              (count_text (Mention.text m) (map ClusterEntry.text data))).
    split; [reflexivity|]. apply Hin. simpl. split; [|exact Hne].
    apply (dict_get_In _ Seqb_eq). rewrite Hget.
    assert (Hpos : 0 < count_text (Mention.text m)
                         (map ClusterEntry.text data)).
    { apply count_text_pos. rewrite Htexts. apply in_map.
      apply filter_In. split; [exact Hm|]. unfold has_character.
      rewrite Hid. apply String.eqb_refl. }
    destruct (Z.eqb_spec
                (count_text (Mention.text m) (map ClusterEntry.text data))
                0); [lia|reflexivity].
Qed.
End ContractAliases.

Lemma aliases_well_formed_witness :
  exists c,
    build_contract example_digest example_round example_dir "doc"
      example_text 1.5%float "1.0.8" = Some c /\
    Forall
      (fun ch =>
         ~ In (Character.canonical_name ch)
             (map CharacterAlias.text (Character.aliases ch)) /\
         NoDup (map CharacterAlias.text (Character.aliases ch)) /\
         StronglySorted
           (fun a b => CharacterAlias.count b <= CharacterAlias.count a)
           (Character.aliases ch))
      (BookNLPContract.characters c).
Proof.
  eexists. split; [vm_compute; reflexivity|].
  apply Forall_forall. intros ch Hch.
  eapply (aliases_well_formed example_digest example_round example_dir
            "doc" example_text 1.5%float "1.0.8");
    [vm_compute; reflexivity|exact Hch].
Defined.

Lemma alias_counts_match_mentions_witness :
  exists c,
    build_contract example_digest example_round example_dir "doc"
      example_text 1.5%float "1.0.8" = Some c /\
    Forall
      (fun ch =>
         (forall a, In a (Character.aliases ch) ->
            1 <= CharacterAlias.count a /\
            CharacterAlias.count a
            = len (filter
                     (fun m => has_character (Character.id ch) m
                               && String.eqb (CharacterAlias.text a)
                                    (Mention.text m))
                     (BookNLPContract.mentions c))) /\
         (forall m, In m (BookNLPContract.mentions c) ->
            Mention.character_id m = Some (Character.id ch) ->
            Mention.text m = Character.canonical_name ch \/
            In (Mention.text m)
              (map CharacterAlias.text (Character.aliases ch))))
      (BookNLPContract.characters c).
Proof.
  eexists. split; [vm_compute; reflexivity|].
  apply Forall_forall. intros ch Hch.
  apply (alias_counts_match_mentions example_digest example_round
           example_dir "doc" example_text 1.5%float "1.0.8" _ ch);
    [vm_compute; reflexivity|exact Hch].
Defined.

(** ** The canonical name *)

(** [max] returns the first of the items of greatest count. *)
Lemma max_from_spec (items : list (string * Z)) (best : string * Z) :
  exists l1 l2,
    best :: items = l1 ++ max_from best items :: l2 /\
    Forall (fun x => snd x < snd (max_from best items)) l1 /\
    Forall (fun x => snd x <= snd (max_from best items)) l2.
Proof.
  revert best. induction items as [|x items IH]; intros best; simpl.
  - exists [], []. repeat split; constructor.
  - destruct (Z.ltb_spec (snd best) (snd x)) as [Hlt|Hge].
    + destruct (IH x) as (l1 & l2 & E & H1 & H2).
      exists (best :: l1), l2. split; [simpl; now rewrite E|].
      split; [|exact H2]. constructor; [|exact H1].
      destruct l1 as [|y l1]; simpl in E.
      * injection E as E _. rewrite <- E. exact Hlt.
      * injection E as <- _. inversion H1; subst. lia.
    + destruct (IH best) as (l1 & l2 & E & H1 & H2).
      destruct l1 as [|y l1]; simpl in E.
      * injection E as E1 E2. exists [], (x :: l2).
        split; [simpl; now rewrite <- E1, E2|].
        split; [constructor|]. constructor; [|exact H2].
        rewrite <- E1. exact Hge.
      * injection E as <- E2. exists (best :: x :: l1), l2.
        split; [simpl; do 2 f_equal; exact E2|]. split; [|exact H2].
        inversion H1; subst. constructor; [assumption|].
        constructor; [lia|assumption].
Qed.

Lemma py_max_spec (items : list (string * Z)) (r : string * Z) :
  py_max items = Some r ->
  exists l1 l2,
    items = l1 ++ r :: l2 /\
    Forall (fun x => snd x < snd r) l1 /\
    Forall (fun x => snd x <= snd r) l2.
Proof.
  destruct items as [|x items]; simpl; [discriminate|].
  intros [= <-]. apply max_from_spec.
Qed.

(** The keys of the alias counts only grow at the end. *)
Lemma scan_keys_extend (data : list ClusterEntry.t)
    (acc : dict string Z * string) :
  exists ext,
    keys (fst (fold_left cluster_step data acc)) = keys (fst acc) ++ ext.
Proof.
  revert acc. induction data as [|m data IH]; intros acc; simpl.
  - exists []. now rewrite app_nil_r.
  - destruct (IH (cluster_step acc m)) as [ext ->].
    destruct acc as [ac name]. simpl. rewrite keys_upd.
    destruct (dict_get String.eqb ac (ClusterEntry.text m)).
    + now exists ext.
    + exists (ClusterEntry.text m :: ext). now rewrite <- app_assoc.
Qed.

Lemma first_occurrence {A} (eq_dec : forall a b : A, {a = b} + {a <> b})
    (x : A) (l : list A) :
  In x l -> exists pre post, l = pre ++ x :: post /\ ~ In x pre.
Proof.
  induction l as [|y l IH]; simpl; [easy|]. intros Hin.
  destruct (eq_dec y x) as [->|Hne].
  - exists [], l. split; [reflexivity|easy].
  - destruct Hin as [->|Hin]; [contradiction|].
    destruct (IH Hin) as (pre & post & -> & Hpre).
    exists (y :: pre), post. split; [reflexivity|].
    simpl. intros [H|H]; [contradiction|]. now apply Hpre.
Qed.

Lemma scan_cluster_name_falsy (data : list ClusterEntry.t) :
  Forall (fun e => truthy (ClusterEntry.canonical e) = false) data ->
  snd (scan_cluster data) = "".
Proof.
  unfold scan_cluster. intros H.
  apply (fold_left_inv cluster_step
           (fun pre acc =>
              Forall (fun e => truthy (ClusterEntry.canonical e) = false)
                pre -> snd acc = "")); [reflexivity| |exact H].
  intros pre m [ac name] IH Hall. apply Forall_app in Hall.
  destruct Hall as [Hpre Hm]. inversion Hm; subst. simpl.
  rewrite H2. now apply IH.
Qed.

Lemma NoDup_app_unique {A} (l1 l2 l1' l2' : list A) (x : A) :
  NoDup (l1 ++ x :: l2) -> l1 ++ x :: l2 = l1' ++ x :: l2' -> l1 = l1'.
Proof.
  revert l1'. induction l1 as [|a l1 IH]; intros [|a' l1'] Hnd E;
    simpl in *.
  - reflexivity.
  - injection E as <- E. inversion Hnd as [|? ? Hnotin _]; subst.
    exfalso. apply Hnotin. apply in_or_app. right. now left.
  - injection E as -> E. inversion Hnd as [|? ? Hnotin _]; subst.
    exfalso. apply Hnotin. apply in_or_app. right. now left.
  - injection E as <- E. f_equal. inversion Hnd; subst. now apply IH.
Qed.

(** X9: when entries of a cluster supply a non-empty canonical name, the
    last of them is the canonical name of the Character. *)
Theorem canonical_name_last_supplied (cluster_id : Z)
    (pre post : list ClusterEntry.t) (e : ClusterEntry.t)
    (ch : Character.t) :
  character_of_cluster (cluster_id, pre ++ e :: post) = Some ch ->
  truthy (ClusterEntry.canonical e) = true ->
  Forall (fun e' => truthy (ClusterEntry.canonical e') = false) post ->
  Character.canonical_name ch = ClusterEntry.canonical e.
Proof.
  intros Hc He Hpost.
  pose proof (scan_cluster_last_wins pre post e He Hpost) as Hname.
  unfold character_of_cluster in Hc.
  destruct (scan_cluster (pre ++ e :: post)) as [ac name].
  simpl in Hname. subst name. rewrite He in Hc.
  now injection Hc as <-.
Qed.

(** X10: when no entry of a cluster supplies a canonical name, the
    canonical name of the Character is the surface text met most often
    in the cluster, and of the texts met as often the one met first:
    every text first met before it is strictly less frequent. *)
Theorem canonical_name_most_frequent (cluster_id : Z)
    (data : list ClusterEntry.t) (ch : Character.t) :
  character_of_cluster (cluster_id, data) = Some ch ->
  Forall (fun e => truthy (ClusterEntry.canonical e) = false) data ->
  let texts := map ClusterEntry.text data in
  let name := Character.canonical_name ch in
  (forall t, In t texts -> count_text t texts <= count_text name texts) /\
  exists before after,
    texts = before ++ name :: after /\ ~ In name before /\
    forall t, In t before -> count_text t texts < count_text name texts.
Proof.
  intros Hc Hfalsy texts name.
  pose proof (scan_cluster_name_falsy data Hfalsy) as Hn.
  destruct (scan_cluster_counts data) as [Hnd Hget].
  fold texts in Hget.
  unfold character_of_cluster in Hc.
  destruct (scan_cluster data) as [ac nm] eqn:Esc.
  simpl fst in Hnd, Hget. simpl snd in Hn. subst nm.
  simpl truthy in Hc. cbv iota in Hc.
  destruct (py_max ac) as [[nm n]|] eqn:Emax; [|discriminate].
  simpl in Hc. injection Hc as Hch.
  assert (Ename : name = nm) by (unfold name; now rewrite <- Hch).
  clearbody name. subst nm. clear Hch.
  destruct (py_max_spec _ _ Emax) as (l1 & l2 & Esplit & Hl1 & Hl2).
  simpl snd in Hl1, Hl2.
  assert (Hval : forall t v, In (t, v) ac ->
                             v = count_text t texts /\ In t texts).
  { intros t v Hin. apply (In_dict_get _ Seqb_eq _ _ _ Hnd) in Hin.
    rewrite Hget in Hin.
    pose proof (count_text_nonneg t texts).
    destruct (Z.eqb_spec (count_text t texts) 0); [discriminate|].
    injection Hin as <-. split; [reflexivity|].
    apply count_text_pos. lia. }
  assert (Hkey : forall t, In t texts -> In (t, count_text t texts) ac).
  { intros t Hin. apply (dict_get_In _ Seqb_eq). rewrite Hget.
    apply count_text_pos in Hin.
    destruct (Z.eqb_spec (count_text t texts) 0); [lia|reflexivity]. }
  assert (Hmax : In (name, n) ac)
    by (rewrite Esplit; apply in_or_app; right; now left).
  destruct (Hval _ _ Hmax) as [Hn Hin_name].
  split.
  - intros t Hin. apply Hkey in Hin. rewrite Esplit in Hin.
    apply in_app_or in Hin. rewrite <- Hn.
    rewrite Forall_forall in Hl1, Hl2.
    destruct Hin as [Hin|[Hin|Hin]].
    + apply Hl1 in Hin. simpl in Hin. lia.
    + injection Hin as _ <-. lia.
    + apply Hl2 in Hin. simpl in Hin. lia.
  - destruct (first_occurrence string_dec name texts Hin_name)
      as (before & after & Etexts & Hnotin).
    exists before, after. split; [exact Etexts|]. split; [exact Hnotin|].
    intros t Ht.
    (* the keys met in [before] come ahead of [name] among the keys *)
    unfold texts in Etexts. apply map_eq_app in Etexts.
    destruct Etexts as (d1 & d2' & Edata & Ed1 & Ed2).
    destruct d2' as [|m d2]; [discriminate|]. simpl in Ed2.
    injection Ed2 as Em Ed2.
    assert (Hkeys : exists ext,
              keys ac
              = keys (fst (scan_cluster d1)) ++ name :: ext).
    { change ac with (fst (ac, "")). rewrite <- Esc.
      unfold scan_cluster. rewrite Edata, fold_left_app. simpl.
      destruct (scan_keys_extend d2
                  (cluster_step (fold_left cluster_step d1 ([], "")) m))
        as [ext ->].
      destruct (fold_left cluster_step d1 ([], "")) as [ac1 nm1] eqn:E1.
      simpl. rewrite keys_upd, Em.
      destruct (dict_get String.eqb ac1 name) eqn:Eg.
      - exfalso. apply Hnotin. rewrite <- Ed1.
        destruct (scan_cluster_counts d1) as [_ Hget1].
        unfold scan_cluster in Hget1. rewrite E1 in Hget1. simpl in Hget1.
        rewrite Hget1 in Eg. apply count_text_pos.
        pose proof (count_text_nonneg name (map ClusterEntry.text d1)).
        destruct (Z.eqb_spec (count_text name (map ClusterEntry.text d1)) 0);
          [discriminate|lia].
      - exists ext. now rewrite <- app_assoc. }
    destruct Hkeys as [ext Hkeys].
    assert (Hl1keys : map fst l1 = keys (fst (scan_cluster d1))).
    { apply (NoDup_app_unique _ (map fst l2) _ ext name).
      - change (map fst l1 ++ name :: map fst l2)
          with (map fst l1 ++ map fst ((name, n) :: l2)).
        rewrite <- map_app, <- Esplit. exact Hnd.
      - rewrite <- Hkeys, Esplit. unfold keys. now rewrite map_app. }
    assert (Ht1 : In t (map fst l1)).
    { rewrite Hl1keys. destruct (scan_cluster_counts d1) as [_ Hget1].
      simpl in Hget1. specialize (Hget1 t). rewrite Ed1 in Hget1.
      apply count_text_pos in Ht.
      destruct (Z.eqb_spec (count_text t before) 0); [lia|].
      apply (dict_get_In _ Seqb_eq) in Hget1.
      apply (in_map fst) in Hget1. exact Hget1. }
    apply in_map_iff in Ht1. destruct Ht1 as ([t' v] & Et' & Hin1).
    simpl in Et'. subst t'.
    assert (Hin_all : In (t, v) ac)
      by (rewrite Esplit; apply in_or_app; now left).
    destruct (Hval _ _ Hin_all) as [-> _].
    rewrite Forall_forall in Hl1. apply Hl1 in Hin1. simpl in Hin1. lia.
Qed.

(** A cluster whose entries name it twice, then not. *)
Definition example_cluster_named : list ClusterEntry.t :=
  [ ClusterEntry.mk "Tom" "PROP" "Tom Sawyer";
    ClusterEntry.mk "he" "PRON" "";
    ClusterEntry.mk "Tom" "PROP" "Thomas Sawyer";
    ClusterEntry.mk "the boy" "NOM" "" ].

(** A cluster none of whose entries names it; "Tom" and "the boy" are
    met twice each, "Tom" first. *)
Definition example_cluster_unnamed : list ClusterEntry.t :=
  [ ClusterEntry.mk "he" "PRON" "";
    ClusterEntry.mk "Tom" "PROP" "";
    ClusterEntry.mk "the boy" "NOM" "";
    ClusterEntry.mk "the boy" "NOM" "";
    ClusterEntry.mk "Tom" "PROP" "" ].

Lemma canonical_name_last_supplied_witness :
  exists ch,
    character_of_cluster (5, example_cluster_named) = Some ch /\
    Character.canonical_name ch = "Thomas Sawyer".
Proof.
  eexists. split; [vm_compute; reflexivity|].
  apply (canonical_name_last_supplied 5
           [ClusterEntry.mk "Tom" "PROP" "Tom Sawyer";
            ClusterEntry.mk "he" "PRON" ""]
           [ClusterEntry.mk "the boy" "NOM" ""]
           (ClusterEntry.mk "Tom" "PROP" "Thomas Sawyer")).
  - vm_compute. reflexivity.
  - reflexivity.
  - repeat constructor.
Defined.

Lemma canonical_name_most_frequent_witness :
  exists ch,
    character_of_cluster (5, example_cluster_unnamed) = Some ch /\
    Character.canonical_name ch = "Tom" /\
    (forall t, In t (map ClusterEntry.text example_cluster_unnamed) ->
       count_text t (map ClusterEntry.text example_cluster_unnamed)
       <= count_text (Character.canonical_name ch)
            (map ClusterEntry.text example_cluster_unnamed)) /\
    exists before after,
      map ClusterEntry.text example_cluster_unnamed
      = before ++ Character.canonical_name ch :: after /\
      ~ In (Character.canonical_name ch) before /\
      forall t, In t before ->
        count_text t (map ClusterEntry.text example_cluster_unnamed)
        < count_text (Character.canonical_name ch)
            (map ClusterEntry.text example_cluster_unnamed).
Proof.
  eexists. split; [vm_compute; reflexivity|]. split; [reflexivity|].
  apply (canonical_name_most_frequent 5 example_cluster_unnamed).
  - vm_compute. reflexivity.
  - repeat constructor.
Defined.

(** ** The chains partition the resolved mentions *)

Lemma concat_upd_perm {W} (d : dict string (list W)) (k : string) (v : W) :
  Permutation
    (concat (map snd (dict_upd String.eqb d k [] (fun vs => vs ++ [v]))))
    (concat (map snd d) ++ [v]).
Proof.
  induction d as [|[k0 v0] d IH]; simpl; [reflexivity|].
  destruct (String.eqb k k0); simpl.
  - rewrite <- !app_assoc. apply Permutation_app_head.
    apply Permutation_app_comm.
  - rewrite <- app_assoc. now apply Permutation_app_head.
Qed.

Lemma group_concat_perm {X W} (key : X -> option string) (val : X -> W)
    (l : list X) :
  Permutation
    (concat (map snd (fold_left (group_step key val) l [])))
    (map val
       (filter (fun x => match key x with Some _ => true | None => false end)
          l)).
Proof.
  apply (fold_left_inv (group_step key val)
           (fun pre d =>
              Permutation (concat (map snd d))
                (map val
                   (filter
                      (fun x => match key x with
                                | Some _ => true
                                | None => false
                                end) pre)))).
  - reflexivity.
  - intros pre x d IH. rewrite filter_app, map_app. simpl.
    unfold group_step. destruct (key x) as [k|]; simpl.
    + rewrite concat_upd_perm. now apply Permutation_app_tail.
    + now rewrite app_nil_r.
Qed.

(** X11: the chains partition the resolved mentions: listing the
    mention ids of all the chains gives, up to order, the ids of the
    mentions whose [character_id] is neither null nor empty, each as many
    times as it is in the Mention list; and no chain is empty. *)
Theorem chains_partition_mentions (mentions : list Mention.t)
    (c2c : dict Z string) :
  let chains := build_coref_chains mentions c2c in
  Permutation
    (concat (map CorefChain.mentions chains))
    (map Mention.id
       (filter (fun m => truthy_opt (Mention.character_id m)) mentions)) /\
  Forall (fun chain => CorefChain.mentions chain <> []) chains.
Proof.
  intros chains. subst chains. split.
  - unfold build_coref_chains. rewrite map_map. simpl.
    rewrite chains_by_char_group, group_concat_perm.
    apply Permutation_refl'. f_equal. apply filter_ext. intros m.
    unfold chain_key, truthy_opt.
    destruct (Mention.character_id m) as [s|]; [|reflexivity].
    now destruct (truthy s).
  - apply Forall_forall. intros chain Hin.
    apply In_build_coref_chains in Hin.
    destruct Hin as (s & _ & (m & Hm & Hs) & ->). simpl. intros E.
    apply map_eq_nil in E.
    assert (Hf : In m (filter (has_character s) mentions)).
    { apply filter_In. split; [exact Hm|]. unfold has_character.
      rewrite Hs. apply String.eqb_refl. }
    now rewrite E in Hf.
Qed.

(** ** Sentence count *)

Lemma fold_max_bounds (l : list Z) (a : Z) :
  a <= fold_left Z.max l a /\
  (forall x, In x l -> x <= fold_left Z.max l a) /\
  (fold_left Z.max l a = a \/ In (fold_left Z.max l a) l).
Proof.
  revert a. induction l as [|y l IH]; intros a; simpl.
  - split; [lia|]. split; [easy|now left].
  - destruct (IH (Z.max a y)) as (H1 & H2 & H3). split; [lia|]. split.
    + intros x [->|Hx]; [lia|now apply H2].
    + destruct H3 as [H3|H3]; [|right; now right].
      rewrite H3. destruct (Z.max_spec a y) as [[_ ->]|[_ ->]];
        [right; now left|now left].
Qed.

(** X12: [sentence_count] is 0 for an empty token sequence; otherwise
    it is one more than the sentence index of some token, and greater
    than the sentence index of every token. *)
Theorem sentence_count_bounds (tokens : list Token.t) :
  (tokens = [] -> sentence_count_of tokens = 0) /\
  (tokens <> [] ->
   exists t, In t tokens /\
             sentence_count_of tokens = Token.sentence_idx t + 1) /\
  (forall t, In t tokens -> Token.sentence_idx t < sentence_count_of tokens).
Proof.
  split; [now intros ->|].
  destruct tokens as [|t0 ts]; [split; [easy|intros t []]|].
  unfold sentence_count_of.
  destruct (fold_max_bounds (map Token.sentence_idx ts)
              (Token.sentence_idx t0)) as (H1 & H2 & H3).
  split.
  - intros _. destruct H3 as [H3|H3].
    + exists t0. split; [now left|]. now rewrite H3.
    + apply in_map_iff in H3. destruct H3 as (t & Ht & Hin).
      exists t. split; [now right|]. now rewrite Ht.
  - intros t [<-|Hin]; [lia|].
    specialize (H2 (Token.sentence_idx t) (in_map _ _ _ Hin)). lia.
Qed.

(** ** 4.1 Tabular reader: properties *)

(** The number of occurrences of a character in a text. *)
Fixpoint count_char (c : ascii) (s : string) : nat :=
  match s with
  | "" => 0
  | String a s' => (if Ascii.eqb a c then 1 else 0) + count_char c s'
  end.

Lemma split_length (sep : ascii) (s : string) :
  length (split sep s) = S (count_char sep s).
Proof.
  induction s as [|a s IH]; simpl; [reflexivity|].
  destruct (Ascii.eqb a sep); simpl; [now rewrite IH|].
  destruct (split sep s); simpl in *; [discriminate|exact IH].
Qed.

(** X13: a file that does not exist gives no row; a file that exists
    gives one row per line break of its text once stripped of the white
    space around it, so an empty file, a blank one or one with the
    header alone gives none. *)
Theorem parse_tsv_file_row_count (content : string) :
  parse_tsv_file None = [] /\
  length (parse_tsv_file (Some content))
  = count_char newline (strip content) /\
  (strip content = "" -> parse_tsv_file (Some content) = []).
Proof.
  split; [reflexivity|]. split.
  - unfold parse_tsv_file.
    pose proof (split_length newline (strip content)) as H.
    destruct (split newline (strip content)); [discriminate|].
    rewrite length_map. simpl in H. lia.
  - intros H. unfold parse_tsv_file. now rewrite H.
Qed.

Lemma dict_get_set (d : Row) (k k' v : string) :
  dict_get String.eqb (dict_set String.eqb d k v) k'
  = if String.eqb k' k then Some v else dict_get String.eqb d k'.
Proof. unfold dict_set. apply (dict_get_upd _ Seqb_eq). Qed.

Lemma make_row_step (h : string) (hs parts : list string) (acc : Row) :
  make_row (h :: hs) parts acc
  = make_row hs (tl parts) (dict_set String.eqb acc h (hd "" parts)).
Proof. now destruct parts. Qed.

Lemma make_row_keys (hs parts : list string) (acc : Row) :
  (NoDup (keys acc) -> NoDup (keys (make_row hs parts acc))) /\
  forall k, In k (keys (make_row hs parts acc)) <->
            In k (keys acc) \/ In k hs.
Proof.
  revert parts acc. induction hs as [|h hs IH]; intros parts acc.
  - simpl. split; [easy|]. intros k. tauto.
  - rewrite make_row_step.
    destruct (IH (tl parts) (dict_set String.eqb acc h (hd "" parts)))
      as [IH1 IH2].
    split.
    + intros Hnd. apply IH1. unfold dict_set.
      now apply NoDup_keys_upd; [apply Seqb_eq|].
    + intros k. rewrite IH2. unfold dict_set.
      rewrite (In_keys_upd _ Seqb_eq). simpl. intuition congruence.
Qed.

Lemma make_row_get_other (hs parts : list string) (acc : Row) (k : string) :
  ~ In k hs ->
  dict_get String.eqb (make_row hs parts acc) k = dict_get String.eqb acc k.
Proof.
  revert parts acc. induction hs as [|h hs IH]; intros parts acc Hk;
    [reflexivity|].
  rewrite make_row_step, IH, dict_get_set.
  - destruct (String.eqb_spec k h) as [->|_]; [|reflexivity].
    exfalso. apply Hk. now left.
  - intros H. apply Hk. now right.
Qed.

Lemma nth_tl {A} (l : list A) (i : nat) (d : A) :
  nth i (tl l) d = nth (S i) l d.
Proof. destruct l; [now destruct i|reflexivity]. Qed.

(** The field under a header is the part at the last position where
    the header stands, or the empty string when the line is too short. *)
Lemma make_row_get (hs parts : list string) (acc : Row) (i : nat)
    (h : string) :
  nth_error hs i = Some h ->
  (forall j, (i < j)%nat -> nth_error hs j <> Some h) ->
  dict_get String.eqb (make_row hs parts acc) h = Some (nth i parts "").
Proof.
  revert parts acc i. induction hs as [|h0 hs IH]; intros parts acc i Hi Hlast.
  - now destruct i.
  - rewrite make_row_step. destruct i as [|i]; simpl in Hi.
    + injection Hi as ->. rewrite make_row_get_other, dict_get_set.
      * rewrite String.eqb_refl. now destruct parts.
      * intros Hin. apply In_nth_error in Hin. destruct Hin as [j Hj].
        apply (Hlast (S j)); [lia|exact Hj].
    + rewrite (IH _ _ i Hi), nth_tl; [reflexivity|].
      intros j Hj. apply (Hlast (S j)). lia.
Qed.

(** X14: every row of a parsed table has all the header names as its
    keys, each once, and no other key: [row.get(name, default)] yields
    the default exactly for a name that is not in the header line, also
    on a line with fewer fields than the header. *)
Theorem parse_tsv_file_keys (content : string) :
  let headers := split tab (hd "" (split newline (strip content))) in
  Forall
    (fun row =>
       NoDup (keys row) /\
       (forall name, In name (keys row) <-> In name headers) /\
       (forall name dflt, ~ In name headers -> get row name dflt = dflt) /\
       (forall name dflt, In name headers ->
          exists v, dict_get String.eqb row name = Some v /\
                    get row name dflt = v))
    (parse_tsv_file (Some content)).
Proof.
  intros headers. subst headers. unfold parse_tsv_file.
  destruct (split newline (strip content)) as [|header lines];
    [constructor|]. simpl hd.
  apply Forall_forall. intros row Hrow. apply in_map_iff in Hrow.
  destruct Hrow as (line & <- & _).
  destruct (make_row_keys (split tab header) (split tab line) [])
    as [Hnd Hkeys].
  assert (Hk : forall name,
            In name (keys (make_row (split tab header) (split tab line) []))
            <-> In name (split tab header)).
  { intros name. rewrite Hkeys. simpl. tauto. }
  split; [apply Hnd; constructor|]. split; [exact Hk|]. split.
  - intros name dflt Hn. unfold get, dict_get_or.
    rewrite make_row_get_other; [reflexivity|exact Hn].
  - intros name dflt Hn. unfold get, dict_get_or.
    destruct (dict_get String.eqb
                (make_row (split tab header) (split tab line) []) name)
      as [v|] eqn:E; [now exists v|].
    apply (dict_get_None _ Seqb_eq) in E. exfalso. apply E. now apply Hk.
Qed.

(** X15: in the row of a line, the field under a header is the part of
    the line at the position of the header (the last one, should the
    header line repeat the name), or the empty string when the line has
    no part there. *)
Theorem parse_tsv_file_cell (content line h : string) (j i : nat) :
  let lines := split newline (strip content) in
  let headers := split tab (hd "" lines) in
  nth_error (tl lines) j = Some line ->
  nth_error headers i = Some h ->
  (forall i', (i < i')%nat -> nth_error headers i' <> Some h) ->
  exists row,
    nth_error (parse_tsv_file (Some content)) j = Some row /\
    dict_get String.eqb row h = Some (nth i (split tab line) "").
Proof.
  intros lines headers. subst lines headers. unfold parse_tsv_file.
  destruct (split newline (strip content)) as [|header lines];
    [now destruct j|].
  simpl hd. simpl tl. intros Hline Hh Hlast.
  eexists. split.
  - rewrite nth_error_map, Hline. reflexivity.
  - now apply make_row_get.
Qed.

Lemma parse_tsv_file_cell_witness :
  exists row,
    nth_error (parse_tsv_file (Some example_entities)) 3 = Some row /\
    dict_get String.eqb row "text" = Some "Mr. Sawyer".
Proof.
  apply (parse_tsv_file_cell example_entities
           (String.concat (String tab "")
              ["5"; "8"; "9"; "PROP"; "PER"; "Mr. Sawyer"])
           "text" 3 5).
  - vm_compute. reflexivity.
  - vm_compute. reflexivity.
  - intros i' Hi'. do 6 (destruct i' as [|i']; [lia|]).
    vm_compute. destruct i'; discriminate.
Defined.

(** ** Quotes without entities *)

Lemma resolve_speaker_empty (names : dict string string) (speaker : string) :
  resolve_speaker [] names speaker = (None, None).
Proof.
  unfold resolve_speaker. destruct (_ && _); [|reflexivity].
  now destruct (py_int speaker).
Qed.

Section ContractNoEntities.
Variable sha256_hexdigest : string -> string.
Variable round3 : float -> float.

(** X16: when the output directory has no entity table, the contract
    still lists the quotes, each with a null [speaker_id] and a null
    [speaker_name], whatever the speaker fields of the quote table say. *)
Theorem quotes_without_entities (output_dir : Dir)
    (document_id original_text : string) (duration_seconds : float)
    (booknlp_version : string) (c : BookNLPContract.t)
    (first : string) (rest : list string) :
  build_contract sha256_hexdigest round3 output_dir document_id
    original_text duration_seconds booknlp_version = Some c ->
  glob_tokens output_dir = first :: rest ->
  read_file output_dir (stem first ++ ".entities") = None ->
  BookNLPContract.quotes c
  = build_quotes (read_file output_dir (stem first ++ ".quotes"))
      (BookNLPContract.tokens c) [] [] /\
  Forall (fun q => Quote.speaker_id q = None /\ Quote.speaker_name q = None)
    (BookNLPContract.quotes c).
Proof.
  intros Hc Hglob Hnone. apply build_contract_Some in Hc.
  destruct Hc as (first' & rest' & c2c & Hg & _ & Hr & _ & Hq).
  rewrite Hglob in Hg. injection Hg as <- <-.
  rewrite Hnone in Hr. injection Hr as Hcs _ Hc2c.
  rewrite <- Hcs, <- Hc2c in Hq. split; [exact Hq|].
  rewrite Hq. apply Forall_forall. intros q Hin.
  apply In_build_quotes in Hin. destruct Hin as (ir & _ & Hin).
  apply quote_of_row_speaker in Hin.
  rewrite resolve_speaker_empty in Hin. now injection Hin as -> ->.
Qed.
End ContractNoEntities.

(** The worked document without its entity table. *)
Definition example_dir_no_entities : Dir :=
  [ ("doc.tokens", example_tokens);
    ("doc.quotes", example_quotes) ].

Lemma quotes_without_entities_witness :
  exists c,
    build_contract example_digest example_round example_dir_no_entities
      "doc" example_text 1.5%float "1.0.8" = Some c /\
    BookNLPContract.quotes c
    = build_quotes (read_file example_dir_no_entities "doc.quotes")
        (BookNLPContract.tokens c) [] [] /\
    Forall
      (fun q => Quote.speaker_id q = None /\ Quote.speaker_name q = None)
      (BookNLPContract.quotes c).
Proof.
  eexists. split; [vm_compute; reflexivity|].
  apply (quotes_without_entities example_digest example_round
           example_dir_no_entities "doc" example_text 1.5%float "1.0.8"
           _ "doc.tokens" []).
  - vm_compute. reflexivity.
  - reflexivity.
  - reflexivity.
Defined.

(** * The HTTP service's table reader ([scripts/booknlp_service.py]) *)

(** The characters at which [str.splitlines] breaks, below 256. *)
Definition is_linebreak (c : ascii) : bool :=
  let n := nat_of_ascii c in
  ((10 <=? n) && (n <=? 13) || (28 <=? n) && (n <=? 30) || (n =? 133))%nat.

Definition carriage_return : ascii := ascii_of_nat 13.

(** [s.splitlines()]: a carriage return followed by a line feed is one
    break, and a break at the very end opens no further line. *)
Fixpoint splitlines (s : string) : list string :=
  match s with
  | "" => []
  | String c s' =>
      if is_linebreak c then
        match s' with
        | String n s'' =>
            if Ascii.eqb c carriage_return && Ascii.eqb n newline
            then "" :: splitlines s''
            else "" :: splitlines s'
        | "" => [""]
        end
      else match splitlines s' with
           | [] => [String c ""]
           | l :: ls => String c l :: ls
           end
  end.

(** [parse_tsv(path)] on the text of the file. *)
Definition parse_tsv (content : string) : list Row :=
  match splitlines content with
  | [] => []
  | header :: lines =>
      let headers := split tab header in
      map (fun line => make_row headers (split tab line) []) lines
  end.

Fixpoint last_char (s : string) : option ascii :=
  match s with
  | "" => None
  | String c s' =>
      match s' with
      | "" => Some c
      | _ => last_char s'
      end
  end.

Fixpoint string_forall (p : ascii -> bool) (s : string) : bool :=
  match s with
  | "" => true
  | String c s' => p c && string_forall p s'
  end.

(** The text breaks lines with line feeds only. *)
Definition only_newlines (s : string) : bool :=
  string_forall (fun c => negb (is_linebreak c) || Ascii.eqb c newline) s.

Lemma rstrip_by_last (space : ascii -> bool) (s : string) :
  match last_char (rstrip_by space s) with
  | Some c => space c = false
  | None => True
  end.
Proof.
  induction s as [|c s IH]; simpl; [exact I|].
  destruct (rstrip_by space s) as [|a r] eqn:E.
  - destruct (space c) eqn:Ec; simpl; [exact I|exact Ec].
  - exact IH.
Qed.

Lemma splitlines_split (s : string) :
  only_newlines s = true -> s <> "" -> last_char s <> Some newline ->
  splitlines s = split newline s.
Proof.
  induction s as [|c s IH]; [easy|]. intros Hplain _ Hlast.
  unfold only_newlines in Hplain. simpl in Hplain.
  apply andb_true_iff in Hplain. destruct Hplain as [Hc Hs].
  simpl splitlines. simpl split.
  destruct (Ascii.eqb_spec c newline) as [->|Hne].
  - change (is_linebreak newline) with true. cbv iota.
    destruct s as [|n s]; [now destruct Hlast|].
    change (Ascii.eqb newline carriage_return) with false. simpl andb.
    cbv iota. f_equal. apply IH; [exact Hs|discriminate|exact Hlast].
  - rewrite orb_false_r in Hc. apply negb_true_iff in Hc. rewrite Hc.
    destruct s as [|n s]; [reflexivity|].
    rewrite IH; [|exact Hs|discriminate|exact Hlast].
    reflexivity.
Qed.

(** X17: on a text that has no white space around it and breaks lines
    with line feeds only, the service's [parse_tsv] and the runner's
    [parse_tsv_file] read the same rows. *)
Theorem parse_tsv_agrees (content : string) :
  strip content = content ->
  only_newlines content = true ->
  parse_tsv content = parse_tsv_file (Some content).
Proof.
  intros Hstrip Hplain. unfold parse_tsv, parse_tsv_file. rewrite Hstrip.
  destruct content as [|c s]; [reflexivity|].
  rewrite splitlines_split; [reflexivity|exact Hplain|discriminate|].
  pose proof (rstrip_by_last is_space (lstrip_by is_space (String c s)))
    as H.
  fold (strip (String c s)) in H. rewrite Hstrip in H.
  intros E. rewrite E in H. discriminate.
Qed.

Lemma parse_tsv_agrees_witness :
  parse_tsv example_entities = parse_tsv_file (Some example_entities).
Proof.
  apply (parse_tsv_agrees example_entities); vm_compute; reflexivity.
Defined.

(** * The dependency-parser service ([scripts/parser_service.py]) *)

(** What the service reads of a spaCy token: [head_i] is
    [token.head.i]. *)
Module SpacyToken.
Record t := mk {
  i : Z;
  text : string;
  lemma_ : string;
  pos_ : string;
  tag_ : string;
  dep_ : string;
  head_i : Z;
  idx : Z;
  ent_type_ : string;
  ent_iob_ : string
}.
End SpacyToken.

(** What the service reads of a sentence span: [tokens] is what
    iterating over the span yields. *)
Module Span.
Record t := mk {
  start : Z;
  start_char : Z;
  end_char : Z;
  tokens : list SpacyToken.t
}.
End Span.

Module TokenPayload.
Record t := mk {
  i : Z;
  text : string;
  lemma : string;
  pos : string;
  tag : string;
  dep : string;
  head : Z;
  start : Z;
  end_ : Z;
  ent : string
}.
End TokenPayload.

Module SentencePayload.
Record t := mk {
  sentence_index : Z;
  start : Z;
  end_ : Z;
  tokens : list TokenPayload.t
}.
End SentencePayload.

Definition token_payload (token : SpacyToken.t) (sentence_start : Z)
    (local_index : Z) : TokenPayload.t :=
  {| TokenPayload.i := local_index;
     TokenPayload.text := SpacyToken.text token;
     TokenPayload.lemma := SpacyToken.lemma_ token;
     TokenPayload.pos := SpacyToken.pos_ token;
     TokenPayload.tag := SpacyToken.tag_ token;
     TokenPayload.dep := SpacyToken.dep_ token;
     TokenPayload.head := SpacyToken.head_i token - sentence_start;
     TokenPayload.start := SpacyToken.idx token;
     TokenPayload.end_ :=
       SpacyToken.idx token
       + Z.of_nat (String.length (SpacyToken.text token));
     TokenPayload.ent :=
       if negb (SpacyToken.ent_iob_ token =? "O")%string
       then SpacyToken.ent_type_ token
       else "" |}.

(** The body of the loop of [parse] over [enumerate(doc.sents)]. *)
Definition sentence_payload (item : Z * Span.t) : SentencePayload.t :=
  let (idx, sent) := item in
  let sentence_start := Span.start sent in
  {| SentencePayload.sentence_index := idx;
     SentencePayload.start := Span.start_char sent;
     SentencePayload.end_ := Span.end_char sent;
     SentencePayload.tokens :=
       map (fun lt => token_payload (snd lt) sentence_start (fst lt))
         (enumerate (Span.tokens sent)) |}.

(** [parse], from the sentences of the parsed document on. *)
Definition parse (doc_sents : list Span.t) : list SentencePayload.t :=
  map sentence_payload (enumerate doc_sents).

Lemma enumerate_nth {A} (l : list A) (n : nat) :
  nth_error (enumerate l) n
  = option_map (fun x => (Z.of_nat n, x)) (nth_error l n).
Proof.
  unfold enumerate.
  destruct (nth_error (enumerate_from 0 l) n) as [[k x]|] eqn:E.
  - apply enumerate_from_nth in E. simpl in E. destruct E as [-> ->].
    reflexivity.
  - apply nth_error_None in E. rewrite enumerate_from_length in E.
    apply nth_error_None in E. now rewrite E.
Qed.

Lemma parse_nth (doc_sents : list Span.t) (p : nat) :
  nth_error (parse doc_sents) p
  = option_map (fun sent => sentence_payload (Z.of_nat p, sent))
      (nth_error doc_sents p).
Proof.
  unfold parse. rewrite nth_error_map, enumerate_nth.
  now destruct (nth_error doc_sents p).
Qed.

Lemma sentence_payload_nth (idx : Z) (sent : Span.t) (j : nat) :
  nth_error (SentencePayload.tokens (sentence_payload (idx, sent))) j
  = option_map
      (fun tok => token_payload tok (Span.start sent) (Z.of_nat j))
      (nth_error (Span.tokens sent) j).
Proof.
  simpl. rewrite nth_error_map, enumerate_nth.
  now destruct (nth_error (Span.tokens sent) j).
Qed.

(** X18: [parse] answers with one sentence per sentence of the
    document, in order: the p-th payload has [sentence_index = p], the
    character span of the p-th sentence and one token payload per token
    of that sentence, in order; the j-th token payload is built from the
    j-th token: its [i] is [j], its text, lemma, pos, tag and dep are the
    token's, its [head] is the index of the token's head less the start
    of the sentence, its [start] is the token's offset and its [end] the
    offset plus the length of the token text, and its [ent] is the
    entity type unless the token is outside every entity. *)
Theorem parse_positions (doc_sents : list Span.t) :
  length (parse doc_sents) = length doc_sents /\
  forall p sent,
    nth_error doc_sents p = Some sent ->
    exists s,
      nth_error (parse doc_sents) p = Some s /\
      SentencePayload.sentence_index s = Z.of_nat p /\
      SentencePayload.start s = Span.start_char sent /\
      SentencePayload.end_ s = Span.end_char sent /\
      length (SentencePayload.tokens s) = length (Span.tokens sent) /\
      forall j tok,
        nth_error (Span.tokens sent) j = Some tok ->
        exists t,
          nth_error (SentencePayload.tokens s) j = Some t /\
          TokenPayload.i t = Z.of_nat j /\
          TokenPayload.text t = SpacyToken.text tok /\
          TokenPayload.lemma t = SpacyToken.lemma_ tok /\
          TokenPayload.pos t = SpacyToken.pos_ tok /\
          TokenPayload.tag t = SpacyToken.tag_ tok /\
          TokenPayload.dep t = SpacyToken.dep_ tok /\
          TokenPayload.head t = SpacyToken.head_i tok - Span.start sent /\
          TokenPayload.start t = SpacyToken.idx tok /\
          TokenPayload.end_ t
          = SpacyToken.idx tok
            + Z.of_nat (String.length (SpacyToken.text tok)) /\
          TokenPayload.start t <= TokenPayload.end_ t /\
          TokenPayload.ent t
          = if (SpacyToken.ent_iob_ tok =? "O")%string then ""
            else SpacyToken.ent_type_ tok.
Proof.
  split.
  - unfold parse, enumerate.
    now rewrite length_map, enumerate_from_length.
  - intros p sent Hsent.
    exists (sentence_payload (Z.of_nat p, sent)).
    split; [now rewrite parse_nth, Hsent|].
    split; [reflexivity|]. split; [reflexivity|]. split; [reflexivity|].
    split.
    + simpl. unfold enumerate.
      now rewrite length_map, enumerate_from_length.
    + intros j tok Htok.
      exists (token_payload tok (Span.start sent) (Z.of_nat j)).
      split; [now rewrite sentence_payload_nth, Htok|].
      simpl. repeat (split; [reflexivity|]). split; [lia|].
      now destruct (SpacyToken.ent_iob_ tok =? "O")%string.
Qed.

(** X19: when the tokens of a sentence are consecutive tokens of the
    document, starting at the start of the sentence, the [head] of a
    token payload is the [i] of the payload of its head: a token whose
    head is the k-th token of the sentence has [head = k], and a token
    that is its own head has [head = i]. *)
Theorem head_is_local_index (idx : Z) (sent : Span.t) (j k : nat)
    (tok tok_k : SpacyToken.t) (t : TokenPayload.t) :
  (forall n x, nth_error (Span.tokens sent) n = Some x ->
               SpacyToken.i x = Span.start sent + Z.of_nat n) ->
  nth_error (Span.tokens sent) j = Some tok ->
  nth_error (Span.tokens sent) k = Some tok_k ->
  SpacyToken.head_i tok = SpacyToken.i tok_k ->
  nth_error (SentencePayload.tokens (sentence_payload (idx, sent))) j
  = Some t ->
  TokenPayload.head t = Z.of_nat k /\
  (k = j -> TokenPayload.head t = TokenPayload.i t).
Proof.
  intros Hcons Hj Hk Hhead Ht. rewrite sentence_payload_nth, Hj in Ht.
  injection Ht as <-. simpl. rewrite Hhead, (Hcons _ _ Hk).
  split; [lia|]. intros ->. lia.
Qed.

(** The second sentence of a document: "Tom hid ." at tokens 3 to 5. *)
Definition example_span : Span.t :=
  {| Span.start := 3;
     Span.start_char := 9;
     Span.end_char := 17;
     Span.tokens :=
       [ SpacyToken.mk 3 "Tom" "Tom" "PROPN" "NNP" "nsubj" 4 9 "PERSON" "B";
         SpacyToken.mk 4 "hid" "hide" "VERB" "VBD" "ROOT" 4 13 "" "O";
         SpacyToken.mk 5 "." "." "PUNCT" "." "punct" 4 16 "" "O" ] |}.

Lemma head_is_local_index_witness :
  exists t,
    nth_error
      (SentencePayload.tokens (sentence_payload (1, example_span))) 0
    = Some t /\
    TokenPayload.head t = 1.
Proof.
  eexists. split; [reflexivity|].
  eapply (head_is_local_index 1 example_span 0 1).
  - intros n x Hn. simpl in Hn.
    do 3 (destruct n as [|n];
          [injection Hn as <-; reflexivity|simpl in Hn]).
    now destruct n.
  - reflexivity.
  - reflexivity.
  - reflexivity.
  - reflexivity.
Defined.

(** ** The canonical name when the table has no [name] column *)

(** Without a [name] key in the rows, the ["canonical"] of the entries
    of a cluster are the surface texts of its mentions. *)
Lemma scan_entities_canonical (tokens : list Token.t) (rows : list Row) :
  Forall (fun row => dict_get String.eqb row "name" = None) rows ->
  forall k,
    map ClusterEntry.canonical
      (dict_get_or Z.eqb (cluster_mentions (scan_entities tokens rows)) k [])
    = map Mention.text
        (filter (has_character (char_id_of k))
           (mentions_acc (scan_entities tokens rows))).
Proof.
  intros Hrows. unfold scan_entities.
  assert (Hen : Forall (fun ir : Z * Row =>
                          dict_get String.eqb (snd ir) "name" = None)
                  (enumerate rows)).
  { apply Forall_forall. intros ir Hin.
    apply enumerate_from_In_inv in Hin. destruct Hin as (n & _ & Hn).
    apply nth_error_In in Hn. rewrite Forall_forall in Hrows.
    now apply Hrows. }
  revert Hen.
  apply (fold_left_inv (entity_step tokens)
           (fun pre st =>
              Forall (fun ir : Z * Row =>
                        dict_get String.eqb (snd ir) "name" = None) pre ->
              forall k,
                map ClusterEntry.canonical
                  (dict_get_or Z.eqb (cluster_mentions st) k [])
                = map Mention.text
                    (filter (has_character (char_id_of k))
                       (mentions_acc st)))).
  - reflexivity.
  - intros pre [i row] st IH Hall k'. apply Forall_app in Hall.
    destruct Hall as [Hpre Hrow]. inversion Hrow as [|? ? Hname _]; subst.
    simpl in Hname. specialize (IH Hpre).
    destruct (entity_step_cases tokens st i row)
      as [[_ ->]|(m & entry & _ & _ & Hcanon &
                  [(k & Hk & Hm & ->)|[Hm ->]])];
      [apply IH| |]; simpl.
    + unfold dict_get_or at 1.
      rewrite (dict_get_upd _ Zeqb_eq), filter_app, map_app. simpl.
      rewrite (has_character_char_id k' k m Hm).
      rewrite (canonical_defaults_to_text _ _ Hname) in Hcanon.
      destruct (Z.eqb_spec k' k) as [->|Hne].
      * rewrite map_app, IH. simpl. now rewrite Hcanon.
      * fold (dict_get_or Z.eqb (cluster_mentions st) k' []).
        rewrite IH. simpl. now rewrite app_nil_r.
    + rewrite filter_app, map_app, IH.
      assert (Hf : has_character (char_id_of k') m = false)
        by (unfold has_character; now rewrite Hm).
      replace (filter (has_character (char_id_of k')) [m])
        with (@nil Mention.t) by (simpl; now rewrite Hf).
      simpl. now rewrite app_nil_r.
Qed.

Lemma parse_tsv_file_no_column (file : option string) (name : string) :
  match file with
  | Some content =>
      ~ In name (split tab (hd "" (split newline (strip content))))
  | None => True
  end ->
  Forall (fun row => dict_get String.eqb row name = None)
    (parse_tsv_file file).
Proof.
  destruct file as [content|]; [|constructor].
  unfold parse_tsv_file.
  destruct (split newline (strip content)) as [|header lines];
    [constructor|]. simpl hd. intros Hname.
  apply Forall_forall. intros row Hrow. apply in_map_iff in Hrow.
  destruct Hrow as (line & <- & _). now rewrite make_row_get_other.
Qed.

(** X20: when the header line of the entity table has no [name]
    column, the canonical name of a Character is the surface text of
    the last of its mentions whose text is not empty. *)
Theorem canonical_name_no_name_column (content : string)
    (tokens : list Token.t) (characters : list Character.t)
    (mentions : list Mention.t) (c2c : dict Z string) (ch : Character.t)
    (before after : list Mention.t) (m : Mention.t) :
  build_characters_and_mentions (Some content) tokens
  = Some (characters, mentions, c2c) ->
  ~ In "name" (split tab (hd "" (split newline (strip content)))) ->
  In ch characters ->
  filter (has_character (Character.id ch)) mentions = before ++ m :: after ->
  truthy (Mention.text m) = true ->
  Forall (fun m' => truthy (Mention.text m') = false) after ->
  Character.canonical_name ch = Mention.text m.
Proof.
  intros H Hname Hch Hsplit Hm Hafter.
  pose proof (build_characters_and_mentions_parts _ _ _ _ _ H)
    as (Ht & Hms & _).
  apply traverse_Forall2 in Ht.
  destruct (Forall2_In_r _ _ _ _ Ht Hch) as ([k data] & Hin & Hc).
  pose proof (scan_entities_inv tokens (parse_tsv_file (Some content)))
    as [Hnd _ _ _].
  pose proof (scan_entities_canonical tokens
                (parse_tsv_file (Some content))
                (parse_tsv_file_no_column (Some content) "name" Hname) k)
    as Hcan.
  unfold dict_get_or in Hcan.
  rewrite (In_dict_get _ Zeqb_eq _ _ _ Hnd Hin) in Hcan.
  rewrite mentions_acc_scan, <- Hms in Hcan.
  pose proof (character_of_cluster_fields _ _ _ Hc) as [Hid _].
  rewrite <- Hid, Hsplit, map_app in Hcan. simpl in Hcan.
  apply map_eq_app in Hcan. destruct Hcan as (d1 & d2 & -> & _ & Hd2).
  destruct d2 as [|e d2]; [discriminate|]. simpl in Hd2.
  injection Hd2 as He Hd2.
  assert (Hlast : snd (scan_cluster (d1 ++ e :: d2))
                  = ClusterEntry.canonical e).
  { apply scan_cluster_last_wins; [now rewrite He|].
    apply Forall_forall. intros e' He'.
    apply (in_map ClusterEntry.canonical) in He'. rewrite Hd2 in He'.
    apply in_map_iff in He'. destruct He' as (m' & <- & Hm').
    rewrite Forall_forall in Hafter. now apply Hafter. }
  unfold character_of_cluster in Hc.
  destruct (scan_cluster (d1 ++ e :: d2)) as [ac nm]. simpl in Hlast.
  subst nm. rewrite He, Hm in Hc. injection Hc as <-. reflexivity.
Qed.

(** What the resolver returns on the worked document. *)
Definition example_resolved
  : list Character.t * list Mention.t * dict Z string :=
  match build_characters_and_mentions (Some example_entities)
          (build_token_index (Some example_tokens) example_text) with
  | Some r => r
  | None => ([], [], [])
  end.

Lemma canonical_name_no_name_column_witness :
  exists ch m,
    In ch (fst (fst example_resolved)) /\
    nth_error (snd (fst example_resolved)) 3 = Some m /\
    Character.canonical_name ch = Mention.text m.
Proof.
  do 2 eexists. split; [left; reflexivity|]. split; [reflexivity|].
  apply (canonical_name_no_name_column example_entities
           (build_token_index (Some example_tokens) example_text)
           (fst (fst example_resolved)) (snd (fst example_resolved))
           (snd example_resolved) _
           (firstn 3 (snd (fst example_resolved))) []).
  - vm_compute. reflexivity.
  - vm_compute. intuition discriminate.
  - left. reflexivity.
  - vm_compute. reflexivity.
  - reflexivity.
  - constructor.
Defined.

(** ** Counts across the contract *)

Definition sum_Z (l : list Z) : Z := fold_right Z.add 0 l.

Lemma length_concat_sum {A} (l : list (list A)) :
  len (concat l) = sum_Z (map len l).
Proof.
  induction l as [|x l IH]; simpl; [reflexivity|].
  rewrite len_app, IH. reflexivity.
Qed.

Lemma filter_length_split {A} (p : A -> bool) (l : list A) :
  len (filter p l) + len (filter (fun x => negb (p x)) l) = len l.
Proof.
  unfold len. induction l as [|x l IH]; simpl; [reflexivity|].
  destruct (p x); simpl length; lia.
Qed.

Lemma aligned_lengths (mentions : list Mention.t)
    (chains : list CorefChain.t) (characters : list Character.t) :
  (forall chain, In chain chains ->
     exists s, CorefChain.character_id chain = Some s /\
               CorefChain.mentions chain
               = map Mention.id (filter (has_character s) mentions)) ->
  (forall ch, In ch characters ->
     Character.mention_count ch
     = len (filter (has_character (Character.id ch)) mentions)) ->
  map CorefChain.character_id chains
  = map (fun ch => Some (Character.id ch)) characters ->
  map (fun chain => len (CorefChain.mentions chain)) chains
  = map Character.mention_count characters.
Proof.
  revert characters. induction chains as [|chain chains IH];
    intros [|ch characters] Hchains Hchars Hal; simpl in *;
    try discriminate; [reflexivity|].
  injection Hal as Hid Hal. f_equal.
  - destruct (Hchains chain (or_introl eq_refl)) as (s & Hs & ->).
    rewrite Hs in Hid. injection Hid as ->.
    rewrite (Hchars ch (or_introl eq_refl)). unfold len.
    now rewrite length_map.
  - apply IH; [intros c Hc; apply Hchains; now right
              |intros c Hc; apply Hchars; now right|exact Hal].
Qed.

Section ContractCounts.
Variable sha256_hexdigest : string -> string.
Variable round3 : float -> float.

(** X21: in a contract, the [mention_count] of the metadata is the sum
    of the [mention_count] of the characters plus the number of mentions
    with a null [character_id]. *)
Theorem mention_counts_add_up (output_dir : Dir)
    (document_id original_text : string) (duration_seconds : float)
    (booknlp_version : string) (c : BookNLPContract.t) :
  build_contract sha256_hexdigest round3 output_dir document_id
    original_text duration_seconds booknlp_version = Some c ->
  sum_Z (map Character.mention_count (BookNLPContract.characters c))
  + len (filter
           (fun m => match Mention.character_id m with
                     | None => true
                     | Some _ => false
                     end)
           (BookNLPContract.mentions c))
  = Metadata.mention_count (BookNLPContract.metadata c).
Proof.
  intros Hc. pose proof (build_contract_metadata _ _ _ _ _ _ _ _ Hc) as Hmd.
  destruct Hmd as (_ & _ & _ & _ & _ & _ & _ & _ & -> & _).
  apply build_contract_Some in Hc.
  destruct Hc as (first & rest & c2c & _ & _ & Hr & Hch & _).
  pose proof (build_characters_and_mentions_inv _ _ _ _ _ Hr)
    as (_ & Hids & Hcount).
  pose proof (cluster_lookup_characters _ _ _ _ _ Hr) as (_ & Hal & _).
  set (ms := BookNLPContract.mentions c) in *.
  rewrite <- (aligned_lengths ms (build_coref_chains ms c2c)).
  - rewrite <- (map_map CorefChain.mentions len), <- length_concat_sum.
    unfold build_coref_chains. rewrite map_map. simpl.
    rewrite chains_by_char_group.
    unfold len at 1. rewrite (Permutation_length (group_concat_perm _ _ _)).
    rewrite length_map.
    rewrite <- (filter_length_split
                  (fun m => match chain_key m with
                            | Some _ => true
                            | None => false
                            end) ms).
    unfold len. do 3 f_equal. apply filter_ext_in. intros m Hm.
    unfold chain_key. destruct (Mention.character_id m) as [s|] eqn:E;
      [|reflexivity].
    destruct (Hids m s Hm E) as [_ ->]. reflexivity.
  - intros chain Hin. apply In_build_coref_chains in Hin.
    destruct Hin as (s & _ & _ & ->). exists s. now split.
  - intros ch Hin. now apply Hcount.
  - now symmetry.
Qed.

(** X22: the [text_hash] of a contract is the start of the digest of
    the text: its first 16 characters when the digest has that many. *)
Theorem text_hash_prefix (output_dir : Dir)
    (document_id original_text : string) (duration_seconds : float)
    (booknlp_version : string) (c : BookNLPContract.t) :
  build_contract sha256_hexdigest round3 output_dir document_id
    original_text duration_seconds booknlp_version = Some c ->
  (16 <= String.length (sha256_hexdigest original_text))%nat ->
  let h := Metadata.text_hash (BookNLPContract.metadata c) in
  String.length h = 16%nat /\
  String.prefix h (sha256_hexdigest original_text) = true.
Proof.
  intros Hc Hlen. apply build_contract_metadata in Hc.
  destruct Hc as (_ & _ & _ & _ & -> & _).
  generalize dependent (sha256_hexdigest original_text).
  intros d. generalize 16%nat.
  intros n. revert d. induction n as [|n IH]; intros d Hlen.
  - destruct d; now split.
  - destruct d as [|a d]; [simpl in Hlen; lia|]. simpl in Hlen.
    destruct (IH d ltac:(lia)) as [H1 H2]. simpl. split.
    + now rewrite H1.
    + destruct (Ascii.ascii_dec a a) as [_|Hne]; [exact H2|].
      now destruct Hne.
Qed.
End ContractCounts.

Lemma mention_counts_add_up_witness :
  exists c,
    build_contract example_digest example_round example_dir "doc"
      example_text 1.5%float "1.0.8" = Some c /\
    sum_Z (map Character.mention_count (BookNLPContract.characters c))
    + len (filter
             (fun m => match Mention.character_id m with
                       | None => true
                       | Some _ => false
                       end)
             (BookNLPContract.mentions c))
    = Metadata.mention_count (BookNLPContract.metadata c).
Proof.
  eexists. split; [vm_compute; reflexivity|].
  apply (mention_counts_add_up example_digest example_round example_dir
           "doc" example_text 1.5%float "1.0.8").
  vm_compute. reflexivity.
Defined.

Lemma text_hash_prefix_witness :
  exists c,
    build_contract example_digest example_round example_dir "doc"
      example_text 1.5%float "1.0.8" = Some c /\
    String.length (Metadata.text_hash (BookNLPContract.metadata c))
    = 16%nat /\
    String.prefix (Metadata.text_hash (BookNLPContract.metadata c))
      (example_digest example_text) = true.
Proof.
  eexists. split; [vm_compute; reflexivity|].
  apply (text_hash_prefix example_digest example_round example_dir
           "doc" example_text 1.5%float "1.0.8").
  - vm_compute. reflexivity.
  - vm_compute. repeat constructor.
Defined.

(** ** Where the offsets of a mention come from *)

(** A look-up that returns gives 0 for an index at or past the end, and
    otherwise the field of the token at the index taken modulo the
    length (a negative index counts from the end). *)
Lemma token_field_Some (f : Token.t -> Z) (tokens : list Token.t)
    (tok v : Z) :
  token_field f tokens tok = Some v ->
  (len tokens <= tok /\ v = 0) \/
  (tok < len tokens /\
   exists t, nth_error tokens (Z.to_nat (tok mod len tokens)) = Some t /\
             v = f t).
Proof.
  unfold token_field, index. pose proof (len_nonneg tokens) as Hlen.
  destruct (Z.ltb_spec tok (len tokens)) as [Hlt|Hge].
  - intros H. right. split; [exact Hlt|].
    destruct (Z.ltb_spec tok 0) as [Hneg|Hpos].
    + destruct (Z.leb_spec 0 (len tokens + tok)); [|discriminate].
      replace (tok mod len tokens) with (len tokens + tok).
      * destruct (nth_error tokens (Z.to_nat (len tokens + tok))) as [t|];
          [|discriminate].
        injection H as <-. now exists t.
      * apply (Z.mod_unique tok (len tokens) (-1)); lia.
    + rewrite Z.mod_small by lia.
      destruct (nth_error tokens (Z.to_nat tok)) as [t|]; [|discriminate].
      injection H as <-. now exists t.
  - intros [= <-]. left. split; [exact Hge|reflexivity].
Qed.

(** X23: the offsets of a mention come from the token table by Python's
    indexing: [start_char] and [sentence_idx] are 0 when [start_token]
    is at or past [len(tokens)], and otherwise those of the token at
    index [start_token] modulo [len(tokens)], so that a negative
    [start_token] counts from the end; likewise [end_char] with
    [end_token]. *)
Theorem mention_offsets_from_tokens (tokens : list Token.t) (i : Z)
    (row : Row) (m : Mention.t) :
  mention_of_row tokens (i, row) = Some m ->
  let n := len tokens in
  ((n <= Mention.start_token m /\
    Mention.start_char m = 0 /\ Mention.sentence_idx m = 0) \/
   (Mention.start_token m < n /\
    exists t,
      nth_error tokens (Z.to_nat (Mention.start_token m mod n)) = Some t /\
      Mention.start_char m = Token.start_char t /\
      Mention.sentence_idx m = Token.sentence_idx t)) /\
  ((n <= Mention.end_token m /\ Mention.end_char m = 0) \/
   (Mention.end_token m < n /\
    exists t,
      nth_error tokens (Z.to_nat (Mention.end_token m mod n)) = Some t /\
      Mention.end_char m = Token.end_char t)).
Proof.
  intros H n. subst n. unfold mention_of_row, entity_fields in H.
  destruct (py_int (get row "COREF" "-1")) as [k|]; [|discriminate].
  destruct (py_int (get row "start_token" "0")) as [s|]; [|discriminate].
  destruct (py_int (get row "end_token" "0")) as [e|]; [|discriminate].
  destruct (token_field Token.start_char tokens s) as [sc|] eqn:Es;
    [|discriminate].
  destruct (token_field Token.end_char tokens e) as [ec|] eqn:Ee;
    [|discriminate].
  destruct (token_field Token.sentence_idx tokens s) as [sent|] eqn:Et;
    [|discriminate].
  injection H as <-. simpl.
  apply token_field_Some in Es, Ee, Et. split.
  - destruct Es as [[Hge ->]|[Hlt (t & Ht & ->)]].
    + left. destruct Et as [[_ ->]|[Hlt _]]; [auto|lia].
    + right. split; [exact Hlt|].
      destruct Et as [[Hge _]|[_ (t' & Ht' & ->)]]; [lia|].
      exists t. rewrite Ht in Ht'. injection Ht' as <-. auto.
  - destruct Ee as [[Hge ->]|[Hlt (t & Ht & ->)]]; [now left|].
    right. split; [exact Hlt|]. now exists t.
Qed.

Lemma mention_offsets_from_tokens_witness :
  let tokens := build_token_index (Some example_tokens) example_text in
  exists row m,
    nth_error (parse_tsv_file (Some example_entities_out_of_range)) 1
    = Some row /\
    mention_of_row tokens (1, row) = Some m /\
    Mention.start_token m = -1 /\
    exists t,
      nth_error tokens (Z.to_nat (Mention.start_token m mod len tokens))
      = Some t /\
      Mention.start_char m = Token.start_char t /\
      Mention.sentence_idx m = Token.sentence_idx t.
Proof.
  do 2 eexists. split; [vm_compute; reflexivity|].
  split; [vm_compute; reflexivity|]. split; [reflexivity|].
  match goal with
  | |- context [Mention.start_token ?m] =>
      destruct (mention_offsets_from_tokens
                  (build_token_index (Some example_tokens) example_text)
                  1 (make_row
                       ["COREF"; "start_token"; "end_token"; "prop"; "cat";
                        "text"]
                       ["5"; "-1"; "-1"; "PROP"; "PER"; "Tom"] []) m)
        as [[[Hge _]|[_ Ht]] _]
  end.
  - vm_compute. reflexivity.
  - exfalso. vm_compute in Hge. now apply Hge.
  - exact Ht.
Defined.

(** ** The text of a quote *)

Lemma slice_inclusive {A} (l : list A) (s e : Z) :
  0 <= s <= e -> e < len l ->
  slice l s (e + 1)
  = firstn (Z.to_nat (e - s + 1)) (skipn (Z.to_nat s) l).
Proof.
  intros Hs He. unfold slice, slice_bound.
  destruct (Z.ltb_spec s 0); [lia|].
  destruct (Z.ltb_spec (e + 1) 0); [lia|].
  rewrite !Z.min_l by lia. do 2 f_equal. lia.
Qed.

(** X24: a quote carries the [quote] field of its row when that is not
    empty; with an empty field and [0 <= start <= end < len(tokens)] its
    text is the texts of the tokens [start] to [end], both included,
    joined by single spaces; with an empty field and an index at or past
    [len(tokens)] it is empty. *)
Theorem quote_text_source (tokens : list Token.t) (c2c : dict Z string)
    (names : dict string string) (i : Z) (row : Row) (q : Quote.t) :
  quote_of_row tokens c2c names (i, row) = Some q ->
  let s := Quote.start_token q in
  let e := Quote.end_token q in
  (get row "quote" "" <> "" -> Quote.text q = get row "quote" "") /\
  (get row "quote" "" = "" -> 0 <= s <= e -> e < len tokens ->
   Quote.text q
   = String.concat " "
       (map Token.text
          (firstn (Z.to_nat (e - s + 1)) (skipn (Z.to_nat s) tokens)))) /\
  (get row "quote" "" = "" -> len tokens <= s \/ len tokens <= e ->
   Quote.text q = "").
Proof.
  intros H s0 e0. subst s0 e0. unfold quote_of_row in H.
  destruct (quote_fields tokens row) as [[[[s e] sc] ec]|]; [|discriminate].
  injection H as <-. simpl. split; [|split].
  - intros Hq. destruct (get row "quote" ""); [now destruct Hq|reflexivity].
  - intros -> Hs He. simpl.
    destruct (Z.ltb_spec s (len tokens)); [|lia].
    destruct (Z.ltb_spec e (len tokens)); [|lia].
    simpl. now rewrite slice_inclusive.
  - intros -> Hor. simpl.
    destruct (Z.ltb_spec s (len tokens));
      destruct (Z.ltb_spec e (len tokens)); try reflexivity; lia.
Qed.

Lemma quote_text_source_witness :
  let tokens := build_token_index (Some example_tokens) example_text in
  exists row q,
    nth_error (parse_tsv_file (Some example_quotes)) 2 = Some row /\
    quote_of_row tokens [] [] (2, row) = Some q /\
    Quote.text q = "Tom saw".
Proof.
  do 2 eexists. split; [vm_compute; reflexivity|].
  split; [vm_compute; reflexivity|].
  match goal with
  | |- Quote.text ?q = _ =>
      destruct (quote_text_source
                  (build_token_index (Some example_tokens) example_text)
                  [] []
                  2 (make_row
                       ["quote_start"; "quote_end"; "char_id"; "quote"]
                       ["6"; "7"; "77"; ""] []) q)
        as (_ & H & _)
  end.
  - vm_compute. reflexivity.
  - rewrite H; vm_compute; try reflexivity; intuition discriminate.
Defined.

(** * Files that cannot be read *)

(** [parse_tsv_file] reads its file with [path.read_text], ahead of
    every [try]: when the path exists and the read raises, the exception
    leaves the reader, its caller and [build_contract].  The functions
    above take the text that was read; the ones below take the path. *)

(** An existing path: the text [read_text(encoding="utf-8")] returns, or
    a path for which it raises (bytes that are not UTF-8, a directory,
    a file that may not be read). *)
Inductive File :=
| Text (content : string)
| Unreadable.

(** The exceptions that leave the builder: the [ValueError] of
    [build_contract] for want of a token table, the exception of
    [read_text], and the [ValueError] of [max] on an empty sequence. *)
Inductive exn :=
| NoTokensFile
| ReadError
| MaxOfEmpty.

Inductive outcome (A : Type) :=
| Returned (a : A)
| Raised (e : exn).

Arguments Returned {A} a.
Arguments Raised {A} e.

Definition bind {A B} (r : outcome A) (k : A -> outcome B) : outcome B :=
  match r with
  | Returned a => k a
  | Raised e => Raised e
  end.

(** The output directory with its files as they are on disk. *)
Definition FsDir := dict string File.

(** [output_dir / name]: [None] when the path does not exist. *)
Definition path_of (output_dir : FsDir) (name : string) : option File :=
  dict_get String.eqb output_dir name.

(** [if not path.exists(): ...] then [path.read_text(encoding="utf-8")]:
    the text handed to the rest of [parse_tsv_file]. *)
Definition read_path (path : option File) : outcome (option string) :=
  match path with
  | None => Returned None
  | Some (Text content) => Returned (Some content)
  | Some Unreadable => Raised ReadError
  end.

Definition parse_tsv_file_fs (path : option File) : outcome (list Row) :=
  bind (read_path path) (fun content => Returned (parse_tsv_file content)).

Definition build_token_index_fs (tokens_file : option File) (text : string)
  : outcome (list Token.t) :=
  bind (read_path tokens_file)
    (fun content => Returned (build_token_index content text)).

Definition build_characters_and_mentions_fs (entities_file : option File)
    (tokens : list Token.t)
  : outcome (list Character.t * list Mention.t * dict Z string) :=
  bind (read_path entities_file)
    (fun content =>
       match build_characters_and_mentions content tokens with
       | Some r => Returned r
       | None => Raised MaxOfEmpty
       end).

Definition build_quotes_fs (quotes_file : option File)
    (tokens : list Token.t) (cluster_to_char_id : dict Z string)
    (characters : list Character.t) : outcome (list Quote.t) :=
  bind (read_path quotes_file)
    (fun content =>
       Returned (build_quotes content tokens cluster_to_char_id characters)).

(** [output_dir.glob("*.tokens")] *)
Definition glob_tokens_fs (output_dir : FsDir) : list string :=
  filter (ends_with ".tokens") (map fst output_dir).

Section AssemblerFs.
Variable sha256_hexdigest : string -> string.
Variable round3 : float -> float.

Definition build_contract_fs (output_dir : FsDir)
    (document_id original_text : string) (duration_seconds : float)
    (booknlp_version : string) : outcome BookNLPContract.t :=
  match glob_tokens_fs output_dir with
  | [] => Raised NoTokensFile
  | first :: _ =>
      let prefix := stem first in
      let tokens_file := path_of output_dir (prefix ++ ".tokens") in
      let entities_file := path_of output_dir (prefix ++ ".entities") in
      let quotes_file := path_of output_dir (prefix ++ ".quotes") in
      bind (build_token_index_fs tokens_file original_text) (fun tokens =>
      bind (build_characters_and_mentions_fs entities_file tokens)
        (fun cmc =>
      let '(characters, mentions, cluster_to_char_id) := cmc in
      let coref_chains := build_coref_chains mentions cluster_to_char_id in
      bind (build_quotes_fs quotes_file tokens cluster_to_char_id characters)
        (fun quotes =>
      let text_hash := substring 0 16 (sha256_hexdigest original_text) in
      Returned {|
        BookNLPContract.schema_version := SCHEMA_VERSION;
        BookNLPContract.document_id := document_id;
        BookNLPContract.metadata := {|
          Metadata.booknlp_version := booknlp_version;
          Metadata.text_length := Z.of_nat (String.length original_text);
          Metadata.text_hash := text_hash;
          Metadata.processing_time_seconds := round3 duration_seconds;
          Metadata.token_count := len tokens;
          Metadata.sentence_count := sentence_count_of tokens;
          Metadata.character_count := len characters;
          Metadata.mention_count := len mentions;
          Metadata.quote_count := len quotes |};
        BookNLPContract.characters := characters;
        BookNLPContract.mentions := mentions;
        BookNLPContract.coref_chains := coref_chains;
        BookNLPContract.quotes := quotes;
        BookNLPContract.tokens := tokens |})))
  end.
End AssemblerFs.

(** The directory of the texts, for a directory all of whose files can
    be read. *)
Definition as_text (output_dir : FsDir) : Dir :=
  map (fun nf => (fst nf,
                  match snd nf with Text content => content | Unreadable => "" end))
    output_dir.


(** ** Suffixes *)








(** ** Reading a path *)

Lemma read_path_Raised (path : option File) (e : exn) :
  read_path path = Raised e <-> path = Some Unreadable /\ e = ReadError.
Proof.
  destruct path as [[content|]|]; simpl; split;
    try discriminate; try (intros [H _]; discriminate H).
  - intros [= <-]. auto.
  - intros [_ ->]. reflexivity.
Qed.

Lemma read_path_readable (path : option File) :
  path <> Some Unreadable ->
  exists content,
    read_path path = Returned content /\ (path = None <-> content = None).
Proof.
  destruct path as [[content|]|]; simpl; intros H.
  - exists (Some content). repeat split; discriminate.
  - now contradiction H.
  - exists None. repeat split.
Qed.

(** The directory of the texts lists the same names, and holds what
    [read_text] returns for each. *)
Lemma glob_tokens_as_text (output_dir : FsDir) :
  glob_tokens (as_text output_dir) = glob_tokens_fs output_dir.
Proof.
  unfold glob_tokens, glob_tokens_fs, as_text. now rewrite map_map.
Qed.

Lemma read_path_as_text (output_dir : FsDir) (name : string) :
  Forall (fun nf => snd nf <> Unreadable) output_dir ->
  read_path (path_of output_dir name)
  = Returned (read_file (as_text output_dir) name).
Proof.
  unfold path_of, read_file. induction 1 as [|[n f] d Hf _ IH]; simpl.
  - reflexivity.
  - destruct (String.eqb name n); [|exact IH].
    destruct f; [reflexivity|now contradiction Hf].
Qed.

Section ContractFs.
Variable sha256_hexdigest : string -> string.
Variable round3 : float -> float.

(** On a directory all of whose files can be read, the build is the
    build over their texts. *)
Lemma build_contract_fs_text (output_dir : FsDir)
    (document_id original_text : string) (duration_seconds : float)
    (booknlp_version : string) :
  Forall (fun nf => snd nf <> Unreadable) output_dir ->
  build_contract_fs sha256_hexdigest round3 output_dir document_id
    original_text duration_seconds booknlp_version
  = match build_contract sha256_hexdigest round3 (as_text output_dir)
            document_id original_text duration_seconds booknlp_version with
    | Some c => Returned c
    | None => Raised NoTokensFile
    end.
Proof.
  intros Hd. unfold build_contract_fs, build_contract.
  rewrite glob_tokens_as_text.
  destruct (glob_tokens_fs output_dir) as [|first rest]; [reflexivity|].
  cbv zeta.
  unfold build_token_index_fs, build_characters_and_mentions_fs,
    build_quotes_fs.
  rewrite !(read_path_as_text _ _ Hd). unfold bind.
  destruct (build_characters_and_mentions_total
              (read_file (as_text output_dir) (stem first ++ ".entities"))
              (build_token_index
                 (read_file (as_text output_dir) (stem first ++ ".tokens"))
                 original_text))
    as (characters & mentions & c2c & ->).
  reflexivity.
Qed.

End ContractFs.

(** ** The stem of a token table's name *)









Section ContractAbort.
Variable sha256_hexdigest : string -> string.
Variable round3 : float -> float.

End ContractAbort.

(** X2: the entity resolver raises exactly when the entity table exists
    and cannot be read ([parse_tsv_file] reads it ahead of the [try]),
    with the exception of [read_text].  For an absent or readable table
    it returns, and its Mention list holds, in row order, one mention
    for each row of the table that is not dropped, with the id
    [mention_i] of the row's index; a row is dropped exactly when COREF,
    start_token or end_token is not an integer or a token index is below
    [-len(tokens)]. *)
Theorem mentions_follow_rows (entities_file : option File)
    (tokens : list Token.t) :
  (forall e,
     build_characters_and_mentions_fs entities_file tokens = Raised e <->
     entities_file = Some Unreadable /\ e = ReadError) /\
  (forall content,
     read_path entities_file = Returned content ->
     exists characters c2c,
       build_characters_and_mentions_fs entities_file tokens
       = Returned (characters,
                   flat_map (opt_list (mention_of_row tokens))
                     (enumerate (parse_tsv_file content)),
                   c2c) /\
       build_characters_and_mentions content tokens
       = Some (characters,
               flat_map (opt_list (mention_of_row tokens))
                 (enumerate (parse_tsv_file content)),
               c2c)) /\
  (entities_file <> Some Unreadable ->
   exists content, read_path entities_file = Returned content /\
                   (entities_file = None <-> content = None) /\
                   forall c, entities_file = Some (Text c) ->
                             content = Some c) /\
  (forall i row,
     mention_of_row tokens (i, row) = None <->
     py_int (get row "COREF" "-1") = None \/
     indices_raise tokens (get row "start_token" "0")
       (get row "end_token" "0")) /\
  (forall i row m,
     mention_of_row tokens (i, row) = Some m ->
     Mention.id m = ("mention_" ++ py_str i)%string /\
     Mention.text m = get row "text" "" /\
     (Mention.character_id m = None <->
      exists k, py_int (get row "COREF" "-1") = Some k /\ k < 0)).
Proof.
  split; [|split; [|split; [|split]]].
  - intros e. unfold build_characters_and_mentions_fs.
    destruct entities_file as [[c|]|]; cbn [read_path bind].
    + destruct (build_characters_and_mentions_total (Some c) tokens)
        as (cs & ms & c2c & ->).
      split; [discriminate|]. intros [H _]. discriminate H.
    + split; [intros [= <-]; auto|]. now intros [_ ->].
    + destruct (build_characters_and_mentions_total None tokens)
        as (cs & ms & c2c & ->).
      split; [discriminate|]. intros [H _]. discriminate H.
  - intros content Hread. unfold build_characters_and_mentions_fs.
    rewrite Hread. unfold bind.
    destruct (build_characters_and_mentions_total content tokens)
      as (cs & ms & c2c & E).
    exists cs, c2c. rewrite E.
    apply build_characters_and_mentions_parts in E.
    destruct E as (_ & -> & _). split; reflexivity.
  - intros H. destruct entities_file as [[c|]|].
    + exists (Some c). repeat split; try discriminate.
      now intros c' [= ->].
    + now contradiction H.
    + exists None. repeat split; discriminate.
  - intros i row. rewrite mention_of_row_None. apply entity_fields_None.
  - intros i row m Hm. split; [now apply mention_of_row_id in Hm|].
    unfold mention_of_row, entity_fields in Hm.
    destruct (py_int (get row "COREF" "-1")) as [k|]; [|discriminate].
    destruct (py_int (get row "start_token" "0")) as [s|]; [|discriminate].
    destruct (py_int (get row "end_token" "0")) as [e|]; [|discriminate].
    destruct (token_field Token.start_char tokens s); [|discriminate].
    destruct (token_field Token.end_char tokens e); [|discriminate].
    destruct (token_field Token.sentence_idx tokens s); [|discriminate].
    injection Hm as <-. simpl. split; [reflexivity|].
    destruct (Z.leb_spec 0 k); split.
    + discriminate.
    + intros (k' & [= <-] & Hk). lia.
    + intros _. now exists k.
    + reflexivity.
Qed.
